(** * news-finder: the streaming pipeline of the content-discovery backend

    A shallow embedding of [backend.py], [gemini_service.py],
    [content_validator.py] and [data_models.py], and the properties the
    specification states about them.

    Conventions of the embedding.

    - A Python [str] is a list of code points ([str := list N]).  Literals
      are written [py "..."]; [pyq "..."] is the same with every apostrophe
      standing for a double quote, which keeps JSON texts readable.
    - Values that come out of [json.loads] and flow through the pipeline
      untyped are [pyval]s.  A JSON number with a fraction or an exponent
      keeps its lexeme; whatever needs its numeric value asks the
      environment.
    - An exception is a value of [exn]; code that may raise returns a
      [result].  A generator is the trace of what it does, in order: the
      chunks it pulls from the model stream and the events it yields to the
      client, ending either normally or in an exception ([gen]).
    - Everything the program does not own is a field of [World]: the Unicode
      tables of the interpreter outside ASCII, [urlparse], the HTTP
      endpoints, the secondary model call, the clock, and the order in which
      the futures of a thread pool complete.  Theorems hold for every world.
    - Resource limits of the interpreter (recursion depth, the integer digit
      limit, memory) are not modelled. *)

From Stdlib Require Import ZArith NArith String Ascii Lia Permutation.
From stdpp Require Import base option list gmap.

Set Warnings "-register-all".
Local Open Scope Z_scope.
Local Open Scope list_scope.

(* ===================================================================== *)
(** ** Strings *)
(* ===================================================================== *)

Definition char := N.
Bind Scope N_scope with char.
Definition str := list char.

Fixpoint py (s : string) : str :=
  match s with
  | EmptyString => []
  | String a s' => N_of_ascii a :: py s'
  end.

Definition ch (a : ascii) : char := N_of_ascii a.

Definition dquote : char := 34%N.
Definition newline : char := 10%N.

(** [pyq] reads an apostrophe as a double quote. *)
Definition pyq (s : string) : str :=
  List.map (fun c => if N.eqb c 39 then dquote else c) (py s).

Fixpoint str_eqb (a b : str) : bool :=
  match a, b with
  | [], [] => true
  | x :: a', y :: b' => N.eqb x y && str_eqb a' b'
  | _, _ => false
  end.

(** [s.startswith(p)] *)
Fixpoint startswith (p s : str) : bool :=
  match p, s with
  | [], _ => true
  | x :: p', y :: s' => N.eqb x y && startswith p' s'
  | _ :: _, [] => false
  end.

(** [p in s] for strings: [p] occurs as a substring *)
Fixpoint str_contains (p s : str) : bool :=
  startswith p s ||
  match s with
  | [] => false
  | _ :: s' => str_contains p s'
  end.

(** [''.join(parts)] *)
Definition join (parts : list str) : str := List.concat parts.

(* ===================================================================== *)
(** ** Exceptions and results *)
(* ===================================================================== *)

Inductive exn : Type :=
| JSONDecodeError
| KeyError
| IndexError
| AttributeError
| TypeError
| ValueError
| RecursionError
| UnboundLocalError
| FuturesTimeoutError                 (* concurrent.futures.TimeoutError *)
| RequestsTimeout                     (* requests.exceptions.Timeout *)
| RequestsError                       (* any other requests.exceptions.RequestException *)
| ExternalError (msg : str).          (* anything else a collaborator raises *)

Inductive result (A : Type) : Type :=
| Ok (a : A)
| Raise (e : exn).
Arguments Ok {A} a.
Arguments Raise {A} e.

Definition rbind {A B} (m : result A) (f : A -> result B) : result B :=
  match m with
  | Ok a => f a
  | Raise e => Raise e
  end.

(** [except requests.exceptions.RequestException]: [Timeout] is a subclass. *)
Definition is_RequestException (e : exn) : bool :=
  match e with
  | RequestsTimeout | RequestsError => true
  | _ => false
  end.

Definition is_requests_Timeout (e : exn) : bool :=
  match e with
  | RequestsTimeout => true
  | _ => false
  end.

(** [except (json.JSONDecodeError, KeyError)] *)
Definition is_JSONDecodeError_or_KeyError (e : exn) : bool :=
  match e with
  | JSONDecodeError | KeyError => true
  | _ => false
  end.

(* ===================================================================== *)
(** ** Untyped values *)
(* ===================================================================== *)

Inductive pyval : Type :=
| PNone
| PBool (b : bool)
| PInt (z : Z)
| PFloat (lexeme : str)
| PStr (s : str)
| PList (l : list pyval)
| PDict (d : list (str * pyval)).

(** A [dict] with string keys, in insertion order, keys unique. *)
Definition dict := list (str * pyval).

Fixpoint dict_lookup (d : dict) (k : str) : option pyval :=
  match d with
  | [] => None
  | (k', v) :: d' => if str_eqb k' k then Some v else dict_lookup d' k
  end.

(** [d[k] = v]: an existing key keeps its place, a new one goes last. *)
Fixpoint dict_set (d : dict) (k : str) (v : pyval) : dict :=
  match d with
  | [] => [(k, v)]
  | (k', v') :: d' =>
      if str_eqb k' k then (k', v) :: d' else (k', v') :: dict_set d' k v
  end.

(** [d.get(k, default)] *)
Definition dict_get (d : dict) (k : str) (default : pyval) : pyval :=
  match dict_lookup d k with
  | Some v => v
  | None => default
  end.

(** [item.get(k, default)] on a value of unknown type: only a dict has
    [get]. *)
Definition py_get (item : pyval) (k : str) (default : pyval) : result pyval :=
  match item with
  | PDict d => Ok (dict_get d k default)
  | _ => Raise AttributeError
  end.

(** [item[k]] *)
Definition py_getitem (item : pyval) (k : str) : result pyval :=
  match item with
  | PDict d =>
      match dict_lookup d k with
      | Some v => Ok v
      | None => Raise KeyError
      end
  | _ => Raise TypeError
  end.

(** [item[k] = v] *)
Definition py_setitem (item : pyval) (k : str) (v : pyval) : result pyval :=
  match item with
  | PDict d => Ok (PDict (dict_set d k v))
  | _ => Raise TypeError
  end.

(** [len(x)] *)
Definition py_len (x : pyval) : result nat :=
  match x with
  | PList l => Ok (length l)
  | PDict d => Ok (length d)
  | PStr s => Ok (length s)
  | _ => Raise TypeError
  end.

(** [for item in x] *)
Definition py_iter (x : pyval) : result (list pyval) :=
  match x with
  | PList l => Ok l
  | PDict d => Ok (List.map (fun kv => PStr (fst kv)) d)
  | PStr s => Ok (List.map (fun c => PStr [c]) s)
  | _ => Raise TypeError
  end.

(* ===================================================================== *)
(** ** The environment *)
(* ===================================================================== *)

Inductive http_method : Type := HEAD | GET.

Record request : Type := {
  req_method : http_method;
  req_url : str;
  req_custom_agent : bool      (* the call passes its own User-Agent header *)
}.

Record response : Type := {
  resp_status_code : Z;
  resp_content_type : option str;    (* headers.get('content-type') *)
  resp_text : str
}.

(** The reply of the secondary model call of the link resolver, as far as
    the resolver looks into it. *)
Record web_ref : Type := { uri : pyval }.
Record grounding_chunk : Type := { web : option web_ref }.
Record grounding_meta : Type := { grounding_chunks : option (list grounding_chunk) }.
Record url_candidate : Type := { grounding_metadata : option grounding_meta }.
Record url_response : Type := {
  url_text : option str;
  url_candidates : option (list url_candidate)
}.

Record World : Type := {
  (* Unicode tables, consulted for code points from 128 on *)
  uni_isspace : char -> bool;
  uni_isdecimal : char -> bool;
  (* str.lower() *)
  str_lower : str -> str;
  (* truth value of a float literal *)
  float_nonzero : str -> bool;
  (* str(v) of a value that is not a string, as an f-string renders it *)
  py_repr : pyval -> str;
  (* == between dictionary keys when one of them is not a string *)
  key_eqb : pyval -> pyval -> bool;
  (* urllib.parse.urlparse: scheme and netloc, or the exception it raises *)
  urlparse : str -> result (str * str);
  (* requests.Session.head / get *)
  http : request -> result response;
  (* client.models.generate_content of the link lookup: every item of the
     list has a call of its own, so the reply depends on the position of the
     item as well as on the title and the source it asks about *)
  generate_content_for_url : nat -> str -> str -> result url_response;
  (* genai.Client(api_key=...) in set_api_key *)
  client_init : pyval -> result unit;
  (* datetime.now().isoformat() *)
  clock : str;
  (* the order in which the futures of a pool complete *)
  completion_order : list nat;
  (* how many futures as_completed(timeout=30) delivers before it gives up;
     None when all of them finish in time *)
  batch_deadline : option nat;
  (* sys.get_int_max_str_digits(): the longest integer literal int() accepts,
     4300 unless configured; 0 when there is no limit *)
  int_max_str_digits : N;
  (* how many arrays and objects json.loads can open inside one another
     before the interpreter refuses to recurse, beyond the two levels of an
     array of objects, for which an interpreter that runs the endpoints has
     room *)
  nesting_headroom : nat
}.

(** [str.isspace] of one character, which is also [\s] of [re]. *)
Definition isspace (w : World) (c : char) : bool :=
  if (c <? 128)%N
  then ((9 <=? c) && (c <=? 13) || (28 <=? c) && (c <=? 32))%N
  else uni_isspace w c.

(** [\d] of [re] on [str] patterns: a Unicode decimal digit. *)
Definition isdecimal (w : World) (c : char) : bool :=
  if (c <? 128)%N
  then ((48 <=? c) && (c <=? 57))%N
  else uni_isdecimal w c.

(** [bool(v)] *)
Definition truthy (w : World) (v : pyval) : bool :=
  match v with
  | PNone => false
  | PBool b => b
  | PInt z => negb (z =? 0)
  | PFloat x => float_nonzero w x
  | PStr s => match s with [] => false | _ => true end
  | PList l => match l with [] => false | _ => true end
  | PDict d => match d with [] => false | _ => true end
  end.

(** [f"{v}"] *)
Definition format (w : World) (v : pyval) : str :=
  match v with
  | PStr s => s
  | _ => py_repr w v
  end.

(** [s.strip()] *)
Fixpoint lstrip (w : World) (s : str) : str :=
  match s with
  | [] => []
  | c :: s' => if isspace w c then lstrip w s' else s
  end.

Definition rstrip (w : World) (s : str) : str :=
  List.rev (lstrip w (List.rev s)).

Definition strip (w : World) (s : str) : str := rstrip w (lstrip w s).

(* ===================================================================== *)
(** ** Regular expressions

    The patterns of the program are transcribed as [regex] terms and run by
    a backtracking matcher with the priorities of [re]: the left branch of
    an alternative first, as many iterations of a star as possible first. *)
(* ===================================================================== *)

Inductive regex : Type :=
| Eps
| Chr (c : char)
| Cls (p : char -> bool)
| Seq (r1 r2 : regex)
| Alt (r1 r2 : regex)
| Star (r : regex).

Definition Plus (r : regex) : regex := Seq r (Star r).
Definition Opt (r : regex) : regex := Alt r Eps.

Fixpoint Lit (s : str) : regex :=
  match s with
  | [] => Eps
  | c :: s' => Seq (Chr c) (Lit s')
  end.

(** The iterations of a star whose body is matched by [body]: as many as
    possible first; an iteration has to consume something, so [n], the
    length of the text at the start, bounds their number. *)
Fixpoint star_loop {A : Type} (body : str -> (str -> option A) -> option A)
    (k : str -> option A) (n : nat) (s : str) : option A :=
  match n with
  | O => k s
  | S n' =>
      match body s (fun s' =>
              if (length s' <? length s)%nat then star_loop body k n' s' else None) with
      | Some a => Some a
      | None => k s
      end
  end.

(** [rmatch r s k]: match [r] at the start of [s] and hand what is left to
    [k]; when [k] refuses, try the next way of matching. *)
Fixpoint rmatch {A : Type} (r : regex) (s : str) (k : str -> option A) : option A :=
  match r with
  | Eps => k s
  | Chr c =>
      match s with
      | x :: s' => if N.eqb x c then k s' else None
      | [] => None
      end
  | Cls p =>
      match s with
      | x :: s' => if p x then k s' else None
      | [] => None
      end
  | Seq r1 r2 => rmatch r1 s (fun s' => rmatch r2 s' k)
  | Alt r1 r2 =>
      match rmatch r1 s k with
      | Some a => Some a
      | None => rmatch r2 s k
      end
  | Star r1 => star_loop (rmatch r1) k (length s) s
  end.

(** Length of the match of [r] at the start of [s]. *)
Definition match_len (r : regex) (s : str) : option nat :=
  rmatch r s (fun rest => Some (length s - length rest)%nat).

(** [re.search(r, s).group(0)]: the match at the leftmost position that has
    one. *)
Fixpoint re_search (r : regex) (s : str) : option str :=
  match match_len r s with
  | Some n => Some (take n s)
  | None =>
      match s with
      | [] => None
      | _ :: s' => re_search r s'
      end
  end.

(** [re.sub(r, repl, s)] for a pattern that matches no empty string (all the
    patterns below start with a mandatory character): [skip] counts the
    characters of the current match still to drop. *)
Fixpoint re_sub_from (r : regex) (repl : str) (skip : nat) (s : str) : str :=
  match s with
  | [] => []
  | c :: s' =>
      match skip with
      | S n => re_sub_from r repl n s'
      | O =>
          match match_len r s with
          | Some (S n) => repl ++ re_sub_from r repl n s'
          | _ => c :: re_sub_from r repl O s'
          end
      end
  end.

Definition re_sub (r : regex) (repl : str) (s : str) : str :=
  re_sub_from r repl O s.

Section Patterns.
Variable w : World.

Definition re_s : regex := Cls (isspace w).                      (* \s *)
Definition re_d : regex := Cls (isdecimal w).                    (* \d *)
Definition re_any : regex :=                                     (* [\s\S] *)
  Cls (fun c => isspace w c || negb (isspace w c)).

(** [r'\[[\s\S]*\]'] *)
Definition json_array_pattern : regex :=
  Seq (Chr (ch "[")) (Seq (Star re_any) (Chr (ch "]"))).

(** [r'\[(?:General search \d+,?\s*|Meta search \d+,?\s* )+\]'] (the
    source has no space before the closing parenthesis) *)
Definition metadata_pattern : regex :=
  Seq (Chr (ch "["))
    (Seq (Plus (Alt
                  (Seq (Lit (py "General search "))
                     (Seq (Plus re_d) (Seq (Opt (Chr (ch ","))) (Star re_s))))
                  (Seq (Lit (py "Meta search "))
                     (Seq (Plus re_d) (Seq (Opt (Chr (ch ","))) (Star re_s))))))
       (Chr (ch "]"))).

(** [r'\[(?:Search|Result|Source|Reference)\s*\d+\]'] *)
Definition simple_metadata_pattern : regex :=
  Seq (Chr (ch "["))
    (Seq (Alt (Lit (py "Search"))
            (Alt (Lit (py "Result"))
               (Alt (Lit (py "Source")) (Lit (py "Reference")))))
       (Seq (Star re_s) (Seq (Plus re_d) (Chr (ch "]"))))).

(** [r'\s+'] *)
Definition whitespace_pattern : regex := Plus re_s.

(** [GeminiContentService._clean_metadata_from_text] *)
Definition _clean_metadata_from_text (text : str) : str :=
  match text with
  | [] => text
  | _ =>
      let cleaned_text := re_sub metadata_pattern [] text in
      let cleaned_text := re_sub simple_metadata_pattern [] cleaned_text in
      let cleaned_text := strip w (re_sub whitespace_pattern (py " ") cleaned_text) in
      cleaned_text
  end.

(** The same call on a value of unknown type: a falsy value is returned as
    it is, and [re.sub] refuses anything that is not a string. *)
Definition clean_metadata_from_value (text : pyval) : result pyval :=
  if negb (truthy w text) then Ok text
  else match text with
       | PStr s => Ok (PStr (_clean_metadata_from_text s))
       | _ => Raise TypeError
       end.
End Patterns.

(** A world for running examples: ASCII only, nothing reachable. *)
Definition offline : World := {|
  uni_isspace := fun _ => false;
  uni_isdecimal := fun _ => false;
  str_lower := fun s => s;
  float_nonzero := fun _ => true;
  py_repr := fun _ => py "?";
  key_eqb := fun _ _ => false;
  urlparse := fun _ => Ok ([], []);
  http := fun _ => Raise RequestsError;
  generate_content_for_url := fun _ _ _ => Raise (ExternalError (py "offline"));
  client_init := fun _ => Ok tt;
  clock := py "2025-01-01T00:00:00";
  completion_order := [];
  batch_deadline := None;
  int_max_str_digits := 4300;
  nesting_headroom := 998
|}.

(* ===================================================================== *)
(** ** [json.loads]

    The decoder of the standard library: recursive descent over the text,
    strict strings, [NaN] and the infinities accepted, the whole text
    consumed.  The recursion is on a fuel that [loads] sets high enough for
    any text ([loads_never_starved]).  Two exceptions come from underneath
    the decoder: [ValueError] of [int] for an integer literal longer than
    the interpreter allows, and [RecursionError] for arrays and objects
    nested deeper than the interpreter can recurse. *)
(* ===================================================================== *)

Definition between (lo hi c : char) : bool := (N.leb lo c && N.leb c hi)%bool.

Definition is_json_whitespace (c : char) : bool :=
  N.eqb c 32 || N.eqb c 9 || N.eqb c 10 || N.eqb c 13.

Fixpoint skip_whitespace (s : str) : str :=
  match s with
  | c :: s' => if is_json_whitespace c then skip_whitespace s' else s
  | [] => []
  end.

Definition is_ascii_digit (c : char) : bool := between 48 57 c.

Definition hex_digit (c : char) : option N :=
  if between 48 57 c then Some (c - 48)%N
  else if between 97 102 c then Some (c - 87)%N
  else if between 65 70 c then Some (c - 55)%N
  else None.

Definition hex4 (a b c d : char) : option N :=
  match hex_digit a, hex_digit b, hex_digit c, hex_digit d with
  | Some x, Some y, Some z, Some t => Some (((x * 16 + y) * 16 + z) * 16 + t)%N
  | _, _, _, _ => None
  end.

Definition is_high_surrogate (u : N) : bool := between 55296 56319 u.   (* D800..DBFF *)
Definition is_low_surrogate (u : N) : bool := between 56320 57343 u.    (* DC00..DFFF *)

Definition join_surrogates (hi lo : N) : N :=
  (65536 + ((hi - 55296) * 1024 + (lo - 56320)))%N.

(** The character a one-letter escape stands for. *)
Definition unescape (e : char) : option char :=
  if N.eqb e 34 then Some 34%N            (* quote *)
  else if N.eqb e 92 then Some 92%N       (* backslash *)
  else if N.eqb e 47 then Some 47%N       (* slash *)
  else if N.eqb e 98 then Some 8%N        (* b: backspace *)
  else if N.eqb e 102 then Some 12%N      (* f: form feed *)
  else if N.eqb e 110 then Some 10%N      (* n: line feed *)
  else if N.eqb e 114 then Some 13%N      (* r: carriage return *)
  else if N.eqb e 116 then Some 9%N       (* t: tab *)
  else None.

(** [scanstring], from just after the opening quote: the decoded string and
    the text after the closing quote. *)
Fixpoint scanstring (acc : str) (s : str) : option (str * str) :=
  match s with
  | [] => None                                        (* unterminated *)
  | c :: s1 =>
      if N.eqb c 34 then Some (acc, s1)
      else if N.eqb c 92 then
        match s1 with
        | [] => None
        | e :: s2 =>
            if N.eqb e 117 then
              match s2 with
              | h1 :: h2 :: h3 :: h4 :: s3 =>
                  match hex4 h1 h2 h3 h4 with
                  | None => None
                  | Some u =>
                      if is_high_surrogate u then
                        match s3 with
                        | b :: v :: g1 :: g2 :: g3 :: g4 :: s4 =>
                            if N.eqb b 92 && N.eqb v 117 then
                              match hex4 g1 g2 g3 g4 with
                              | None => None
                              | Some u2 =>
                                  if is_low_surrogate u2
                                  then scanstring (acc ++ [join_surrogates u u2]) s4
                                  else scanstring (acc ++ [u]) s3
                              end
                            else scanstring (acc ++ [u]) s3
                        | _ => scanstring (acc ++ [u]) s3
                        end
                      else scanstring (acc ++ [u]) s3
                  end
              | _ => None
              end
            else
              match unescape e with
              | Some x => scanstring (acc ++ [x]) s2
              | None => None
              end
        end
      else if N.leb c 31 then None                    (* control character *)
      else scanstring (acc ++ [c]) s1
  end.

Fixpoint span_digits (s : str) : str * str :=
  match s with
  | c :: s' =>
      if is_ascii_digit c
      then let '(ds, rest) := span_digits s' in (c :: ds, rest)
      else ([], s)
  | [] => ([], [])
  end.

Definition int_of_digits (ds : str) : Z :=
  fold_left (fun acc c => acc * 10 + Z.of_N (c - 48)) ds 0.

(** The outcome of a step of the decoder: a value and the text after it;
    text that is no JSON, which [loads] reports as [JSONDecodeError]; an
    exception raised underneath the decoder, which [loads] passes on; or
    not enough fuel. *)
Inductive parsed (A : Type) : Type :=
| Parsed (a : A) (rest : str)
| Malformed
| Failed (e : exn)
| Starved.
Arguments Parsed {A} a rest.
Arguments Malformed {A}.
Arguments Failed {A} e.
Arguments Starved {A}.

Section Decoder.
Variable w : World.

(** [int] of a literal of more than 640 digits checks the limit of the
    interpreter and raises [ValueError] beyond it. *)
Definition int_too_long (digits : str) : bool :=
  let n := N.of_nat (length digits) in
  ((640 <? n) && (0 <? int_max_str_digits w) && (int_max_str_digits w <? n))%N.

(** The parts of the number at the start of a text, [NUMBER_RE] of the
    decoder: an optional minus, ... *)
Definition number_sign (s : str) : str * str :=
  match s with
  | c :: s' => if N.eqb c 45 then ([c], s') else ([], s)
  | [] => ([], s)
  end.

(** ... then 0, or a digit from 1 to 9 with more digits, ... *)
Definition number_integer (s : str) : option (str * str) :=
  match s with
  | c :: s' =>
      if between 49 57 c
      then let '(ds, rest) := span_digits s' in Some (c :: ds, rest)
      else if N.eqb c 48 then Some ([c], s')
      else None
  | [] => None
  end.

(** ... then an optional fraction, a dot and digits, ... *)
Definition number_fraction (s : str) : str * str :=
  match s with
  | dot :: d :: s' =>
      if N.eqb dot 46 && is_ascii_digit d
      then let '(ds, rest) := span_digits s' in (dot :: d :: ds, rest)
      else ([], s)
  | _ => ([], s)
  end.

(** ... then an optional exponent: e or E, an optional sign, digits. *)
Definition number_exponent (s : str) : str * str :=
  match s with
  | e :: s' =>
      if N.eqb e 101 || N.eqb e 69 then
        let '(esign, s'') :=
          match s' with
          | c :: t => if N.eqb c 45 || N.eqb c 43 then ([c], t) else ([], s')
          | [] => ([], s')
          end in
        let '(ds, rest) := span_digits s'' in
        match ds with
        | [] => ([], s)
        | _ => (e :: esign ++ ds, rest)
        end
      else ([], s)
  | [] => ([], s)
  end.

(** The number at the start of [s], as long as it goes.  It is an integer
    when it has neither fraction nor exponent, and then [int] converts its
    text; a float otherwise, of any length. *)
Definition match_number (s : str) : parsed pyval :=
  let '(sign, s1) := number_sign s in
  match number_integer s1 with
  | None => Malformed
  | Some (int_digits, s3) =>
      let '(frac, s4) := number_fraction s3 in
      let '(expo, s5) := number_exponent s4 in
      match frac, expo with
      | [], [] =>
          if int_too_long int_digits then Failed ValueError
          else
            let n := int_of_digits int_digits in
            Parsed (PInt (match sign with [] => n | _ => - n end)) s5
      | _, _ => Parsed (PFloat (sign ++ int_digits ++ frac ++ expo)) s5
      end
  end.

(** [s] starts with the literal [lit]: what follows it. *)
Fixpoint after_prefix (lit s : str) : option str :=
  match lit, s with
  | [], _ => Some s
  | x :: lit', y :: s' => if N.eqb x y then after_prefix lit' s' else None
  | _ :: _, [] => None
  end.

Definition literal_or_number (s : str) : parsed pyval :=
  let number := match_number s in
  let literal (lit : str) (v : pyval) :=
    match after_prefix lit s with
    | Some rest => Parsed v rest
    | None => number
    end in
  match s with
  | c :: _ =>
      if N.eqb c 110 then literal (py "null") PNone
      else if N.eqb c 116 then literal (py "true") (PBool true)
      else if N.eqb c 102 then literal (py "false") (PBool false)
      else if N.eqb c 78 then literal (py "NaN") (PFloat (py "NaN"))
      else if N.eqb c 73 then literal (py "Infinity") (PFloat (py "Infinity"))
      else if N.eqb c 45 then literal (py "-Infinity") (PFloat (py "-Infinity"))
      else number
  | [] => Malformed
  end.

(** [scan_once] at a value; [parse_array] after a value-to-come of an array
    whose earlier elements are [acc]; [parse_object] at the key of the next
    member of an object whose earlier members are [acc].  Every array and
    every object is decoded by a call of its own, entered only while there is
    [room] for one more; it raises [RecursionError] otherwise. *)
Fixpoint scan_once (fuel room : nat) (s : str) : parsed pyval :=
  match fuel with
  | O => Starved
  | S fuel' =>
      match s with
      | [] => Malformed
      | c :: s' =>
          if N.eqb c 34 then
            match scanstring [] s' with
            | Some (v, rest) => Parsed (PStr v) rest
            | None => Malformed
            end
          else if N.eqb c 123 then
            match room with
            | O => Failed RecursionError
            | S room' =>
                match skip_whitespace s' with
                | c' :: rest =>
                    if N.eqb c' 125 then Parsed (PDict []) rest
                    else parse_object fuel' room' [] (c' :: rest)
                | [] => Malformed
                end
            end
          else if N.eqb c 91 then
            match room with
            | O => Failed RecursionError
            | S room' =>
                match skip_whitespace s' with
                | c' :: rest =>
                    if N.eqb c' 93 then Parsed (PList []) rest
                    else parse_array fuel' room' [] (c' :: rest)
                | [] => Malformed
                end
            end
          else literal_or_number s
      end
  end
with parse_array (fuel room : nat) (acc : list pyval) (s : str) : parsed pyval :=
  match fuel with
  | O => Starved
  | S fuel' =>
      match scan_once fuel' room s with
      | Parsed v rest =>
          match skip_whitespace rest with
          | c :: rest' =>
              if N.eqb c 93 then Parsed (PList (acc ++ [v])) rest'
              else if N.eqb c 44
              then parse_array fuel' room (acc ++ [v]) (skip_whitespace rest')
              else Malformed
          | [] => Malformed
          end
      | Malformed => Malformed
      | Failed e => Failed e
      | Starved => Starved
      end
  end
with parse_object (fuel room : nat) (acc : dict) (s : str) : parsed pyval :=
  match fuel with
  | O => Starved
  | S fuel' =>
      match s with
      | q :: s1 =>
          if N.eqb q 34 then
            match scanstring [] s1 with
            | Some (key, s2) =>
                match skip_whitespace s2 with
                | colon :: s3 =>
                    if N.eqb colon 58 then
                      match scan_once fuel' room (skip_whitespace s3) with
                      | Parsed v rest =>
                          match skip_whitespace rest with
                          | c :: rest' =>
                              if N.eqb c 125 then Parsed (PDict (dict_set acc key v)) rest'
                              else if N.eqb c 44
                              then parse_object fuel' room (dict_set acc key v)
                                     (skip_whitespace rest')
                              else Malformed
                          | [] => Malformed
                          end
                      | Malformed => Malformed
                      | Failed e => Failed e
                      | Starved => Starved
                      end
                    else Malformed
                | [] => Malformed
                end
            | None => Malformed
            end
          else Malformed
      | [] => Malformed
      end
  end.

(** [json.loads(s)]: [JSONDecodeError] for text that is no JSON value, and
    what [int] or the interpreter raised underneath the decoder. *)
Definition loads (s : str) : result pyval :=
  match scan_once (2 * length s + 2) (2 + nesting_headroom w) (skip_whitespace s) with
  | Parsed v rest =>
      match skip_whitespace rest with
      | [] => Ok v
      | _ :: _ => Raise JSONDecodeError              (* extra data *)
      end
  | Malformed => Raise JSONDecodeError
  | Failed e => Raise e
  | Starved => Raise JSONDecodeError
  end.
End Decoder.

(* ===================================================================== *)
(** ** The [result] monad *)
(* ===================================================================== *)

#[global] Instance result_ret : MRet result := fun A a => Ok a.
#[global] Instance result_bind : MBind result := fun A B f m => rbind m f.

(** [try: body  except Exception: handler] *)
Definition try_except {A} (body : result A) (handler : exn -> result A) : result A :=
  match body with
  | Ok a => Ok a
  | Raise e => handler e
  end.

(** A loop that runs [f] on every element in turn and stops at the first
    exception. *)
Fixpoint for_each {A B} (f : A -> result B) (l : list A) : result (list B) :=
  match l with
  | [] => Ok []
  | x :: l' => y ← f x; ys ← for_each f l'; Ok (y :: ys)
  end.

(* ===================================================================== *)
(** ** [data_models.ContentItem] *)
(* ===================================================================== *)

Record ContentItem : Type := {
  title : pyval;
  type : pyval;
  description : pyval;
  source : pyval;
  relevance : pyval;
  url : pyval;
  timestamp : pyval;
  validation : pyval
}.

Definition ContentItem_fields : list str :=
  [py "title"; py "type"; py "description"; py "source"; py "relevance";
   py "url"; py "timestamp"; py "validation"].

Definition ContentItem_required : list str :=
  [py "title"; py "type"; py "description"; py "source"; py "relevance"].

Definition str_in (k : str) (l : list str) : bool := existsb (str_eqb k) l.

(** [ContentItem] called with the keywords [kwargs]: the generated [__init__] refuses a keyword that
    is no field and a missing field without default, checks no types, and
    [__post_init__] stamps an item that has no timestamp. *)
Definition ContentItem_init (w : World) (kwargs : dict) : result ContentItem :=
  if existsb (fun kv => negb (str_in (fst kv) ContentItem_fields)) kwargs
  then Raise TypeError
  else if existsb (fun k => match dict_lookup kwargs k with None => true | Some _ => false end)
            ContentItem_required
  then Raise TypeError
  else Ok {|
    title := dict_get kwargs (py "title") PNone;
    type := dict_get kwargs (py "type") PNone;
    description := dict_get kwargs (py "description") PNone;
    source := dict_get kwargs (py "source") PNone;
    relevance := dict_get kwargs (py "relevance") PNone;
    url := dict_get kwargs (py "url") PNone;
    timestamp :=
      match dict_get kwargs (py "timestamp") PNone with
      | PNone => PStr (clock w)
      | t => t
      end;
    validation := dict_get kwargs (py "validation") PNone
  |}.

(** [ContentItem] called with the entries of [item] as keywords, for a
    value of unknown type: what is no mapping cannot be unpacked. *)
Definition ContentItem_of (w : World) (item : pyval) : result ContentItem :=
  match item with
  | PDict d => ContentItem_init w d
  | _ => Raise TypeError
  end.

(** The dictionary [filtered_item] the streaming endpoints build from a raw
    item (four copies in [backend.py], which differ in the order of two
    keys only). *)
Definition filtered_item (w : World) (item : pyval) : result dict :=
  v_title ← py_get item (py "title") (PStr []);
  v_type ← py_get item (py "type") (PStr []);
  raw_description ← py_get item (py "description") (PStr []);
  v_description ← clean_metadata_from_value w raw_description;
  v_source ← py_get item (py "source") (PStr []);
  v_relevance ← py_get item (py "relevance") (PStr []);
  v_url ← py_get item (py "url") (PStr []);
  v_validation ← py_get item (py "validation") PNone;
  Ok [(py "title", v_title); (py "type", v_type); (py "description", v_description);
      (py "source", v_source); (py "relevance", v_relevance); (py "url", v_url);
      (py "validation", v_validation)].

(** One round of the loop "Convert to ContentItem objects". *)
Definition convert_item (w : World) (item : pyval) : result ContentItem :=
  kwargs ← filtered_item w item;
  ContentItem_init w kwargs.

Definition convert_to_content_items (w : World) (validated_data : pyval)
  : result (list ContentItem) :=
  items ← py_iter validated_data;
  for_each (convert_item w) items.

(* ===================================================================== *)
(** ** Thread pools *)
(* ===================================================================== *)

(** [ThreadPoolExecutor(max_workers=n)]: the width of the pool, or the
    [ValueError] the constructor raises when [n <= 0]. *)
Definition ThreadPoolExecutor (max_workers : Z) : result Z :=
  if max_workers <=? 0 then Raise ValueError else Ok max_workers.

Definition insert_at {A} (i : nat) (x : A) (l : list A) : list A :=
  take i l ++ x :: drop i l.

(** [as_completed]: the futures in the order they finish.  The order is the
    environment's: each future is put at a place picked by the next number
    of [order], so every order of completion is one of some world. *)
Fixpoint as_completed {A} (order : list nat) (futures : list A) : list A :=
  match futures with
  | [] => []
  | f :: fs =>
      insert_at (hd O order `mod` S (length fs)) f (as_completed (tl order) fs)
  end.

(* ===================================================================== *)
(** ** [content_validator.ContentValidator] *)
(* ===================================================================== *)

Inductive validation_error : Type :=
| InvalidURLFormat
| ValidationError (e : exn)
| NoVideoId
| VideoNotFound
| VideoInaccessible (status : Z)
| VideoTimeout
| VideoFailed (e : exn)
| NotAPodcast
| PodcastNotAccessible (status : Z)
| PodcastTimeout
| PodcastFailed (e : exn)
| URLTimeout
| URLFailed (e : exn).

Record validation_result : Type := {
  vr_url : pyval;
  is_valid : bool;
  status_code : option Z;
  error : option validation_error;
  content_type_detected : option str;
  title_verified : bool
}.

Definition with_error (r : validation_result) (e : validation_error) : validation_result :=
  {| vr_url := vr_url r; is_valid := is_valid r; status_code := status_code r;
     error := Some e; content_type_detected := content_type_detected r;
     title_verified := title_verified r |}.

Definition with_status (r : validation_result) (code : Z) : validation_result :=
  {| vr_url := vr_url r; is_valid := is_valid r; status_code := Some code;
     error := error r; content_type_detected := content_type_detected r;
     title_verified := title_verified r |}.

Definition with_valid (r : validation_result) (b : bool) : validation_result :=
  {| vr_url := vr_url r; is_valid := b; status_code := status_code r;
     error := error r; content_type_detected := content_type_detected r;
     title_verified := title_verified r |}.

Definition with_detected (r : validation_result) (t : str) : validation_result :=
  {| vr_url := vr_url r; is_valid := is_valid r; status_code := status_code r;
     error := error r; content_type_detected := Some t;
     title_verified := title_verified r |}.

Definition with_title_verified (r : validation_result) : validation_result :=
  {| vr_url := vr_url r; is_valid := is_valid r; status_code := status_code r;
     error := error r; content_type_detected := content_type_detected r;
     title_verified := true |}.

Definition is_alnum_dash (c : char) : bool :=
  between 97 122 c || between 65 90 c || between 48 57 c || N.eqb c 95 || N.eqb c 45.

(** [r'(?:youtube\.com/watch\?v=|youtu\.be/)([a-zA-Z0-9_-]+)'] *)
Definition video_id_pattern : regex :=
  Seq (Alt (Lit (py "youtube.com/watch?v=")) (Lit (py "youtu.be/")))
    (Plus (Cls is_alnum_dash)).

(** [r'<title>([^<]+)</title>'] *)
Definition title_pattern : regex :=
  Seq (Lit (py "<title>"))
    (Seq (Plus (Cls (fun c => negb (N.eqb c 60)))) (Lit (py "</title>"))).

(** [group(1)] of a match of [title_pattern]: the match without the two
    tags. *)
Definition title_group (m : str) : str :=
  take (length m - 15) (drop 7 m).

Definition podcast_platforms : list str :=
  [py "spotify.com"; py "apple.com/podcasts"; py "podcasts.apple.com";
   py "anchor.fm"; py "soundcloud.com"].

Section Validator.
Variable w : World.

Definition session_head (u : str) : result response :=
  http w {| req_method := HEAD; req_url := u; req_custom_agent := false |}.
Definition session_get (u : str) : result response :=
  http w {| req_method := GET; req_url := u; req_custom_agent := false |}.

Definition _validate_youtube_video (u : str) (r : validation_result)
  : result validation_result :=
  match re_search video_id_pattern u with
  | None => Ok (with_error r NoVideoId)
  | Some _ =>
      match session_head u with
      | Ok resp =>
          let code := resp_status_code resp in
          let r := with_status r code in
          if code =? 200 then
            let r := with_detected (with_valid r true) (py "video") in
            (* the title check is optional: whatever it raises is dropped *)
            match session_get u with
            | Ok page =>
                if resp_status_code page =? 200 then
                  match re_search title_pattern (resp_text page) with
                  | Some m =>
                      if negb (str_contains (py "YouTube") (title_group m))
                      then Ok (with_title_verified r) else Ok r
                  | None => Ok r
                  end
                else Ok r
            | Raise _ => Ok r
            end
          else if (code =? 404) || (code =? 410) then Ok (with_error r VideoNotFound)
          else Ok (with_error r (VideoInaccessible code))
      | Raise e =>
          if is_requests_Timeout e then Ok (with_error r VideoTimeout)
          else if is_RequestException e then Ok (with_error r (VideoFailed e))
          else Raise e
      end
  end.

Definition _validate_podcast (u : str) (r : validation_result)
  : result validation_result :=
  match session_head u with
  | Ok resp =>
      let code := resp_status_code resp in
      let r := with_status r code in
      if code =? 200 then
        let content_type :=
          str_lower w (match resp_content_type resp with Some t => t | None => [] end) in
        if existsb (fun platform => str_contains platform (str_lower w u)) podcast_platforms
           || str_contains (py "audio/") content_type
        then Ok (with_detected (with_valid r true) (py "podcast"))
        else Ok (with_error r NotAPodcast)
      else Ok (with_error r (PodcastNotAccessible code))
  | Raise e =>
      if is_requests_Timeout e then Ok (with_error r PodcastTimeout)
      else if is_RequestException e then Ok (with_error r (PodcastFailed e))
      else Raise e
  end.

(** HEAD first, and GET when HEAD fails with a [RequestException]. *)
Definition general_request (u : str) : result response :=
  match http w {| req_method := HEAD; req_url := u; req_custom_agent := true |} with
  | Ok resp => Ok resp
  | Raise e =>
      if is_RequestException e
      then http w {| req_method := GET; req_url := u; req_custom_agent := true |}
      else Raise e
  end.

Definition _validate_general_url (u : str) (r : validation_result)
  : result validation_result :=
  match general_request u with
  | Ok resp =>
      let code := resp_status_code resp in
      let r := with_status r code in
      Ok (with_valid r ((code =? 200) || (code =? 403)))
  | Raise e =>
      if is_requests_Timeout e then Ok (with_error r URLTimeout)
      else if is_RequestException e then Ok (with_error r (URLFailed e))
      else Raise e
  end.

(** [urlparse(url)] for a value of unknown type: what is not a string is
    decoded as bytes, which gives empty components for a falsy value and
    fails for any other. *)
Definition urlparse_value (v : pyval) : result (str * str) :=
  match v with
  | PStr s => urlparse w s
  | _ => if truthy w v then Raise AttributeError else Ok ([], [])
  end.

Definition is_the_string (v : pyval) (s : str) : bool :=
  match v with
  | PStr x => str_eqb x s
  | _ => false
  end.

Definition validate_url (u : pyval) (content_type : pyval) : validation_result :=
  let validation_result :=
    {| vr_url := u; is_valid := false; status_code := None; error := None;
       content_type_detected := None; title_verified := false |} in
  let body :=
    parsed ← urlparse_value u;
    let '(scheme, netloc) := parsed in
    match scheme, netloc, u with
    | _ :: _, _ :: _, PStr s =>
        if is_the_string content_type (py "video") && str_contains (py "youtube.com") netloc
        then _validate_youtube_video s validation_result
        else if is_the_string content_type (py "video") && str_contains (py "youtu.be") netloc
        then _validate_youtube_video s validation_result
        else if is_the_string content_type (py "podcast")
        then _validate_podcast s validation_result
        else _validate_general_url s validation_result
    | _, _, _ => Ok (with_error validation_result InvalidURLFormat)
    end in
  match body with
  | Ok r => r
  | Raise e => with_error validation_result (ValidationError e)
  end.

Definition option_value {A} (f : A -> pyval) (o : option A) : pyval :=
  match o with
  | Some a => f a
  | None => PNone
  end.

(** The closure [validate_single_item]: the item with its validation
    record, or [None] for an item that is dropped.  The handler formats
    its message with [item.get], which raises again when the item is no
    dict. *)
Definition validate_single_item (item : pyval) : result (option pyval) :=
  try_except
    (u ← py_get item (py "url") (PStr []);
     content_type ← py_get item (py "type") (PStr []);
     let validation_result := validate_url u content_type in
     if is_valid validation_result then
       item' ← py_setitem item (py "validation")
                 (PDict [(py "validated_at", PStr (clock w));
                         (py "status_code", option_value PInt (status_code validation_result));
                         (py "content_type_verified",
                           option_value PStr (content_type_detected validation_result))]);
       Ok (Some item')
     else
       _ ← py_get item (py "title") (PStr (py "Unknown"));
       Ok None)
    (fun e => _ ← py_get item (py "title") (PStr (py "Unknown")); Ok None).

(** The futures [as_completed] hands over before the deadline, and whether
    it then raises. *)
Definition delivered {A} (futures : list A) : list A * bool :=
  let ordered := as_completed (completion_order w) futures in
  match batch_deadline w with
  | None => (ordered, false)
  | Some k => (take k ordered, (k <? length ordered)%nat)
  end.

(** The loop over the finished futures: a valid item is kept, a failed
    future is reported with the title of its item. *)
Fixpoint collect_valid (valid_items : list pyval)
    (futures : list (result (option pyval) * pyval)) : result (list pyval) :=
  match futures with
  | [] => Ok valid_items
  | (future, item) :: rest =>
      match future with
      | Ok (Some r) => collect_valid (valid_items ++ [r]) rest
      | Ok None => collect_valid valid_items rest
      | Raise e =>
          _ ← py_get item (py "title") (PStr (py "Unknown"));
          collect_valid valid_items rest
      end
  end.

Definition validate_content_batch (content_items : pyval) : result pyval :=
  items ← py_iter content_items;
  let future_to_item := List.map (fun item => (validate_single_item item, item)) items in
  let '(finished, timed_out) := delivered future_to_item in
  valid_items ← collect_valid [] finished;
  if timed_out then Raise FuturesTimeoutError else Ok (PList valid_items).
End Validator.

(* ===================================================================== *)
(** ** [gemini_service.GeminiContentService] *)
(* ===================================================================== *)

(** An attribute that may be missing, be [None], or hold a value. *)
Inductive attr (A : Type) : Type :=
| Missing
| IsNone
| Has (a : A).
Arguments Missing {A}.
Arguments IsNone {A}.
Arguments Has {A} a.

(** What [get_chat_history] reads of a chat session of the SDK. *)
Record history_part : Type := { hp_text : attr str }.
Record history_message : Type := {
  msg_role : option str;                       (* None: no such attribute *)
  msg_parts : option (list history_part)       (* None: no such attribute *)
}.
Record chat : Type := {
  get_history : result (list history_message)
}.

#[global] Instance str_eq_dec : EqDecision str := list_eq_dec.
#[global] Instance str_countable : Countable str := list_countable.

Record GeminiContentService : Type := {
  api_key : pyval;
  active_chats : gmap str chat
}.

(** [set_api_key]: the key is stored before the client is built. *)
Definition set_api_key (w : World) (svc : GeminiContentService) (key : pyval)
  : result GeminiContentService :=
  let svc := {| api_key := key; active_chats := active_chats svc |} in
  _ ← client_init w key;
  Ok svc.

Definition _get_mock_results : pyval :=
  PList [PDict [
    (py "title", PStr (py "Attention Is All You Need - Transformer Paper"));
    (py "type", PStr (py "academic"));
    (py "description", PStr (py "The groundbreaking paper that introduced the Transformer architecture, revolutionizing natural language processing."));
    (py "source", PStr (py "arXiv"));
    (py "url", PStr (py "https://arxiv.org/abs/1706.03762"));
    (py "relevance", PStr (py "Foundational research in modern AI"))]].

(** *** Chunks of the model stream *)

Record part : Type := {
  part_text : option str;        (* None: no text attribute, or None *)
  part_thought : bool            (* false: no thought attribute, or falsy *)
}.
Record content : Type := { parts : list part }.
Record candidate : Type := { cand_content : option content }.
Record chunk : Type := {
  candidates : list candidate;   (* []: no such attribute, None or empty *)
  chunk_text : option str        (* None: no text attribute, or None *)
}.

(** The class [MockChunk] of [_create_mock_streaming_response] *)
Definition MockChunk (text : str) (thinking_text : option str) : chunk :=
  let parts :=
    match thinking_text with
    | Some (c :: t) => [{| part_text := Some (c :: t); part_thought := true |}]
    | _ => []
    end ++
    match text with
    | _ :: _ => [{| part_text := Some text; part_thought := false |}]
    | [] => []
    end in
  {| candidates := [{| cand_content := Some {| parts := parts |} |}];
     chunk_text := Some text |}.

Definition mock_thinking_chunks : list str :=
  [py "I need to search for relevant AI content based on the user's query.";
   py "Let me analyze what would be most valuable and current in the AI space.";
   py "I'll look for recent developments and foundational papers that would be helpful.";
   py "Now I'll compile the search results into a structured JSON format."].

Definition mock_results_text : str :=
  pyq "[" ++ [newline] ++
  pyq "            {" ++ [newline] ++
  pyq "                'title': 'Attention Is All You Need - Transformer Paper'," ++ [newline] ++
  pyq "                'type': 'academic', " ++ [newline] ++
  pyq "                'description': 'The groundbreaking paper that introduced the Transformer architecture, revolutionizing natural language processing.'," ++ [newline] ++
  pyq "                'source': 'arXiv'," ++ [newline] ++
  pyq "                'relevance': 'Foundational research in modern AI'" ++ [newline] ++
  pyq "            }" ++ [newline] ++
  pyq "        ]".

Definition _create_mock_streaming_response : list chunk :=
  List.map (fun thinking_text => MockChunk [] (Some thinking_text)) mock_thinking_chunks
  ++ [MockChunk mock_results_text None].

(** The model stream as the SDK delivers it: some chunks, and then either
    the end of the stream or an exception (which is also how a call that
    fails at once looks: no chunk, then the exception). *)
Record api_stream : Type := {
  api_chunks : list chunk;
  api_failure : option exn
}.

(** [_call_gemini_api_for_results_streaming]: the chunks of the model, with
    the mock response after them when the model fails; the mock response
    alone without a key. *)
Definition _call_gemini_api_for_results_streaming (w : World)
    (svc : GeminiContentService) (api : api_stream) : list chunk :=
  if negb (truthy w (api_key svc)) then _create_mock_streaming_response
  else api_chunks api ++
       match api_failure api with
       | Some _ => _create_mock_streaming_response
       | None => []
       end.

Definition search_content_streaming (w : World) (svc : GeminiContentService)
    (api : api_stream) : list chunk :=
  _call_gemini_api_for_results_streaming w svc api.

Definition get_recommendations_streaming (w : World) (svc : GeminiContentService)
    (api : api_stream) : list chunk :=
  _call_gemini_api_for_results_streaming w svc api.

(** *** Links by title *)

(** The dictionary of links: keys are titles, of any hashable type. *)
Definition links_dict := list (pyval * list pyval).

Definition hashable (k : pyval) : bool :=
  match k with
  | PList _ | PDict _ => false
  | _ => true
  end.

Definition same_key (w : World) (a b : pyval) : bool :=
  match a, b with
  | PStr x, PStr y => str_eqb x y
  | _, _ => key_eqb w a b
  end.

Fixpoint links_find (w : World) (links : links_dict) (k : pyval) : option (list pyval) :=
  match links with
  | [] => None
  | (k', v) :: rest => if same_key w k' k then Some v else links_find w rest k
  end.

Fixpoint links_put (w : World) (links : links_dict) (k : pyval) (v : list pyval)
  : links_dict :=
  match links with
  | [] => [(k, v)]
  | (k', v') :: rest =>
      if same_key w k' k then (k', v) :: rest else (k', v') :: links_put w rest k v
  end.

(** [links[k] = v] *)
Definition links_set (w : World) (links : links_dict) (k : pyval) (v : list pyval)
  : result links_dict :=
  if hashable k then Ok (links_put w links k v) else Raise TypeError.

(** [links.get(k)], which hashes the key first *)
Definition links_get (w : World) (links : links_dict) (k : pyval)
  : result (option (list pyval)) :=
  if hashable k then Ok (links_find w links k) else Raise TypeError.

Section Links.
Variable w : World.
Variable svc : GeminiContentService.

(** [_call_gemini_api_for_url], as the item at position [call] of the list
    calls it: the reply of the model, or the mock results (a list, not a
    reply) when the call fails. *)
Definition _call_gemini_api_for_url (call : nat) (v_title v_source : str)
  : result (url_response + pyval) :=
  if negb (truthy w (api_key svc)) then Raise ValueError
  else match generate_content_for_url w call v_title v_source with
       | Ok r => Ok (inl r)
       | Raise _ => Ok (inr _get_mock_results)
       end.

(** [f"https://google.com/search?q={title} {source}"] *)
Definition search_link (v_title v_source : pyval) : pyval :=
  PStr (py "https://google.com/search?q=" ++ format w v_title ++ py " " ++ format w v_source).

(** [grounding_chunk.web.uri] for every grounding chunk *)
Definition chunk_uri (g : grounding_chunk) : result pyval :=
  match web g with
  | Some r => Ok (uri r)
  | None => Raise AttributeError
  end.

(** The closure [process_single_item], submitted for the item at position
    [call] of the list *)
Definition process_single_item (call : nat) (item : pyval) : result (pyval * list pyval) :=
  content_item ← ContentItem_of w item;
  let v_title := title content_item in
  let v_source := source content_item in
  reply ← _call_gemini_api_for_url call (format w v_title) (format w v_source);
  match reply with
  | inr _ => Raise AttributeError                      (* a list has no text *)
  | inl r =>
      match url_candidates r with
      | None => Raise TypeError
      | Some [] => Raise IndexError
      | Some (first :: _) =>
          match grounding_metadata first with
          | None => Raise AttributeError
          | Some meta =>
              match grounding_chunks meta with
              | None | Some [] => Ok (v_title, [search_link v_title v_source])
              | Some gs =>
                  links ← for_each chunk_uri gs;
                  Ok (v_title, links)
              end
          end
      end
  end.

(** The loop over the finished futures: the links of a future that
    succeeded, the search link for one that raised. *)
Fixpoint collect_links (links : links_dict)
    (futures : list (result (pyval * list pyval) * pyval)) : result links_dict :=
  match futures with
  | [] => Ok links
  | (future, item) :: rest =>
      links' ←
        try_except
          (r ← future;
           links_set w links (fst r) (snd r))
          (fun exc =>
             content_item ← ContentItem_of w item;
             links_set w links (title content_item)
               [search_link (title content_item) (source content_item)]);
      collect_links links' rest
  end.

Definition generate_links_by_title_parallel (content_items : pyval) : result links_dict :=
  n ← py_len content_items;
  executor ← ThreadPoolExecutor (Z.min (Z.of_nat n) 10);
  items ← py_iter content_items;
  let future_to_item := imap (fun call item => (process_single_item call item, item)) items in
  collect_links [] (as_completed (completion_order w) future_to_item).
End Links.

(** *** Chat sessions *)

(** [clear_chat_session] *)
Definition clear_chat_session (svc : GeminiContentService) (chat_id : str)
  : GeminiContentService :=
  match active_chats svc !! chat_id with
  | Some _ => {| api_key := api_key svc; active_chats := delete chat_id (active_chats svc) |}
  | None => svc
  end.

(** [clear_all_chat_sessions] *)
Definition clear_all_chat_sessions (svc : GeminiContentService) : GeminiContentService :=
  {| api_key := api_key svc; active_chats := ∅ |}.

Record history_entry : Type := {
  entry_role : str;
  entry_content : str
}.

(** [''.join([part.text for part in message.parts if hasattr(part, 'text')])]:
    a part whose text is [None] makes [join] raise. *)
Fixpoint join_part_texts (ps : list history_part) : result str :=
  match ps with
  | [] => Ok []
  | p :: ps' =>
      match hp_text p with
      | Missing => join_part_texts ps'
      | IsNone => Raise TypeError
      | Has t => rest ← join_part_texts ps'; Ok (t ++ rest)
      end
  end.

Section History.
Variable w : World.

(** One round of the loop over the history: the entries so far, with the
    one of [message] when it has a role of the conversation and text that
    is not part of the setup. *)
Definition format_message (formatted_history : list history_entry)
    (message : history_message) : result (list history_entry) :=
  match msg_role message, msg_parts message with
  | Some role, Some message_parts =>
      if str_eqb role (py "user") || str_eqb role (py "model") then
        v_content ←
          match message_parts with
          | [] => Ok []
          | _ => join_part_texts message_parts
          end;
        let frontend_role := if str_eqb role (py "model") then py "assistant" else role in
        if match strip w v_content with [] => false | _ => true end
           && negb (startswith (py "Please act according to these instructions") v_content)
           && negb (startswith (py "We are discussing this specific article:") v_content)
        then Ok (formatted_history ++
                 [{| entry_role := frontend_role; entry_content := strip w v_content |}])
        else Ok formatted_history
      else Ok formatted_history
  | _, _ => Ok formatted_history
  end.

Fixpoint format_history (formatted_history : list history_entry)
    (history : list history_message) : result (list history_entry) :=
  match history with
  | [] => Ok formatted_history
  | message :: rest =>
      formatted_history' ← format_message formatted_history message;
      format_history formatted_history' rest
  end.

(** [get_chat_history] *)
Definition get_chat_history (svc : GeminiContentService) (chat_id : str)
  : list history_entry :=
  match active_chats svc !! chat_id with
  | Some session =>
      match (history ← get_history session; format_history [] history) with
      | Ok formatted_history => formatted_history
      | Raise _ => []
      end
  | None => []
  end.
End History.

(* ===================================================================== *)
(** ** Generators *)
(* ===================================================================== *)

(** The events of the stream ([type] and [content] of the JSON object sent
    to the client).  An [error] event carries [str(e)]; the exception stands
    for its message. *)
Inductive event : Type :=
| EvThought (content : str)
| EvParsingComplete (content : nat)
| EvResults (content : list ContentItem)
| EvComplete
| EvError (content : exn).

(** What a generator does, in order. *)
Inductive action : Type :=
| Pull (c : chunk)           (* the [for] loop takes the next chunk of the model stream *)
| Yield (e : event).         (* [yield] of one event to the client *)

Definition gen (A : Type) : Type := (list action * result A)%type.

#[global] Instance gen_ret : MRet gen := fun A a => ([], Ok a).
#[global] Instance gen_bind : MBind gen := fun A B f m =>
  match m with
  | (done, Ok a) => let '(more, r) := f a in (done ++ more, r)
  | (done, Raise e) => (done, Raise e)
  end.

Definition yield (e : event) : gen unit := ([Yield e], Ok tt).
Definition pull (c : chunk) : gen unit := ([Pull c], Ok tt).
Definition lift {A} (r : result A) : gen A := ([], r).

(** [try: body  except <classes>: handler]: what the body did before it
    raised stays done. *)
Definition gen_try {A} (body : gen A) (caught : exn -> bool) (handler : exn -> gen A)
  : gen A :=
  match body with
  | (done, Ok a) => (done, Ok a)
  | (done, Raise e) =>
      if caught e then let '(more, r) := handler e in (done ++ more, r)
      else (done, Raise e)
  end.

Definition any_Exception (e : exn) : bool := true.

(** The trace of a generator that has run to its end; an exception that
    leaves it ends the stream. *)
Definition trace_of {A} (g : gen A) : list action := fst g.

Definition events_of (t : list action) : list event :=
  omap (fun a => match a with Yield e => Some e | Pull _ => None end) t.

Definition pulled (t : list action) : list chunk :=
  omap (fun a => match a with Pull c => Some c | Yield _ => None end) t.

(* ===================================================================== *)
(** ** The streaming endpoints of [backend.py] *)
(* ===================================================================== *)

Definition truthy_text (t : option str) : bool :=
  match t with
  | Some (_ :: _) => true
  | _ => false
  end.

Definition text_or_empty (t : option str) : str :=
  match t with
  | Some s => s
  | None => []
  end.

(** The texts of the parts that have text, thoughts and answers apart. *)
Definition part_texts (thought : bool) (ps : list part) : list str :=
  omap (fun p =>
          if truthy_text (part_text p) && Bool.eqb (part_thought p) thought
          then part_text p else None) ps.

(** The head of the loop body: [thinking_text] and [content_text] of a
    chunk. *)
Definition classify (c : chunk) : option str * option str :=
  let '(thinking_text, content_text) :=
    match candidates c with
    | first :: _ =>
        match cand_content first with
        | Some cont =>
            match parts cont with
            | [] => (None, None)
            | ps =>
                let thinking_parts := part_texts true ps in
                let text_parts := part_texts false ps in
                (match thinking_parts with [] => None | _ => Some (join thinking_parts) end,
                 match text_parts with [] => None | _ => Some (join text_parts) end)
            end
        | None => (None, None)
        end
    | [] => (None, None)
    end in
  let content_text :=
    if negb (truthy_text content_text)
    then match chunk_text c with
         | Some t => Some t           (* hasattr(chunk, 'text') *)
         | None => content_text
         end
    else content_text in
  (thinking_text, content_text).

(** "Send thinking content if available" *)
Definition send_thinking (thinking_text : option str) : gen unit :=
  if truthy_text thinking_text then yield (EvThought (text_or_empty thinking_text))
  else mret tt.

(** [re.search(r'\[[\s\S]*\]', accumulated_content)], and [json.loads] of the
    match when there is one and no results were sent: the parsed value, or
    [None] when nothing is attempted. *)
Definition parse_accumulated (w : World) (accumulated_content : str) (results_sent : bool)
  : result (option pyval) :=
  match re_search (json_array_pattern w) accumulated_content with
  | Some json_match =>
      if negb results_sent
      then results_data ← loads w json_match; Ok (Some results_data)
      else Ok None
  | None => Ok None
  end.

(** "If no results were sent (maybe API failed), send mock results" *)
Definition send_mock_results (w : World) : gen unit :=
  results ← lift (convert_to_content_items w _get_mock_results);
  yield (EvResults results).

Definition or_mock_results (w : World) (validated_data results_data : pyval) : pyval :=
  if negb (truthy w validated_data) && truthy w results_data
  then _get_mock_results else validated_data.

Section Search.
Variable w : World.
Variable svc : GeminiContentService.

Definition initial_thought_search (query : str) : str :=
  py "Analyzing your query " ++ [dquote] ++ query ++ [dquote] ++
  py " to find the most relevant and current content...".

(** The [try] block of the loop body of [generate_stream]: [true] when it
    ends in [break]. *)
Definition try_send_results (accumulated_content : str) (results_sent : bool) : gen bool :=
  parsed ← lift (parse_accumulated w accumulated_content results_sent);
  match parsed with
  | Some results_data =>
      n ← lift (py_len results_data);
      _ ← yield (EvParsingComplete n);
      validated_data ← lift (validate_content_batch w results_data);
      let validated_data := or_mock_results w validated_data results_data in
      results ← lift (convert_to_content_items w validated_data);
      _ ← yield (EvResults results);
      mret true
  | None => mret false
  end.

(** The [for] loop of [generate_stream] over the chunks that are left:
    [accumulated_content] and [results_sent] when it is over. *)
Fixpoint search_loop (accumulated_content : str) (results_sent : bool)
    (chunks : list chunk) : gen (str * bool) :=
  match chunks with
  | [] => mret (accumulated_content, results_sent)
  | c :: rest =>
      _ ← pull c;
      let '(thinking_text, content_text) := classify c in
      _ ← send_thinking thinking_text;
      if truthy_text content_text then
        let accumulated_content := accumulated_content ++ text_or_empty content_text in
        broke ← gen_try (try_send_results accumulated_content results_sent)
                  is_JSONDecodeError_or_KeyError
                  (fun _ => mret false);                          (* continue *)
        if broke : bool then mret (accumulated_content, true)     (* break *)
        else search_loop accumulated_content results_sent rest
      else search_loop accumulated_content results_sent rest
  end.

(** The body of [generate_stream] inside its [try]. *)
Definition generate_stream_body (query : str) (key : pyval) (api : api_stream) : gen unit :=
  svc' ← lift (set_api_key w svc key);
  _ ← yield (EvThought (initial_thought_search query));
  st ← search_loop [] false (search_content_streaming w svc' api);
  _ ← (if negb (snd st) then send_mock_results w else mret tt);
  yield EvComplete.

(** [generate_stream] of [/api/search/stream] *)
Definition generate_stream (query : str) (key : pyval) (api : api_stream) : list action :=
  trace_of (gen_try (generate_stream_body query key api) any_Exception
              (fun e => yield (EvError e))).
End Search.

Section Recommendations.
Variable w : World.
Variable svc : GeminiContentService.

Definition initial_thought_recommendations : str :=
  py "Analyzing current AI trends and developments to provide you with the most relevant recommendations...".

(** The [for] loop of [generate_stream_attempt]: every chunk is taken, its
    thinking sent and its answer text appended. *)
Fixpoint accumulate_loop (accumulated_content : str) (chunks : list chunk) : gen str :=
  match chunks with
  | [] => mret accumulated_content
  | c :: rest =>
      _ ← pull c;
      let '(thinking_text, content_text) := classify c in
      _ ← send_thinking thinking_text;
      if truthy_text content_text
      then accumulate_loop (accumulated_content ++ text_or_empty content_text) rest
      else accumulate_loop accumulated_content rest
  end.

(** [f"https://www.google.com/search?q={item['title']}+{item['source']}"] *)
Definition search_url (item : pyval) : result pyval :=
  v_title ← py_getitem item (py "title");
  v_source ← py_getitem item (py "source");
  Ok (PStr (py "https://www.google.com/search?q=" ++ format w v_title ++ py "+" ++
            format w v_source)).

(** One round of the loop that gives every item its link. *)
Definition set_item_url (links : links_dict) (item : pyval) : result pyval :=
  v_title ← py_getitem item (py "title");
  found ← links_get w links v_title;
  match found with
  | Some (first :: _) => py_setitem item (py "url") first
  | _ => u ← search_url item; py_setitem item (py "url") u
  end.

(** The inner [try] of [generate_stream_attempt]: [true] when the results
    were sent. *)
Definition try_send_recommendations (svc' : GeminiContentService)
    (accumulated_content : str) (results_sent : bool) : gen bool :=
  parsed ← lift (parse_accumulated w accumulated_content results_sent);
  match parsed with
  | Some results_data =>
      n ← lift (py_len results_data);
      _ ← yield (EvParsingComplete n);
      links ← lift (generate_links_by_title_parallel w svc' results_data);
      items ← lift (py_iter results_data);
      items' ← lift (for_each (set_item_url links) items);
      (* validated_data and results_data are one list, updated in place *)
      let validated_data := PList items' in
      let validated_data := or_mock_results w validated_data validated_data in
      results ← lift (convert_to_content_items w validated_data);
      _ ← yield (EvResults results);
      mret true
  | None => mret results_sent
  end.

(** The [try] around the model stream: the loop, the [print] of the last
    [content_text] (a name that is unbound when there was no chunk), and
    the parse. *)
Definition stream_recommendations (svc' : GeminiContentService) (api : api_stream)
  : gen bool :=
  let chunks := get_recommendations_streaming w svc' api in
  accumulated_content ← accumulate_loop [] chunks;
  _ ← lift (match chunks with [] => Raise UnboundLocalError | _ => Ok tt end);
  gen_try (try_send_recommendations svc' accumulated_content false)
    is_JSONDecodeError_or_KeyError
    (fun _ => mret false).

Definition generate_stream_attempt_body (key : pyval) (api : api_stream) : gen unit :=
  svc' ← lift (set_api_key w svc key);
  _ ← yield (EvThought initial_thought_recommendations);
  results_sent ← gen_try (stream_recommendations svc' api) any_Exception
                   (fun api_error => mret false);
  _ ← (if negb results_sent then send_mock_results w else mret tt);
  yield EvComplete.

(** [generate_stream_attempt] of [/api/recommendations/stream] *)
Definition generate_stream_attempt (key : pyval) (api : api_stream) : list action :=
  trace_of (gen_try (generate_stream_attempt_body key api) any_Exception
              (fun e => yield (EvError e))).
End Recommendations.

(* ===================================================================== *)
(** ** Vocabulary of the specification *)
(* ===================================================================== *)

Definition is_results (e : event) : bool :=
  match e with
  | EvResults _ => true
  | _ => false
  end.

(** The terminal events of the search and recommendation streams. *)
Definition is_terminal (e : event) : bool :=
  match e with
  | EvComplete | EvError _ => true
  | _ => false
  end.

Definition count_results (evs : list event) : nat :=
  length (List.filter is_results evs).

(** One terminal event, and it is the last event. *)
Definition terminated (evs : list event) : Prop :=
  exists before t,
    evs = before ++ [t] /\ is_terminal t = true /\
    Forall (fun e => is_terminal e = false) before.

(** "exactly one results event, followed by exactly one terminal event, and
    nothing after it" *)
Definition one_results_then_terminal (evs : list event) : Prop :=
  count_results evs = 1%nat /\ terminated evs.

Inductive mode : Type :=
| SearchMode (query : str)
| RecommendationMode.

(** One streaming request. *)
Definition stream_request (w : World) (svc : GeminiContentService) (m : mode)
    (key : pyval) (api : api_stream) : list action :=
  match m with
  | SearchMode query => generate_stream w svc query key api
  | RecommendationMode => generate_stream_attempt w svc key api
  end.

(** The service once the request has stored its key. *)
Definition with_key (svc : GeminiContentService) (key : pyval) : GeminiContentService :=
  {| api_key := key; active_chats := active_chats svc |}.

(** The answer text a chunk adds to [accumulated_content]. *)
Definition answer_text (c : chunk) : str :=
  let content_text := snd (classify c) in
  if truthy_text content_text then text_or_empty content_text else [].

(** [accumulated_content] after the first [k] chunks. *)
Definition accumulated_after (k : nat) (chunks : list chunk) : str :=
  join (List.map answer_text (take k chunks)).

(** A complete JSON array can be extracted once chunk number [k] (from 0)
    has arrived... *)
Definition parses_at (w : World) (chunks : list chunk) (k : nat) (data : pyval) : Prop :=
  (k < length chunks)%nat /\
  parse_accumulated w (accumulated_after (S k) chunks) false = Ok (Some data).

(** ... and not before. *)
Definition first_parse_at (w : World) (chunks : list chunk) (k : nat) (data : pyval) : Prop :=
  parses_at w chunks k data /\
  forall j d, (j < k)%nat -> ~ parses_at w chunks j d.

(** A chunk that carries answer text only. *)
Definition answer_chunk (text : str) : chunk :=
  {| candidates := []; chunk_text := Some text |}.

(** A chunk that carries one thought. *)
Definition thinking_chunk (text : str) : chunk :=
  {| candidates := [{| cand_content := Some {| parts :=
       [{| part_text := Some text; part_thought := true |}] |} |}];
     chunk_text := None |}.

(** A service that has served nothing yet. *)
Definition fresh_service : GeminiContentService :=
  {| api_key := PNone; active_chats := ∅ |}.

(** No text of [s] matches [r]. *)
Definition no_match (r : regex) (s : str) : Prop := re_search r s = None.

(** [s] has the given prefix: [s.startswith(p)] as a proposition. *)
Definition begins_with (p : str) (v : pyval) : Prop :=
  exists s, v = PStr s /\ startswith p s = true.

(** Every whitespace character of [s] is a single space and stands alone:
    what collapsing the whitespace leaves. *)
Fixpoint single_spaced (w : World) (s : str) : Prop :=
  match s with
  | [] => True
  | c :: s' =>
      (isspace w c = true ->
       c = 32%N /\ match s' with [] => True | d :: _ => isspace w d = false end)
      /\ single_spaced w s'
  end.

(** An action that is neither a results event nor a terminal event. *)
Definition quiet_action (a : action) : bool :=
  match a with
  | Yield e => negb (is_results e) && negb (is_terminal e)
  | Pull _ => true
  end.

Definition quiet (t : list action) : Prop := Forall (fun a => quiet_action a = true) t.

(** A generator that sends the results at most once, as its last action,
    and says so in what it returns. *)
Definition sends_once {A} (sent : A -> bool) (g : gen A) : Prop :=
  match snd g with
  | Ok a =>
      if sent a
      then exists t r, fst g = t ++ [Yield (EvResults r)] /\ quiet t
      else quiet (fst g)
  | Raise _ => quiet (fst g)
  end.

(** A generator that sends neither results nor a terminal event and does
    not raise. *)
Definition calm {A} (g : gen A) : Prop :=
  quiet (fst g) /\ exists a, snd g = Ok a.

(** The item every fallback sends. *)
Definition mock_item (w : World) : ContentItem := {|
  title := PStr (py "Attention Is All You Need - Transformer Paper");
  type := PStr (py "academic");
  description := PStr (py "The groundbreaking paper that introduced the Transformer architecture, revolutionizing natural language processing.");
  source := PStr (py "arXiv");
  relevance := PStr (py "Foundational research in modern AI");
  url := PStr (py "https://arxiv.org/abs/1706.03762");
  timestamp := PStr (clock w);
  validation := PNone
|}.

(** The events of a stream, up to its end: nothing that is a results event
    or a terminal event. *)
Definition unremarkable (evs : list event) : Prop :=
  Forall (fun e => is_results e = false /\ is_terminal e = false) evs.

(** How a stream ends: with the results and [complete]... *)
Definition ends_with_results (evs : list event) : Prop :=
  exists before r, unremarkable before /\ evs = before ++ [EvResults r; EvComplete].

(** ... or with [error], and then without results. *)
Definition ends_with_error (evs : list event) (e : exn) : Prop :=
  exists before, unremarkable before /\ evs = before ++ [EvError e].

(** The end of both endpoints: the fallback when nothing was sent, then
    [complete]. *)
Definition finish {A} (w : World) (sent : A -> bool) (g : gen A) : gen unit :=
  a ← g;
  _ ← (if negb (sent a) then send_mock_results w else mret tt);
  yield EvComplete.

(** [dataclasses.asdict(item)] *)
Definition asdict (item : ContentItem) : dict :=
  [(py "title", title item); (py "type", type item);
   (py "description", description item); (py "source", source item);
   (py "relevance", relevance item); (py "url", url item);
   (py "timestamp", timestamp item); (py "validation", validation item)].

(** The fields of a raw item the endpoints read with the empty string as
    default. *)
Definition raw_fields : list str :=
  [py "title"; py "type"; py "description"; py "source"; py "relevance"; py "url"].

(** A service with two chat sessions, for examples. *)
Definition two_sessions : GeminiContentService :=
  {| api_key := PNone;
     active_chats :=
       <[py "article_a" := {| get_history := Ok [
            {| msg_role := Some (py "user");
               msg_parts := Some [{| hp_text := Has (py " What is new? ") |}] |};
            {| msg_role := Some (py "model");
               msg_parts := Some [{| hp_text := Has (py "A lot.") |}] |}] |}]>
       (<[py "article_b" := {| get_history := Ok [
            {| msg_role := Some (py "user");
               msg_parts := Some [{| hp_text := Has (py "Who wrote it?") |}] |}] |}]> ∅) |}.

(** The type and the host of a URL send it to [_validate_general_url]: it is
    neither a video on YouTube nor a podcast. *)
Definition is_general (content_type : pyval) (netloc : str) : bool :=
  negb (is_the_string content_type (py "video") && str_contains (py "youtube.com") netloc)
  && negb (is_the_string content_type (py "video") && str_contains (py "youtu.be") netloc)
  && negb (is_the_string content_type (py "podcast")).

(** An item as the batch returns it when a general URL answered [code]. *)
Definition validated_item (w : World) (d : dict) (code : Z) : pyval :=
  PDict (dict_set d (py "validation")
           (PDict [(py "validated_at", PStr (clock w));
                   (py "status_code", PInt code);
                   (py "content_type_verified", PNone)])).

(** What a finished future gives the batch. *)
Definition kept (future : result (option pyval) * pyval) : option pyval :=
  match fst future with
  | Ok (Some r) => Some r
  | _ => None
  end.

(** A world in which every URL parses and every request is answered with
    the same status code. *)
Definition answering (code : Z) : World := {|
  uni_isspace := fun _ => false;
  uni_isdecimal := fun _ => false;
  str_lower := fun s => s;
  float_nonzero := fun _ => true;
  py_repr := fun _ => py "?";
  key_eqb := fun _ _ => false;
  urlparse := fun _ => Ok (py "https", py "example.com");
  http := fun _ => Ok {| resp_status_code := code; resp_content_type := None; resp_text := [] |};
  generate_content_for_url := fun _ _ _ => Raise (ExternalError (py "offline"));
  client_init := fun _ => Ok tt;
  clock := py "2025-01-01T00:00:00";
  completion_order := [];
  batch_deadline := None;
  int_max_str_digits := 4300;
  nesting_headroom := 998
|}.

(** The links the resolver records for the item at position [call]: those of
    its future, or the search link when the future raised. *)
Definition item_links (w : World) (svc : GeminiContentService) (call : nat) (item : pyval)
    (ci : ContentItem) : list pyval :=
  match process_single_item w svc call item with
  | Ok (_, links) => links
  | Raise _ => [search_link w (title ci) (source ci)]
  end.

(** The reply to the lookup for the item at position [call] has no grounding
    chunks. *)
Definition lookup_without_citations (w : World) (svc : GeminiContentService)
    (call : nat) (ci : ContentItem) : Prop :=
  exists r first others meta,
    _call_gemini_api_for_url w svc call (format w (title ci)) (format w (source ci))
      = Ok (inl r) /\
    url_candidates r = Some (first :: others) /\
    grounding_metadata first = Some meta /\
    (grounding_chunks meta = None \/ grounding_chunks meta = Some []).

(** The lookup for the item at position [call] raises, whatever the
    reason. *)
Definition lookup_raises (w : World) (svc : GeminiContentService) (call : nat)
    (item : pyval) : Prop :=
  exists e, process_single_item w svc call item = Raise e.

(** An item [ContentItem] accepts, with a title that is text. *)
Definition titled (w : World) (item : pyval) (ci : ContentItem) (t : str) : Prop :=
  ContentItem_of w item = Ok ci /\ title ci = PStr t.

(** Every key of the dictionary is text. *)
Definition text_keys (links : links_dict) : Prop :=
  Forall (fun kv => exists t, fst kv = PStr t) links.

(** A raw item with the five fields [ContentItem] requires. *)
Definition raw_item (v_title v_source : string) : pyval :=
  PDict [(py "title", PStr (py v_title)); (py "type", PStr (py "article"));
         (py "description", PStr (py "D")); (py "source", PStr (py v_source));
         (py "relevance", PStr (py "R"))].

(** A service that holds a key. *)
Definition keyed_service : GeminiContentService :=
  {| api_key := PStr (py "key"); active_chats := ∅ |}.

(** The dictionary of links under construction: every key is text, and the
    title of every item dealt with so far maps to the links of an item with
    that title that has been dealt with; [seen] holds the items with their
    positions in the list. *)
Definition recorded (w : World) (svc : GeminiContentService) (links : links_dict)
    (seen : list (nat * pyval)) : Prop :=
  text_keys links /\
  forall call item ci t, In (call, item) seen -> titled w item ci t ->
    exists call' item' ci', In (call', item') seen /\ titled w item' ci' t /\
      links_find w links (PStr t) = Some (item_links w svc call' item' ci').

(** What the loops do with chunks that end no request: each is pulled and
    its thinking, if any, is sent. *)
Definition thinking_trace (chunks : list chunk) : list action :=
  flat_map (fun c => Pull c :: fst (send_thinking (fst (classify c)))) chunks.

(** The item of the mock stream, as [json.loads] returns it. *)
Definition mock_stream_item : dict :=
  [(py "title", PStr (py "Attention Is All You Need - Transformer Paper"));
   (py "type", PStr (py "academic"));
   (py "description", PStr (py "The groundbreaking paper that introduced the Transformer architecture, revolutionizing natural language processing."));
   (py "source", PStr (py "arXiv"));
   (py "relevance", PStr (py "Foundational research in modern AI"))].

(** The batch of [n] futures is over before the deadline of
    [as_completed]. *)
Definition in_time (w : World) (n : nat) : Prop :=
  match batch_deadline w with
  | None => True
  | Some k => (n <= k)%nat
  end.

(** An exception the loops do not catch. *)
Definition uncaught (e : exn) : Prop := is_JSONDecodeError_or_KeyError e = false.

(* ===================================================================== *)
(** ** [_parse_gemini_response_sdk] *)
(* ===================================================================== *)

(** [s.find(c)] for a single character: the index of its first
    occurrence; [None] stands for [-1]. *)
Fixpoint str_find (c : char) (s : str) : option nat :=
  match s with
  | [] => None
  | x :: s' => if N.eqb x c then Some O else S <$> str_find c s'
  end.

(** [s.rfind(c)]: the index of the last occurrence. *)
Fixpoint str_rfind (c : char) (s : str) : option nat :=
  match s with
  | [] => None
  | x :: s' =>
      match str_rfind c s' with
      | Some i => Some (S i)
      | None => if N.eqb x c then Some O else None
      end
  end.

(** [s[i:j]] for indices that are not negative: empty when [j <= i]. *)
Definition str_slice (i j : nat) (s : str) : str := take (j - i) (drop i s).

Definition is_dict (v : pyval) : bool :=
  match v with
  | PDict _ => true
  | _ => false
  end.

(** [isinstance(dict_list, list) and all(isinstance(item, dict) ...)] *)
Definition is_list_of_dicts (v : pyval) : bool :=
  match v with
  | PList l => forallb is_dict l
  | _ => false
  end.

Definition opening_bracket : char := 91%N.
Definition closing_bracket : char := 93%N.

(** "Strip off everything besides the list of dictionaries" *)
Definition stripped_response_text (response_text : str) : str :=
  match str_find opening_bracket response_text, str_rfind closing_bracket response_text with
  | Some opening_list_index, Some closing_list_index =>
      str_slice opening_list_index (S closing_list_index) response_text
  | _, _ => response_text
  end.

(** [_parse_gemini_response_sdk], on the text of the response ([None] when
    the response has no text: [None] has no [find], which the last handler
    answers with the mock results). *)
Definition _parse_gemini_response_sdk (w : World) (response_text : option str) : pyval :=
  match response_text with
  | None => _get_mock_results
  | Some response_text =>
      match loads w (stripped_response_text response_text) with
      | Ok dict_list => if is_list_of_dicts dict_list then dict_list else PList []
      | Raise JSONDecodeError => PList []
      | Raise _ => _get_mock_results
      end
  end.

(* ===================================================================== *)
(** ** The chat stream of [backend.py] *)
(* ===================================================================== *)

(** The events of [/api/chat/stream]. *)
Inductive chat_event : Type :=
| EvChatThought (content : str)
| EvChatChunk (content : str)
| EvChatComplete (full_response : str)
| EvChatError (content : exn).

(** What a generator of chunks gives the loop of the endpoint: some chunks,
    and then its end or an exception.  The generator of the service is
    [chat_about_article_streaming] below, which raises only when its own
    handler does. *)
Record chat_stream : Type := {
  chat_chunks : list chunk;
  chat_failure : option exn
}.

(** The [for] loop of [generate_chat_stream]: the events it sends and
    [accumulated_content] when it is over. *)
Fixpoint chat_loop (accumulated_content : str) (chunks : list chunk)
  : list chat_event * str :=
  match chunks with
  | [] => ([], accumulated_content)
  | c :: rest =>
      let '(thinking_text, content_text) := classify c in
      let thought :=
        if truthy_text thinking_text
        then [EvChatThought (text_or_empty thinking_text)] else [] in
      if truthy_text content_text then
        let accumulated_content := accumulated_content ++ text_or_empty content_text in
        let '(sent, accumulated_content) := chat_loop accumulated_content rest in
        (thought ++ EvChatChunk (text_or_empty content_text) :: sent, accumulated_content)
      else
        let '(sent, accumulated_content) := chat_loop accumulated_content rest in
        (thought ++ sent, accumulated_content)
  end.

Section Chat.
Variable w : World.
(** [hashlib.md5(str(a + b).encode()).hexdigest()] for two values of unknown
    type, or the exception the sum raises. *)
Variable md5_of_sum : pyval -> pyval -> result str.

Definition message_augmented_with_context (message : str) (article : pyval) : result str :=
  v_title ← py_get article (py "title") (PStr []);
  v_description ← py_get article (py "description") (PStr []);
  v_url ← py_get article (py "url") (PStr []);
  Ok (message ++ py " with the article context:             Title: " ++ format w v_title ++
      py "             Description: " ++ format w v_description ++
      py "             URL: " ++ format w v_url).

Definition article_chat_id (article : pyval) : result str :=
  v_title ← py_get article (py "title") (PStr []);
  v_url ← py_get article (py "url") (PStr []);
  digest ← md5_of_sum v_title v_url;
  Ok (py "article_" ++ digest).

(** [generate_chat_stream] of [/api/chat/stream] *)
Definition generate_chat_stream (svc : GeminiContentService) (message : str)
    (article api_key : pyval) (stream : chat_stream) : list chat_event :=
  match (_ ← message_augmented_with_context message article;
         _ ← set_api_key w svc api_key;
         article_chat_id article) with
  | Ok chat_id =>
      let '(sent, accumulated_content) := chat_loop [] (chat_chunks stream) in
      sent ++
      match chat_failure stream with
      | None => [EvChatComplete accumulated_content]
      | Some e => [EvChatError e]
      end
  | Raise e => [EvChatError e]
  end.
End Chat.

(** What the session of the SDK does with one message: the chunks of
    [send_message_stream] that arrive, and the exception that ends them
    early, if any; also the exception of the session or of the call when no
    stream is opened. *)
Record sdk_chat : Type := {
  sdk_chunks : list chunk;
  sdk_failure : option exn
}.

(** The [fallback_text] of the handler of [chat_about_article_streaming] *)
Definition fallback_text (w : World) (article : pyval) : result str :=
  v_title ← py_get article (py "title") (PStr (py "this article"));
  v_type ← py_get article (py "type") (PStr (py "content"));
  v_source ← py_get article (py "source") (PStr (py "a news source"));
  Ok (py "I understand you're asking about the article '" ++ format w v_title ++
      py "'. While I'm having trouble accessing detailed information right now, I can tell you that this appears to be " ++
      format w v_type ++ py " from " ++ format w v_source ++
      py ". Could you please rephrase your question or try asking something more specific about the article?").

(** [chat_about_article_streaming], for a chat id that is given: the chunks
    of the SDK, and after an exception one more chunk, a [MockChunk] that
    has nothing but the fallback text; the exception of the handler when
    the article has no [get]. *)
Definition chat_about_article_streaming (w : World) (article : pyval) (sdk : sdk_chat)
  : chat_stream :=
  match sdk_failure sdk with
  | None => {| chat_chunks := sdk_chunks sdk; chat_failure := None |}
  | Some _ =>
      match fallback_text w article with
      | Ok text =>
          {| chat_chunks := sdk_chunks sdk ++ [{| candidates := []; chunk_text := Some text |}];
             chat_failure := None |}
      | Raise e => {| chat_chunks := sdk_chunks sdk; chat_failure := Some e |}
      end
  end.

(* ===================================================================== *)
(** ** The routes of [backend.py] *)
(* ===================================================================== *)

(** What a route returns. *)
Inductive reply : Type :=
| JsonMessage (message : str)                                  (* 200 *)
| JsonError (status : Z) (error : str) (cause : option exn)
| EventStream (t : list action)
| ChatEventStream (evs : list chat_event).

(** [v.strip()] on a value of unknown type: only a string has [strip]. *)
Definition py_strip (w : World) (v : pyval) : result str :=
  match v with
  | PStr s => Ok (strip w s)
  | _ => Raise AttributeError
  end.

(** [list(v.keys())] on a value of unknown type: only a dict has [keys]. *)
Definition py_keys (v : pyval) : result (list str) :=
  match v with
  | PDict d => Ok (List.map fst d)
  | _ => Raise AttributeError
  end.

Definition nonempty (s : str) : bool :=
  match s with
  | [] => false
  | _ :: _ => true
  end.

Section Routes.
Variable w : World.

(** [/api/configure]: the service afterwards and the reply.  An exception
    outside the [try] leaves the route. *)
Definition configure_api (svc : GeminiContentService) (data : pyval)
  : result (GeminiContentService * reply) :=
  api_key ← py_get data (py "api_key") PNone;
  if negb (truthy w api_key)
  then Ok (svc, JsonError 400 (py "API key is required") None)
  else
    stripped ← py_strip w api_key;
    if negb (nonempty stripped) || (length stripped <? 10)%nat
    then Ok (svc, JsonError 400 (py "Invalid API key format") None)
    else
      match set_api_key w svc (PStr stripped) with
      | Ok svc' => Ok (svc', JsonMessage (py "API key configured successfully"))
      | Raise e =>
          (* the key is stored before the client is built *)
          Ok ({| api_key := PStr stripped; active_chats := active_chats svc |},
              JsonError 500 (py "Failed to configure API key: ") (Some e))
      end.

(** [/api/reset-api-key] *)
Definition reset_api_key (svc : GeminiContentService) : GeminiContentService * reply :=
  ({| api_key := PNone; active_chats := active_chats svc |},
   JsonMessage (py "API key reset successfully")).

(** [/api/search/stream] *)
Definition route_search_content_streaming (svc : GeminiContentService) (data : pyval)
    (api : api_stream) : result reply :=
  v_query ← py_get data (py "query") (PStr []);
  query ← py_strip w v_query;
  api_key ← py_get data (py "api_key") PNone;
  if negb (nonempty query) then Ok (JsonError 400 (py "Query is required") None)
  else if negb (truthy w api_key) then Ok (JsonError 400 (py "API key is required") None)
  else Ok (EventStream (generate_stream w svc query api_key api)).

(** [/api/recommendations/stream] *)
Definition route_get_recommendations_streaming (svc : GeminiContentService) (data : pyval)
    (api : api_stream) : result reply :=
  api_key ← py_get data (py "api_key") PNone;
  if negb (truthy w api_key) then Ok (JsonError 400 (py "API key is required") None)
  else Ok (EventStream (generate_stream_attempt w svc api_key api)).

(** [/api/chat/stream].  The log lines before the checks read the keys of
    the article and the length of the conversation history. *)
Definition chat_with_article_streaming (md5_of_sum : pyval -> pyval -> result str)
    (svc : GeminiContentService) (data : pyval) (stream : chat_stream) : result reply :=
  v_message ← py_get data (py "message") (PStr []);
  message ← py_strip w v_message;
  article ← py_get data (py "article") (PDict []);
  conversation_history ← py_get data (py "conversation_history") (PList []);
  api_key ← py_get data (py "api_key") PNone;
  _ ← (if truthy w article then py_keys article else Ok []);
  _ ← py_len conversation_history;
  if negb (nonempty message) then Ok (JsonError 400 (py "Message is required") None)
  else if negb (truthy w api_key) then Ok (JsonError 400 (py "API key is required") None)
  else if negb (truthy w article)
  then Ok (JsonError 400 (py "Article context is required") None)
  else Ok (ChatEventStream
             (generate_chat_stream w md5_of_sum svc message article api_key stream)).
End Routes.

(* ===================================================================== *)
(** ** Vocabulary of the further properties *)
(* ===================================================================== *)

(** The thoughts among the events of a stream. *)
Definition thoughts (evs : list event) : list str :=
  omap (fun e => match e with EvThought t => Some t | _ => None end) evs.

(** The thinking texts of the chunks that have some. *)
Definition chunk_thoughts (chunks : list chunk) : list str :=
  omap (fun c => if truthy_text (fst (classify c)) then fst (classify c) else None) chunks.

(** The first thought of a request. *)
Definition initial_thought (m : mode) : str :=
  match m with
  | SearchMode query => initial_thought_search query
  | RecommendationMode => initial_thought_recommendations
  end.

(** The texts of the [chat_chunk] events. *)
Definition chat_chunk_texts (evs : list chat_event) : list str :=
  omap (fun e => match e with EvChatChunk t => Some t | _ => None end) evs.

Definition chat_thoughts (evs : list chat_event) : list str :=
  omap (fun e => match e with EvChatThought t => Some t | _ => None end) evs.

Definition is_chat_terminal (e : chat_event) : bool :=
  match e with
  | EvChatComplete _ | EvChatError _ => true
  | _ => false
  end.

(** The answer texts of the chunks that have some. *)
Definition chunk_answers (chunks : list chunk) : list str :=
  omap (fun c => if truthy_text (snd (classify c)) then snd (classify c) else None) chunks.

(** The validation record [validate_single_item] attaches to an item. *)
Definition validation_record (w : World) (r : validation_result) : pyval :=
  PDict [(py "validated_at", PStr (clock w));
         (py "status_code", option_value PInt (status_code r));
         (py "content_type_verified", option_value PStr (content_type_detected r))].

(** The verdict of the validator on a raw item. *)
Definition verdict (w : World) (d : dict) : validation_result :=
  validate_url w (dict_get d (py "url") (PStr [])) (dict_get d (py "type") (PStr [])).

(** No whitespace at either end. *)
Definition trimmed (w : World) (s : str) : Prop :=
  match s with
  | [] => True
  | c :: _ => isspace w c = false /\ exists s' d, s = s' ++ [d] /\ isspace w d = false
  end.

(** A history message of one text part. *)
Definition text_message (role content : str) : history_message :=
  {| msg_role := Some role; msg_parts := Some [{| hp_text := Has content |}] |}.

(** A service with one chat session. *)
Definition one_session (chat_id : str) (history : result (list history_message))
  : GeminiContentService :=
  {| api_key := PNone; active_chats := <[chat_id := {| get_history := history |}]> ∅ |}.

(** What the batch keeps of an item: the item with its validation record
    when it is a dict whose URL is valid. *)
Definition validated (w : World) (item : pyval) : option pyval :=
  match item with
  | PDict d =>
      if is_valid (verdict w d)
      then Some (PDict (dict_set d (py "validation") (validation_record w (verdict w d))))
      else None
  | _ => None
  end.

(** The result a validator starts from. *)
Definition fresh_result (u : pyval) : validation_result :=
  {| vr_url := u; is_valid := false; status_code := None; error := None;
     content_type_detected := None; title_verified := false |}.

(** What a result can look like when a validator is done with a fresh one:
    a valid URL has no error and answered 200, or 403 when no content type
    was detected; a verified title and a detected content type come with a
    valid URL only. *)
Definition settled (r : validation_result) : Prop :=
  (is_valid r = true ->
   error r = None /\
   (status_code r = Some 200 \/
    (status_code r = Some 403 /\ content_type_detected r = None))) /\
  (title_verified r = true ->
   is_valid r = true /\ content_type_detected r = Some (py "video")) /\
  (content_type_detected r <> None -> is_valid r = true /\ status_code r = Some 200).

(** The world [w] with another deadline for [as_completed]. *)
Definition with_deadline (w : World) (deadline : option nat) : World := {|
  uni_isspace := uni_isspace w;
  uni_isdecimal := uni_isdecimal w;
  str_lower := str_lower w;
  float_nonzero := float_nonzero w;
  py_repr := py_repr w;
  key_eqb := key_eqb w;
  urlparse := urlparse w;
  http := http w;
  generate_content_for_url := generate_content_for_url w;
  client_init := client_init w;
  clock := clock w;
  completion_order := completion_order w;
  batch_deadline := deadline;
  int_max_str_digits := int_max_str_digits w;
  nesting_headroom := nesting_headroom w
|}.

(** [url] names a podcast platform, or the content type is audio. *)
Definition podcast_like (w : World) (u : str) (resp : response) : bool :=
  existsb (fun platform => str_contains platform (str_lower w u)) podcast_platforms
  || str_contains (py "audio/")
       (str_lower w (match resp_content_type resp with Some t => t | None => [] end)).

(** An entry as the frontend expects it: one of the two roles of the
    conversation, and text without whitespace around it. *)
Definition well_formed_entry (w : World) (entry : history_entry) : Prop :=
  (entry_role entry = py "user" \/ entry_role entry = py "assistant") /\
  entry_content entry <> [] /\
  trimmed w (entry_content entry) /\
  strip w (entry_content entry) = entry_content entry.

(** A message of the conversation with a part whose text is [None]. *)
Definition has_part_without_text (message : history_message) : Prop :=
  exists role message_parts p,
    msg_role message = Some role /\ (role = py "user" \/ role = py "model") /\
    msg_parts message = Some message_parts /\
    In p message_parts /\ hp_text p = IsNone.

(** A trace that takes no chunk and sends no thought. *)
Definition plain (t : list action) : Prop :=
  thoughts (events_of t) = [] /\ pulled t = [].

(** The thoughts a trace sends are the thinking texts of the chunks it
    takes, in order and none left out. *)
Definition faithful (t : list action) : Prop :=
  thoughts (events_of t) = chunk_thoughts (pulled t).

Definition is_thought (e : event) : bool :=
  match e with
  | EvThought _ => true
  | _ => false
  end.

(** [item'] is [item] with the first link recorded for its title as URL. *)
Definition linked (w : World) (links : links_dict) (item item' : pyval) : Prop :=
  exists d ci t first others,
    item = PDict d /\ titled w item ci t /\
    links_find w links (PStr t) = Some (first :: others) /\
    item' = PDict (dict_set d (py "url") first).

(* ===================================================================== *)
(** ** [_call_gemini_api_for_results] *)
(* ===================================================================== *)

(** The reply of [client.models.generate_content], as far as
    [_call_gemini_api_for_results] looks into it. *)
Record results_response : Type := {
  results_text : option str;                   (* response.text *)
  results_candidates : option (list unit)      (* response.candidates *)
}.

(** [response.candidates[0]], which the two log lines read. *)
Definition first_candidate (r : results_response) : result unit :=
  match results_candidates r with
  | None => Raise TypeError
  | Some [] => Raise IndexError
  | Some (first :: _) => Ok first
  end.

(** [_call_gemini_api_for_results], given what the call of the model
    does. *)
Definition _call_gemini_api_for_results (w : World) (svc : GeminiContentService)
    (generate_content : result results_response) : result pyval :=
  if negb (truthy w (api_key svc)) then Raise ValueError
  else
    try_except
      (response ← generate_content;
       _ ← first_candidate response;
       Ok (_parse_gemini_response_sdk w (results_text response)))
      (fun e => Ok _get_mock_results).

(* ===================================================================== *)
(** ** Vocabulary for texts that grow chunk by chunk *)
(* ===================================================================== *)

(** A text that ends with a closing bracket, as every match of the array
    pattern does. *)
Definition closed (s : str) : Prop := exists s0, s = s0 ++ [closing_bracket].

(** The literal has no closing bracket. *)
Definition bracket_free (lit : str) : bool :=
  forallb (fun x => negb (N.eqb x closing_bracket)) lit.

(** The outcome of a step of the decoder once the text [t] follows what it
    read. *)
Definition grow (t : str) (r : parsed pyval) : parsed pyval :=
  match r with
  | Parsed v rest => Parsed v (rest ++ t)
  | _ => r
  end.

(** A step of the decoder that gave a value or raised gives the same once
    the text [t] follows; what the value leaves of a closed text is closed
    or nothing. *)
Definition extends_to (t : str) (r r' : parsed pyval) : Prop :=
  match r with
  | Parsed v rest => r' = Parsed v (rest ++ t) /\ (rest = [] \/ closed rest)
  | Failed e => r' = Failed e
  | _ => True
  end.

(** What follows the last closing bracket of a text. *)
Fixpoint after_last_bracket (s : str) : option str :=
  match s with
  | [] => None
  | c :: s' =>
      match after_last_bracket s' with
      | Some rest => Some rest
      | None => if N.eqb c closing_bracket then Some s' else None
      end
  end.

(** An attempt to parse that the loop of the search stream passes over:
    nothing to parse yet, or an exception the loop catches. *)
Definition silent {A} (r : result (option A)) : Prop :=
  r = Ok None \/ exists e, r = Raise e /\ is_JSONDecodeError_or_KeyError e = true.

(* ===================================================================== *)
(** ** Vocabulary for the lookups of the link resolver *)
(* ===================================================================== *)

(** The items of a list with their positions, which are the numbers of
    their lookups. *)
Definition numbered (items : list pyval) : list (nat * pyval) := imap pair items.

(** The future submitted for a numbered item, with the item. *)
Definition submitted (w : World) (svc : GeminiContentService) (job : nat * pyval)
  : result (pyval * list pyval) * pyval :=
  (process_single_item w svc (fst job) (snd job), snd job).

(** A reply of the lookup that cites one page. *)
Definition citing (u : str) : url_response :=
  {| url_text := Some [];
     url_candidates :=
       Some [{| grounding_metadata :=
                  Some {| grounding_chunks := Some [{| web := Some {| uri := PStr u |} |}] |} |}] |}.

(** A world in which the lookup for the first item of a list fails and every
    other lookup cites one page. *)
Definition first_lookup_fails : World := {|
  uni_isspace := fun _ => false;
  uni_isdecimal := fun _ => false;
  str_lower := fun s => s;
  float_nonzero := fun _ => true;
  py_repr := fun _ => py "?";
  key_eqb := fun _ _ => false;
  urlparse := fun _ => Ok ([], []);
  http := fun _ => Raise RequestsError;
  generate_content_for_url := fun call _ _ =>
    match call with
    | O => Raise (ExternalError (py "unavailable"))
    | S _ => Ok (citing (py "https://example.com/cited"))
    end;
  client_init := fun _ => Ok tt;
  clock := py "2025-01-01T00:00:00";
  completion_order := [];
  batch_deadline := None;
  int_max_str_digits := 4300;
  nesting_headroom := 998
|}.

(* ===================================================================== *)
(** ** Vocabulary for the attempts of the search stream *)
(* ===================================================================== *)

(** The parse the search stream makes once chunk number [k] (from 0) has
    arrived. *)
Definition attempt (w : World) (chunks : list chunk) (k : nat) : result (option pyval) :=
  parse_accumulated w (accumulated_after (S k) chunks) false.

(** What the search stream does with a parsed list raises [e]: validation
    does, or the conversion of what validation returned. *)
Definition raises_after_parse (w : World) (data : pyval) (e : exn) : Prop :=
  validate_content_batch w data = Raise e \/
  exists validated_data,
    validate_content_batch w data = Ok validated_data /\
    convert_to_content_items w (or_mock_results w validated_data data) = Raise e.

(** The search stream over [chunks] fails with [e] after chunk [k]: the
    attempts before are silent, and either the parse after chunk [k] raises
    [e], which the loop does not catch, or it gives a list and validation or
    conversion raises [e]. *)
Definition search_raises_at (w : World) (chunks : list chunk) (k : nat) (e : exn) : Prop :=
  (k < length chunks)%nat /\
  (forall j, (j < k)%nat -> silent (attempt w chunks j)) /\
  ((attempt w chunks k = Raise e /\ uncaught e) \/
   exists data, attempt w chunks k = Ok (Some data) /\ raises_after_parse w data e).

Definition search_raises (w : World) (chunks : list chunk) (e : exn) : Prop :=
  exists k, search_raises_at w chunks k e.

(* ===================================================================== *)
(** * Properties *)
(* ===================================================================== *)

(** ** Regular expressions and the cleaning of descriptions *)

Section RegexFacts.
Variable w : World.

Lemma re_search_none r s :
  re_search r s = None ->
  match_len r s = None /\ match s with [] => True | _ :: s' => re_search r s' = None end.
Proof.
  destruct s as [|c s']; simpl; destruct (match_len r _); try discriminate; auto.
Qed.

Lemma re_sub_no_match r repl s : re_search r s = None -> re_sub r repl s = s.
Proof.
  unfold re_sub. induction s as [|c s' IH]; intros H; [reflexivity|].
  apply re_search_none in H as [Hm Hs].
  cbn [re_sub_from]. rewrite Hm. f_equal. auto.
Qed.

Lemma re_sub_from_skip r repl n s :
  re_sub_from r repl n s = re_sub_from r repl O (drop n s).
Proof.
  revert n. induction s as [|c s' IH]; intros [|n]; try reflexivity.
  cbn [re_sub_from drop]. apply IH.
Qed.

Lemma lstrip_length s : (length (lstrip w s) <= length s)%nat.
Proof. induction s as [|c s' IH]; simpl; [lia|]. destruct (isspace w c); simpl; lia. Qed.

Lemma lstrip_drop s : drop (length s - length (lstrip w s)) s = lstrip w s.
Proof.
  induction s as [|c s' IH]; [reflexivity|].
  simpl lstrip. destruct (isspace w c) eqn:E.
  - pose proof (lstrip_length s'). simpl length.
    replace (S (length s') - length (lstrip w s'))%nat
      with (S (length s' - length (lstrip w s'))) by lia.
    simpl. exact IH.
  - replace (length (c :: s') - length (c :: s'))%nat with O by lia. reflexivity.
Qed.

Lemma star_space {A} (k : str -> option A) n s :
  (forall t, is_Some (k t)) -> (length s <= n)%nat ->
  star_loop (rmatch (Cls (isspace w))) k n s = k (lstrip w s).
Proof.
  intros Hk. revert s. induction n as [|n IH]; intros s Hn.
  - destruct s; [reflexivity | simpl in Hn; lia].
  - destruct s as [|c s']; [reflexivity|].
    cbn [star_loop rmatch lstrip]. destruct (isspace w c) eqn:E; [|reflexivity].
    assert ((length s' <? length (c :: s'))%nat = true) as -> by (apply Nat.ltb_lt; simpl; lia).
    rewrite IH by (simpl in Hn; lia).
    destruct (Hk (lstrip w s')) as [a ->]. reflexivity.
Qed.

Lemma whitespace_rmatch {A} (k : str -> option A) c s :
  rmatch (whitespace_pattern w) (c :: s) k =
  if isspace w c then star_loop (rmatch (Cls (isspace w))) k (length s) s else None.
Proof. reflexivity. Qed.

Lemma whitespace_match_len c s :
  match_len (whitespace_pattern w) (c :: s) =
  if isspace w c then Some (S (length s - length (lstrip w s))) else None.
Proof.
  unfold match_len. rewrite whitespace_rmatch.
  destruct (isspace w c); [|reflexivity].
  rewrite star_space by (eauto || lia).
  pose proof (lstrip_length s). f_equal. simpl. lia.
Qed.

Lemma collapse_cons repl c s :
  re_sub (whitespace_pattern w) repl (c :: s) =
  if isspace w c then repl ++ re_sub (whitespace_pattern w) repl (lstrip w s)
  else c :: re_sub (whitespace_pattern w) repl s.
Proof.
  unfold re_sub. cbn [re_sub_from]. rewrite whitespace_match_len.
  destruct (isspace w c); [|reflexivity].
  rewrite re_sub_from_skip, lstrip_drop. reflexivity.
Qed.
End RegexFacts.

Section Spacing.
Variable w : World.

Lemma lstrip_head s :
  match lstrip w s with [] => True | d :: _ => isspace w d = false end.
Proof. induction s as [|c s' IH]; simpl; [trivial|]. destruct (isspace w c) eqn:E; auto. Qed.

Lemma lstrip_id s :
  match s with [] => True | d :: _ => isspace w d = false end -> lstrip w s = s.
Proof. destruct s as [|c s']; simpl; [reflexivity|]. intros ->. reflexivity. Qed.

Lemma lstrip_suffix s : exists t, s = t ++ lstrip w s.
Proof.
  induction s as [|c s' [t IH]]; [exists []; reflexivity|].
  simpl. destruct (isspace w c).
  - exists (c :: t). simpl. congruence.
  - exists []. reflexivity.
Qed.

Lemma collapse_head_nonspace s :
  match s with [] => True | d :: _ => isspace w d = false end ->
  match re_sub (whitespace_pattern w) (py " ") s with
  | [] => True
  | d :: _ => isspace w d = false
  end.
Proof.
  destruct s as [|c s']; [trivial|]. intros H.
  rewrite collapse_cons, H. exact H.
Qed.

Lemma collapse_single_spaced_fuel n s :
  (length s <= n)%nat -> single_spaced w (re_sub (whitespace_pattern w) (py " ") s).
Proof.
  revert s. induction n as [|n IH]; intros s Hn.
  - destruct s; [exact I | simpl in Hn; lia].
  - destruct s as [|c s']; [exact I|].
    rewrite collapse_cons. destruct (isspace w c) eqn:E.
    + pose proof (lstrip_length w s'). simpl in Hn.
      change (py " " ++ ?x) with (32%N :: x).
      split.
      * intros _. split; [reflexivity|]. apply collapse_head_nonspace, lstrip_head.
      * apply IH. lia.
    + split.
      * rewrite E. discriminate.
      * apply IH. simpl in Hn. lia.
Qed.

Lemma collapse_single_spaced s :
  single_spaced w (re_sub (whitespace_pattern w) (py " ") s).
Proof. exact (collapse_single_spaced_fuel (length s) s (Nat.le_refl _)). Qed.

Lemma collapse_id s :
  single_spaced w s -> re_sub (whitespace_pattern w) (py " ") s = s.
Proof.
  induction s as [|c s' IH]; [reflexivity|].
  intros [Hc Hs]. rewrite collapse_cons. destruct (isspace w c) eqn:E.
  - destruct (Hc eq_refl) as [-> Hnext].
    rewrite lstrip_id by exact Hnext. rewrite IH by exact Hs. reflexivity.
  - rewrite IH by exact Hs. reflexivity.
Qed.

Lemma single_spaced_app_r a b : single_spaced w (a ++ b) -> single_spaced w b.
Proof. induction a as [|c a IH]; simpl; [auto|]. intros [_ H]. auto. Qed.

Lemma single_spaced_app_l a b : single_spaced w (a ++ b) -> single_spaced w a.
Proof.
  induction a as [|c a IH]; simpl; [auto|]. intros [Hc H]. split; [|auto].
  intros E. destruct (Hc E) as [-> Hn]. split; [reflexivity|].
  destruct a; [trivial | exact Hn].
Qed.

Lemma rstrip_prefix s : exists t, s = rstrip w s ++ t.
Proof.
  unfold rstrip. destruct (lstrip_suffix (List.rev s)) as [t Ht].
  exists (List.rev t).
  rewrite <- List.rev_app_distr, <- Ht, List.rev_involutive. reflexivity.
Qed.

Lemma lstrip_idem s : lstrip w (lstrip w s) = lstrip w s.
Proof. apply lstrip_id, lstrip_head. Qed.

Lemma rstrip_idem s : rstrip w (rstrip w s) = rstrip w s.
Proof. unfold rstrip. rewrite List.rev_involutive, lstrip_idem. reflexivity. Qed.

Lemma strip_single_spaced s : single_spaced w s -> single_spaced w (strip w s).
Proof.
  intros H. unfold strip.
  destruct (lstrip_suffix s) as [t Ht]. rewrite Ht in H.
  apply single_spaced_app_r in H.
  destruct (rstrip_prefix (lstrip w s)) as [t' Ht']. rewrite Ht' in H.
  apply single_spaced_app_l in H. exact H.
Qed.

Lemma strip_idem s : strip w (strip w s) = strip w s.
Proof.
  unfold strip.
  assert (lstrip w (rstrip w (lstrip w s)) = rstrip w (lstrip w s)) as ->.
  { apply lstrip_id.
    pose proof (lstrip_head s) as Hh.
    destruct (rstrip_prefix (lstrip w s)) as [t Ht].
    destruct (rstrip w (lstrip w s)) as [|d r]; [trivial|].
    rewrite Ht in Hh. exact Hh. }
  apply rstrip_idem.
Qed.

(** The whitespace stage of the cleaning, applied to its own output,
    changes nothing. *)
Lemma normalise_idem s :
  let t := strip w (re_sub (whitespace_pattern w) (py " ") s) in
  strip w (re_sub (whitespace_pattern w) (py " ") t) = t.
Proof.
  intros t. rewrite collapse_id.
  - apply strip_idem.
  - apply strip_single_spaced, collapse_single_spaced.
Qed.

End Spacing.

(** ** The JSON decoder *)

(** Case analysis on the test of the outermost conditional of [H], without
    unfolding anything. *)
Ltac split_match H :=
  match type of H with
  | context [match ?x with _ => _ end] => destruct x eqn:?; cbv beta iota in H
  end.

Ltac split_matches H := repeat (first [discriminate H | split_match H]).

(** The same in every hypothesis. *)
Ltac split_everywhere :=
  repeat match goal with
  | H : _ |- _ => discriminate H
  | H : context [match ?x with _ => _ end] |- _ =>
      destruct x eqn:?; cbv beta iota in *
  end.

Lemma skip_whitespace_length s : (length (skip_whitespace s) <= length s)%nat.
Proof. induction s as [|c s IH]; simpl; [lia|]. destruct (is_json_whitespace c); simpl; lia. Qed.

Lemma scanstring_shorter_fuel n s acc v rest :
  (length s <= n)%nat -> scanstring acc s = Some (v, rest) -> (length rest < length s)%nat.
Proof.
  revert s acc. induction n as [|n IH]; intros s acc Hn H.
  - destruct s; [discriminate | simpl in Hn; lia].
  - destruct s as [|c s1]; [discriminate|].
    cbn [scanstring] in H. split_matches H;
      cbn [length] in *;
      first [ injection H as <- <-; lia
            | apply IH in H; cbn [length] in *; lia ].
Qed.

Lemma scanstring_shorter s acc v rest :
  scanstring acc s = Some (v, rest) -> (length rest < length s)%nat.
Proof. apply (scanstring_shorter_fuel (length s)). lia. Qed.

Lemma span_digits_length s ds rest :
  span_digits s = (ds, rest) -> (length rest <= length s)%nat.
Proof.
  revert ds rest. induction s as [|c s IH]; cbn [span_digits]; intros ds rest H.
  - injection H as <- <-. simpl. lia.
  - destruct (is_ascii_digit c).
    + destruct (span_digits s) as [ds' rest'] eqn:E. injection H as <- <-.
      specialize (IH _ _ eq_refl). simpl. lia.
    + injection H as <- <-. simpl. lia.
Qed.

Ltac use_span_digits :=
  repeat match goal with
  | H : span_digits _ = (_, _) |- _ => apply span_digits_length in H
  end.

Ltac open_pairs :=
  repeat match goal with
  | H : (_, _) = (_, _) |- _ => injection H as ? ?
  end.

Lemma match_number_shorter w s v rest :
  match_number w s = Parsed v rest -> (length rest < length s)%nat.
Proof.
  unfold match_number, number_sign, number_integer, number_fraction, number_exponent.
  intros H. split_everywhere;
    simplify_eq; use_span_digits; cbn [length] in *; lia.
Qed.

(** The decoder raises nothing but what [int] raises. *)
Lemma match_number_failed w s e : match_number w s = Failed e -> e = ValueError.
Proof.
  unfold match_number. intros H. split_everywhere; congruence.
Qed.

Lemma after_prefix_length lit s rest :
  after_prefix lit s = Some rest -> length s = (length lit + length rest)%nat.
Proof.
  revert s. induction lit as [|x lit IH]; intros [|y s] H; simpl in H; try discriminate.
  - injection H as <-. reflexivity.
  - injection H as <-. reflexivity.
  - destruct (N.eqb x y); [|discriminate]. apply IH in H. simpl. lia.
Qed.

Lemma literal_or_number_shorter w s v rest :
  literal_or_number w s = Parsed v rest -> (length rest < length s)%nat.
Proof.
  unfold literal_or_number. intros H. split_everywhere; simplify_eq;
    repeat match goal with
    | H : after_prefix _ _ = Some _ |- _ => apply after_prefix_length in H; cbn [py length] in H
    | H : match_number _ _ = Parsed _ _ |- _ => apply match_number_shorter in H
    end; cbn [length] in *; lia.
Qed.

Lemma literal_or_number_failed w s e : literal_or_number w s = Failed e -> e = ValueError.
Proof.
  unfold literal_or_number. intros H. split_everywhere; simplify_eq;
    eauto using match_number_failed.
Qed.

Ltac use_lengths IH :=
  repeat match goal with
  | H : skip_whitespace ?x = _ |- _ =>
      let L := fresh "L" in
      pose proof (skip_whitespace_length x) as L; rewrite H in L; clear H
  | H : scanstring _ _ = Some _ |- _ => apply scanstring_shorter in H
  | H : literal_or_number _ _ = Parsed _ _ |- _ => apply literal_or_number_shorter in H
  | H : scan_once _ _ _ _ = Parsed _ _ |- _ => apply IH in H
  | H : parse_array _ _ _ _ _ = Parsed _ _ |- _ => apply IH in H
  | H : parse_object _ _ _ _ _ = Parsed _ _ |- _ => apply IH in H
  end.

Lemma parse_shorter w fuel :
  (forall room s v rest,
     scan_once w fuel room s = Parsed v rest -> (length rest < length s)%nat) /\
  (forall room acc s v rest,
     parse_array w fuel room acc s = Parsed v rest -> (length rest < length s)%nat) /\
  (forall room acc s v rest,
     parse_object w fuel room acc s = Parsed v rest -> (length rest < length s)%nat).
Proof.
  induction fuel as [|fuel (IHs & IHa & IHo)]; [repeat split; intros; discriminate|].
  repeat split.
  - intros room s v rest H. cbn [scan_once] in H.
    split_everywhere; simplify_eq.
    all: repeat match goal with
         | H : scan_once _ _ _ _ = Parsed _ _ |- _ => apply IHs in H
         | H : parse_array _ _ _ _ _ = Parsed _ _ |- _ => apply IHa in H
         | H : parse_object _ _ _ _ _ = Parsed _ _ |- _ => apply IHo in H
         end; use_lengths IHs; cbn [length] in *; lia.
  - intros room acc s v rest H. cbn [parse_array] in H.
    destruct (scan_once w fuel room s) as [v0 rest0| | |] eqn:E; try discriminate.
    apply IHs in E. pose proof (skip_whitespace_length rest0) as L.
    destruct (skip_whitespace rest0) as [|c r]; [discriminate|].
    destruct (N.eqb c 93); [simplify_eq; cbn [length] in *; lia|].
    destruct (N.eqb c 44); [|discriminate].
    apply IHa in H. pose proof (skip_whitespace_length r). cbn [length] in *. lia.
  - intros room acc s v rest H. cbn [parse_object] in H.
    split_everywhere; simplify_eq.
    all: repeat match goal with
         | H : scan_once _ _ _ _ = Parsed _ _ |- _ => apply IHs in H
         | H : parse_object _ _ _ _ _ = Parsed _ _ |- _ => apply IHo in H
         end;
         repeat match goal with
         | |- context [skip_whitespace ?x] => fail
         | H : context [skip_whitespace ?x] |- _ =>
             lazymatch goal with
             | _ : (length (skip_whitespace x) <= length x)%nat |- _ => fail
             | _ => pose proof (skip_whitespace_length x)
             end
         end;
         repeat match goal with
         | H : skip_whitespace ?x = _ |- _ => rewrite H in *
         end;
         use_lengths IHs; cbn [length] in *; lia.
Qed.

Ltac note_whitespace :=
  repeat match goal with
  | H : context [skip_whitespace ?x] |- _ =>
      lazymatch goal with
      | _ : (length (skip_whitespace x) <= length x)%nat |- _ => fail
      | _ => pose proof (skip_whitespace_length x)
      end
  end.

Ltac use_shorter :=
  repeat match goal with
  | H : scanstring _ _ = Some _ |- _ => apply scanstring_shorter in H
  | H : scan_once _ _ _ _ = Parsed _ _ |- _ => apply parse_shorter in H
  | H : parse_array _ _ _ _ _ = Parsed _ _ |- _ => apply parse_shorter in H
  | H : parse_object _ _ _ _ _ = Parsed _ _ |- _ => apply parse_shorter in H
  end.

Ltac starved_by IHs IHa IHo :=
  note_whitespace; use_shorter;
  match goal with
  | H : parse_object _ _ _ _ _ = Starved |- _ => revert H; apply IHo
  | H : parse_array _ _ _ _ _ = Starved |- _ => revert H; apply IHa
  | H : scan_once _ _ _ _ = Starved |- _ => revert H; apply IHs
  end;
  repeat match goal with H : skip_whitespace _ = _ |- _ => rewrite H in * end;
  cbn [length] in *; lia.

Lemma literal_or_number_fed w s : literal_or_number w s <> Starved.
Proof.
  unfold literal_or_number, match_number. intros H. split_everywhere.
Qed.

Lemma parse_fed w fuel :
  (forall room s, (2 * length s < fuel)%nat -> scan_once w fuel room s <> Starved) /\
  (forall room acc s,
     (2 * length s + 1 < fuel)%nat -> parse_array w fuel room acc s <> Starved) /\
  (forall room acc s,
     (2 * length s + 1 < fuel)%nat -> parse_object w fuel room acc s <> Starved).
Proof.
  induction fuel as [|fuel (IHs & IHa & IHo)]; [repeat split; intros; lia|].
  repeat split.
  - intros room s Hs H. cbn [scan_once] in H.
    split_everywhere; simplify_eq;
      first [ solve [eapply literal_or_number_fed; eauto]
            | starved_by IHs IHa IHo ].
  - intros room acc s Hs H. cbn [parse_array] in H.
    split_everywhere; simplify_eq; starved_by IHs IHa IHo.
  - intros room acc s Hs H. cbn [parse_object] in H.
    split_everywhere; simplify_eq; starved_by IHs IHa IHo.
Qed.

(** [loads] gives its decoder all the fuel it can use. *)
Lemma loads_never_starved w room s :
  scan_once w (2 * length s + 2) room (skip_whitespace s) <> Starved.
Proof.
  apply parse_fed. pose proof (skip_whitespace_length s). lia.
Qed.

Lemma parse_array_list w fuel room acc s v rest :
  parse_array w fuel room acc s = Parsed v rest -> exists l, v = PList l.
Proof.
  revert acc s. induction fuel as [|fuel IH]; intros acc s H; [discriminate|].
  cbn [parse_array] in H.
  destruct (scan_once w fuel room s) as [v0 rest0| | |]; try discriminate.
  destruct (skip_whitespace rest0) as [|c r]; [discriminate|].
  destruct (N.eqb c 93); [injection H as <- _; eauto|].
  destruct (N.eqb c 44); [|discriminate]. eauto.
Qed.

Lemma scan_once_bracket w fuel room s v rest :
  scan_once w fuel room (91%N :: s) = Parsed v rest -> exists l, v = PList l.
Proof.
  destruct fuel as [|fuel]; [discriminate|].
  cbn [scan_once]. change (N.eqb 91 34) with false.
  change (N.eqb 91 123) with false. change (N.eqb 91 91) with true.
  cbv beta iota.
  destruct room as [|room]; [discriminate|].
  destruct (skip_whitespace s) as [|c r]; [discriminate|].
  destruct (N.eqb c 93); [intros E; injection E as <- _; eauto|].
  apply parse_array_list.
Qed.

Lemma loads_bracket w s v : loads w (91%N :: s) = Ok v -> exists l, v = PList l.
Proof.
  unfold loads. change (skip_whitespace (91%N :: s)) with (91%N :: s).
  destruct (scan_once _ _ _ _) as [v0 rest| | |] eqn:E; try discriminate.
  intros H. assert (v0 = v) as -> by (destruct (skip_whitespace rest); congruence).
  eapply scan_once_bracket; eauto.
Qed.

Lemma star_loop_inv {A} (body : str -> (str -> option A) -> option A) k n s a :
  (forall s k a, body s k = Some a ->
     exists rest, k rest = Some a /\ (length rest <= length s)%nat) ->
  star_loop body k n s = Some a ->
  exists rest, k rest = Some a /\ (length rest <= length s)%nat.
Proof.
  intros Hbody. revert s. induction n as [|n IH]; intros s H; cbn [star_loop] in H.
  - eauto.
  - destruct (body s _) as [a'|] eqn:E.
    + injection H as ->. apply Hbody in E as (rest & E & Hl).
      destruct (length rest <? length s)%nat; [|discriminate].
      apply IH in E as (rest' & E & Hl'). exists rest'. split; [exact E | lia].
    + eauto.
Qed.

(** What a match leaves is never longer than what it started from. *)
Lemma rmatch_inv {A} r s (k : str -> option A) a :
  rmatch r s k = Some a ->
  exists rest, k rest = Some a /\ (length rest <= length s)%nat.
Proof.
  revert s k a. induction r as [|c|p|r1 IH1 r2 IH2|r1 IH1 r2 IH2|r1 IH1];
    intros s k a H; cbn [rmatch] in H.
  - eauto.
  - destruct s as [|x s']; [discriminate|]. destruct (N.eqb x c); [|discriminate].
    exists s'. split; [exact H | simpl; lia].
  - destruct s as [|x s']; [discriminate|]. destruct (p x); [|discriminate].
    exists s'. split; [exact H | simpl; lia].
  - apply IH1 in H as (mid & H & Hl). apply IH2 in H as (rest & H & Hl').
    exists rest. split; [exact H | lia].
  - destruct (rmatch r1 s k) eqn:E.
    + injection H as ->. eauto.
    + eauto.
  - eapply star_loop_inv; [|exact H]. intros; eauto.
Qed.

Lemma match_len_bound r s n : match_len r s = Some n -> (n <= length s)%nat.
Proof.
  unfold match_len. intros H. apply rmatch_inv in H as (rest & H & _).
  injection H as <-. lia.
Qed.

Lemma json_array_match_len w s n :
  match_len (json_array_pattern w) s = Some n ->
  exists s', s = 91%N :: s' /\ (1 <= n)%nat.
Proof.
  unfold match_len, json_array_pattern. cbn [rmatch].
  destruct s as [|x s']; [discriminate|].
  destruct (N.eqb x (ch "[")) eqn:E; [|discriminate].
  apply N.eqb_eq in E. subst x. intros H.
  change (star_loop _ _ _ _) with
    (rmatch (Star (re_any w)) s'
       (fun s'0 => rmatch (Chr (ch "]")) s'0
          (fun rest => Some (length (ch "[" :: s') - length rest)%nat))) in H.
  apply rmatch_inv in H as (mid & H & Hl). apply rmatch_inv in H as (rest & H & Hl').
  injection H as <-. exists s'. split; [reflexivity | simpl; lia].
Qed.

Lemma json_array_search w s m :
  re_search (json_array_pattern w) s = Some m -> exists m', m = 91%N :: m'.
Proof.
  induction s as [|c s IH]; cbn [re_search].
  - destruct (match_len _ []) eqn:E; [|discriminate].
    apply json_array_match_len in E as (? & ? & _). discriminate.
  - destruct (match_len _ (c :: s)) as [n|] eqn:E; [|exact IH].
    apply json_array_match_len in E as (s' & E & Hn). injection E as -> ->.
    intros H. injection H as <-. destruct n; [lia|]. simpl. eauto.
Qed.

(** What the endpoints parse out of the accumulated text is a list. *)
Lemma parse_accumulated_list w accumulated_content results_sent data :
  parse_accumulated w accumulated_content results_sent = Ok (Some data) ->
  exists l, data = PList l.
Proof.
  unfold parse_accumulated.
  destruct (re_search _ _) as [m|] eqn:E; [|discriminate].
  apply json_array_search in E as (m' & ->).
  destruct results_sent; [discriminate|]. cbn [negb].
  destruct (loads w (91%N :: m')) eqn:L; [|discriminate].
  intros H. injection H as <-. eapply loads_bracket; eauto.
Qed.

(** What the decoder raises underneath: [ValueError] of [int] and
    [RecursionError] of the interpreter. *)
Lemma parse_failed w fuel :
  (forall room s e,
     scan_once w fuel room s = Failed e -> e = ValueError \/ e = RecursionError) /\
  (forall room acc s e,
     parse_array w fuel room acc s = Failed e -> e = ValueError \/ e = RecursionError) /\
  (forall room acc s e,
     parse_object w fuel room acc s = Failed e -> e = ValueError \/ e = RecursionError).
Proof.
  induction fuel as [|fuel (IHs & IHa & IHo)]; [repeat split; intros; discriminate|].
  repeat split.
  - intros room s e H. cbn [scan_once] in H.
    split_everywhere; simplify_eq; eauto using literal_or_number_failed.
  - intros room acc s e H. cbn [parse_array] in H.
    split_everywhere; simplify_eq; eauto.
  - intros room acc s e H. cbn [parse_object] in H.
    split_everywhere; simplify_eq; eauto.
Qed.

Lemma loads_raises w s e :
  loads w s = Raise e -> e = JSONDecodeError \/ e = ValueError \/ e = RecursionError.
Proof.
  unfold loads.
  destruct (scan_once _ _ _ _) as [v rest| |e'|] eqn:E.
  - destruct (skip_whitespace rest); intros H; [discriminate | left; congruence].
  - left. congruence.
  - intros H. right. injection H as <-. eapply (proj1 (parse_failed w _)), E.
  - left. congruence.
Qed.

(** The exceptions of the parse are those of [json.loads]. *)
Lemma parse_accumulated_raises w accumulated_content results_sent e :
  parse_accumulated w accumulated_content results_sent = Raise e ->
  e = JSONDecodeError \/ e = ValueError \/ e = RecursionError.
Proof.
  unfold parse_accumulated.
  destruct (re_search _ _) as [m|]; [|discriminate].
  destruct results_sent; [discriminate|]. cbn [negb].
  destruct (loads w m) as [v|e'] eqn:E; cbn; [discriminate|].
  intros H. injection H as <-. eapply loads_raises, E.
Qed.

(** ** The decoder on a text that grows

    The search stream parses its accumulated text after every chunk.  What
    it parses is the match of the array pattern, which ends with a closing
    bracket; on such a text a value the decoder gave, and an exception it
    raised, stay as they are when more text follows. *)

(** More fuel changes nothing once there was enough. *)
Lemma parse_more_fuel w fuel :
  (forall room s fuel', (fuel <= fuel')%nat ->
     scan_once w fuel room s <> Starved ->
     scan_once w fuel' room s = scan_once w fuel room s) /\
  (forall room acc s fuel', (fuel <= fuel')%nat ->
     parse_array w fuel room acc s <> Starved ->
     parse_array w fuel' room acc s = parse_array w fuel room acc s) /\
  (forall room acc s fuel', (fuel <= fuel')%nat ->
     parse_object w fuel room acc s <> Starved ->
     parse_object w fuel' room acc s = parse_object w fuel room acc s).
Proof.
  induction fuel as [|fuel (IHs & IHa & IHo)];
    [repeat split; intros; cbn in *; congruence|].
  repeat split.
  - intros room s [|fuel'] Hf H; [lia|]. cbn [scan_once] in *.
    destruct s as [|c s']; [reflexivity|].
    destruct (N.eqb c 34); [reflexivity|].
    destruct (N.eqb c 123).
    { destruct room as [|room']; [reflexivity|].
      destruct (skip_whitespace s') as [|c' rest]; [reflexivity|].
      destruct (N.eqb c' 125); [reflexivity|]. apply IHo; [lia | exact H]. }
    destruct (N.eqb c 91); [|reflexivity].
    destruct room as [|room']; [reflexivity|].
    destruct (skip_whitespace s') as [|c' rest]; [reflexivity|].
    destruct (N.eqb c' 93); [reflexivity|]. apply IHa; [lia | exact H].
  - intros room acc s [|fuel'] Hf H; [lia|]. cbn [parse_array] in *.
    rewrite (IHs room s fuel') by (lia || (intros E; rewrite E in H; congruence)).
    destruct (scan_once w fuel room s) as [v rest| | |]; try reflexivity.
    destruct (skip_whitespace rest) as [|c rest']; [reflexivity|].
    destruct (N.eqb c 93); [reflexivity|].
    destruct (N.eqb c 44); [|reflexivity]. apply IHa; [lia | exact H].
  - intros room acc s [|fuel'] Hf H; [lia|]. cbn [parse_object] in *.
    destruct s as [|q s1]; [reflexivity|].
    destruct (N.eqb q 34); [|reflexivity].
    destruct (scanstring [] s1) as [[key s2]|]; [|reflexivity].
    destruct (skip_whitespace s2) as [|colon s3]; [reflexivity|].
    destruct (N.eqb colon 58); [|reflexivity].
    rewrite (IHs room (skip_whitespace s3) fuel')
      by (lia || (intros E; rewrite E in H; congruence)).
    destruct (scan_once w fuel room (skip_whitespace s3)) as [v rest| | |]; try reflexivity.
    destruct (skip_whitespace rest) as [|c rest']; [reflexivity|].
    destruct (N.eqb c 125); [reflexivity|].
    destruct (N.eqb c 44); [|reflexivity]. apply IHo; [lia | exact H].
Qed.

(** *** Closed texts *)

Lemma closed_not_nil : ~ closed [].
Proof. intros [s0 H]. destruct s0; discriminate H. Qed.

Lemma closed_cons c s : closed (c :: s) -> (c = closing_bracket /\ s = []) \/ closed s.
Proof.
  intros [s0 H]. destruct s0 as [|x s0]; simpl in H; injection H as -> ->.
  - left. split; reflexivity.
  - right. exists s0. reflexivity.
Qed.

Lemma closed_suffix p r : closed (p ++ r) -> r = [] \/ closed r.
Proof.
  induction p as [|c p IH]; simpl; intros H; [right; exact H|].
  apply closed_cons in H as [[_ H] | H]; [|auto].
  left. apply app_eq_nil in H as [_ H]. exact H.
Qed.

Lemma closed_suffix_of rest s : suffix rest s -> closed s -> rest = [] \/ closed rest.
Proof. intros [p ->]. apply closed_suffix. Qed.

Lemma closed_app p s : closed s -> closed (p ++ s).
Proof. intros [s0 ->]. exists (p ++ s0). rewrite app_assoc. reflexivity. Qed.

(** In a closed text, a character that is no closing bracket is not the
    last one. *)
Ltac no_bracket :=
  match goal with
  | E : _ = true |- _ => solve [vm_compute in E; discriminate E]
  end.

Ltac closed_tail H :=
  apply closed_cons in H as [[? ?] | H];
  [first [ match goal with E : _ :: _ = [] |- _ => discriminate E end
         | subst; no_bracket ] |].

Lemma skip_whitespace_ext s t :
  closed s ->
  skip_whitespace (s ++ t) = skip_whitespace s ++ t /\ closed (skip_whitespace s).
Proof.
  induction s as [|c s IH]; intros H; [destruct (closed_not_nil H)|].
  cbn [app skip_whitespace]. destruct (is_json_whitespace c) eqn:E.
  - closed_tail H. auto.
  - split; [reflexivity | exact H].
Qed.

Lemma span_digits_ext s t :
  closed s ->
  span_digits (s ++ t) = (fst (span_digits s), snd (span_digits s) ++ t) /\
  closed (snd (span_digits s)).
Proof.
  induction s as [|c s IH]; intros H; [destruct (closed_not_nil H)|].
  cbn [app span_digits]. destruct (is_ascii_digit c) eqn:E.
  - closed_tail H. destruct (IH H) as [-> Hc].
    destruct (span_digits s) as [ds rest]. split; [reflexivity | exact Hc].
  - split; [reflexivity | exact H].
Qed.

Lemma number_sign_ext s t :
  closed s ->
  number_sign (s ++ t) = (fst (number_sign s), snd (number_sign s) ++ t) /\
  closed (snd (number_sign s)).
Proof.
  intros H. destruct s as [|c s]; [destruct (closed_not_nil H)|].
  cbn [app number_sign]. destruct (N.eqb c 45) eqn:E.
  - closed_tail H. split; [reflexivity | exact H].
  - split; [reflexivity | exact H].
Qed.

Lemma number_integer_ext s t :
  closed s ->
  number_integer (s ++ t) = (fun dr => (fst dr, snd dr ++ t)) <$> number_integer s /\
  forall ds rest, number_integer s = Some (ds, rest) -> closed rest.
Proof.
  intros H. destruct s as [|c s]; [destruct (closed_not_nil H)|].
  cbn [app number_integer]. destruct (between 49 57 c) eqn:E.
  - closed_tail H. destruct (span_digits_ext s t H) as [-> Hc].
    destruct (span_digits s) as [ds rest]. split; [reflexivity|].
    intros ? ? [= <- <-]. exact Hc.
  - destruct (N.eqb c 48) eqn:E'.
    + closed_tail H. split; [reflexivity|]. intros ? ? [= <- <-]. exact H.
    + split; [reflexivity | discriminate].
Qed.

Lemma number_fraction_ext s t :
  closed s ->
  number_fraction (s ++ t) = (fst (number_fraction s), snd (number_fraction s) ++ t) /\
  closed (snd (number_fraction s)).
Proof.
  intros H. destruct s as [|dot [|d s]]; [destruct (closed_not_nil H)| |].
  - apply closed_cons in H as [[-> _] | H]; [|destruct (closed_not_nil H)].
    split; [|exists []; reflexivity].
    destruct t as [|d t]; reflexivity.
  - cbn [app number_fraction].
    destruct (N.eqb dot 46 && is_ascii_digit d) eqn:E.
    + apply andb_prop in E as [E1 E2]. closed_tail H. closed_tail H.
      destruct (span_digits_ext s t H) as [-> Hc].
      destruct (span_digits s) as [ds rest]. split; [reflexivity | exact Hc].
    + split; [reflexivity | exact H].
Qed.

Lemma number_exponent_ext s t :
  closed s ->
  number_exponent (s ++ t) = (fst (number_exponent s), snd (number_exponent s) ++ t) /\
  closed (snd (number_exponent s)).
Proof.
  intros H. destruct s as [|e s]; [destruct (closed_not_nil H)|].
  cbn [app number_exponent]. destruct (N.eqb e 101 || N.eqb e 69) eqn:E.
  - pose proof H as H0. closed_tail H.
    destruct s as [|c s']; [destruct (closed_not_nil H)|].
    cbn [app]. destruct (N.eqb c 45 || N.eqb c 43) eqn:E'.
    + closed_tail H. destruct (span_digits_ext s' t H) as [-> Hc].
      destruct (span_digits s') as [ds rest]. cbn [fst snd] in *.
      destruct ds; (split; [reflexivity | assumption]).
    + change (c :: s' ++ t) with ((c :: s') ++ t).
      destruct (span_digits_ext (c :: s') t H) as [-> Hc].
      destruct (span_digits (c :: s')) as [ds rest]. cbn [fst snd] in *.
      destruct ds; (split; [reflexivity | assumption]).
  - split; [reflexivity | exact H].
Qed.

Lemma match_number_ext w s t :
  closed s ->
  match_number w (s ++ t) = grow t (match_number w s) /\
  forall v rest, match_number w s = Parsed v rest -> closed rest.
Proof.
  intros H. unfold match_number.
  destruct (number_sign_ext s t H) as [-> H1].
  destruct (number_sign s) as [sign s1]. cbn [fst snd] in *.
  destruct (number_integer_ext s1 t H1) as [-> H2].
  destruct (number_integer s1) as [[int_digits s3]|]; cbn [fmap option_fmap option_map fst snd];
    [|split; [reflexivity | discriminate]].
  specialize (H2 _ _ eq_refl).
  destruct (number_fraction_ext s3 t H2) as [-> H3].
  destruct (number_fraction s3) as [frac s4]. cbn [fst snd] in *.
  destruct (number_exponent_ext s4 t H3) as [-> H4].
  destruct (number_exponent s4) as [expo s5]. cbn [fst snd] in *.
  destruct frac, expo; try destruct (int_too_long w int_digits);
    (split; [reflexivity|]); intros ? ? [= <- <-] || discriminate; exact H4.
Qed.

Lemma after_prefix_ext lit s t :
  closed s -> bracket_free lit = true ->
  after_prefix lit (s ++ t) = (fun rest => rest ++ t) <$> after_prefix lit s /\
  forall rest, after_prefix lit s = Some rest -> closed rest.
Proof.
  revert s. induction lit as [|x lit IH]; intros s H Hl.
  - destruct s; (split; [reflexivity|]); intros ? [= <-]; exact H.
  - destruct s as [|y s]; [destruct (closed_not_nil H)|].
    cbn [app after_prefix]. cbn [bracket_free forallb] in Hl.
    apply andb_prop in Hl as [Hx Hl].
    destruct (N.eqb x y) eqn:E; [|split; [reflexivity | discriminate]].
    apply N.eqb_eq in E. subst y.
    apply closed_cons in H as [[-> _] | H]; [discriminate Hx|].
    apply IH; assumption.
Qed.

Lemma literal_ext w lit v s t :
  closed s -> bracket_free lit = true ->
  match after_prefix lit (s ++ t) with
  | Some rest => Parsed v rest
  | None => match_number w (s ++ t)
  end =
  grow t match after_prefix lit s with
         | Some rest => Parsed v rest
         | None => match_number w s
         end /\
  forall v' rest,
    match after_prefix lit s with
    | Some rest => Parsed v rest
    | None => match_number w s
    end = Parsed v' rest -> closed rest.
Proof.
  intros H Hl. destruct (after_prefix_ext lit s t H Hl) as [-> Hc].
  destruct (after_prefix lit s) as [rest|]; cbn [fmap option_fmap option_map].
  - split; [reflexivity|]. intros ? ? [= <- <-]. auto.
  - apply match_number_ext, H.
Qed.

Lemma literal_or_number_ext w s t :
  closed s ->
  literal_or_number w (s ++ t) = grow t (literal_or_number w s) /\
  forall v rest, literal_or_number w s = Parsed v rest -> closed rest.
Proof.
  intros H. destruct s as [|c s]; [destruct (closed_not_nil H)|].
  unfold literal_or_number. cbn [app]. cbv zeta.
  change (c :: s ++ t) with ((c :: s) ++ t).
  repeat match goal with
  | |- context [if ?b then _ else _] => destruct b
  end;
  first [ apply literal_ext; [exact H | reflexivity]
        | apply match_number_ext, H ].
Qed.

Ltac suffix_from H := first [exact H | reflexivity | apply suffix_cons_r; suffix_from H].

(** A string that ends in the text ends in the same place when more text
    follows. *)
Lemma scanstring_ext_fuel n s acc v rest t :
  (length s <= n)%nat -> scanstring acc s = Some (v, rest) ->
  scanstring acc (s ++ t) = Some (v, rest ++ t) /\ suffix rest s.
Proof.
  revert s acc t. induction n as [|n IH]; intros s acc t Hn H.
  - destruct s; [discriminate | simpl in Hn; lia].
  - destruct s as [|c s1]; [discriminate|].
    cbn [scanstring] in H. cbn [app scanstring].
    repeat (first [discriminate H | split_match H; cbn [app]; cbv beta iota]).
    all: cbn [length] in Hn.
    all: repeat match goal with
         | |- context [match ?x with _ => _ end] => destruct x eqn:?
         end.
    all: try solve [injection H as <- <-; split; [reflexivity | suffix_from I]].
    all: try solve [eapply IH in H; [|cbn [length]; lia];
                    destruct H as [H Hs]; split; [exact H | suffix_from Hs]].
    all: try solve [repeat match goal with
                    | E : (_ && _) = true |- _ => apply andb_prop in E as [? ?]
                    | E : N.eqb _ _ = true |- _ => apply N.eqb_eq in E; subst
                    end; cbn in H; discriminate H].
Qed.

Lemma scanstring_ext s acc v rest t :
  scanstring acc s = Some (v, rest) ->
  scanstring acc (s ++ t) = Some (v, rest ++ t) /\ suffix rest s.
Proof. apply (scanstring_ext_fuel (length s)). lia. Qed.

Lemma extends_to_grow t r r' :
  r' = grow t r -> (forall v rest, r = Parsed v rest -> rest = [] \/ closed rest) ->
  extends_to t r r'.
Proof. intros -> H. destruct r; cbn; eauto. Qed.

(** A value the decoder gave for a closed text, and an exception it raised
    there, are the same when more text follows. *)
Lemma parse_ext w t fuel :
  (forall room s, closed s ->
     extends_to t (scan_once w fuel room s) (scan_once w fuel room (s ++ t))) /\
  (forall room acc s, closed s ->
     extends_to t (parse_array w fuel room acc s) (parse_array w fuel room acc (s ++ t))) /\
  (forall room acc s, closed s ->
     extends_to t (parse_object w fuel room acc s) (parse_object w fuel room acc (s ++ t))).
Proof.
  induction fuel as [|fuel (IHs & IHa & IHo)]; [repeat split; intros; exact I|].
  repeat split.
  - intros room s H. destruct s as [|c s']; [destruct (closed_not_nil H)|].
    cbn [app scan_once]. destruct (N.eqb c 34) eqn:E34.
    { closed_tail H. destruct (scanstring [] s') as [[v rest]|] eqn:E; [|exact I].
      destruct (scanstring_ext _ _ _ _ t E) as [-> Hs].
      split; [reflexivity | eapply closed_suffix_of; eauto]. }
    destruct (N.eqb c 123) eqn:E123.
    { destruct room as [|room']; [reflexivity|]. closed_tail H.
      destruct (skip_whitespace_ext s' t H) as [-> Hc].
      destruct (skip_whitespace s') as [|c' rest]; [destruct (closed_not_nil Hc)|].
      cbn [app]. destruct (N.eqb c' 125) eqn:E125.
      - closed_tail Hc. split; [reflexivity | right; exact Hc].
      - apply (IHo room' [] (c' :: rest) Hc). }
    destruct (N.eqb c 91) eqn:E91.
    { destruct room as [|room']; [reflexivity|].
      apply closed_cons in H as [[-> ->] | H]; [exact I|].
      destruct (skip_whitespace_ext s' t H) as [-> Hc].
      destruct (skip_whitespace s') as [|c' rest]; [destruct (closed_not_nil Hc)|].
      cbn [app]. destruct (N.eqb c' 93) eqn:E93.
      - split; [reflexivity|].
        apply closed_cons in Hc as [[_ ->] | Hc]; auto.
      - apply (IHa room' [] (c' :: rest) Hc). }
    change (c :: s' ++ t) with ((c :: s') ++ t).
    destruct (literal_or_number_ext w (c :: s') t H) as [E Hc].
    apply extends_to_grow; [exact E | eauto].
  - intros room acc s H. cbn [parse_array].
    pose proof (IHs room s H) as Hv.
    destruct (scan_once w fuel room s) as [v rest| |e|]; cbn [extends_to] in Hv |- *;
      [|exact I|rewrite Hv; reflexivity|exact I].
    destruct Hv as [-> [-> | Hr]]; [exact I|].
    destruct (skip_whitespace_ext rest t Hr) as [-> Hc].
    destruct (skip_whitespace rest) as [|c rest']; [destruct (closed_not_nil Hc)|].
    cbn [app]. destruct (N.eqb c 93) eqn:E93.
    { split; [reflexivity|]. apply closed_cons in Hc as [[_ ->] | Hc]; auto. }
    destruct (N.eqb c 44) eqn:E44; [|exact I].
    closed_tail Hc. destruct (skip_whitespace_ext rest' t Hc) as [-> Hc'].
    apply IHa, Hc'.
  - intros room acc s H. cbn [parse_object].
    destruct s as [|q s1]; [destruct (closed_not_nil H)|].
    cbn [app]. destruct (N.eqb q 34) eqn:E34; [|exact I].
    closed_tail H. destruct (scanstring [] s1) as [[key s2]|] eqn:E; [|exact I].
    destruct (scanstring_ext _ _ _ _ t E) as [-> Hs].
    destruct (closed_suffix_of _ _ Hs H) as [-> | H2]; [exact I|].
    destruct (skip_whitespace_ext s2 t H2) as [-> Hc].
    destruct (skip_whitespace s2) as [|colon s3]; [destruct (closed_not_nil Hc)|].
    cbn [app]. destruct (N.eqb colon 58) eqn:E58; [|exact I].
    closed_tail Hc. destruct (skip_whitespace_ext s3 t Hc) as [-> Hc3].
    pose proof (IHs room _ Hc3) as Hv.
    destruct (scan_once w fuel room (skip_whitespace s3)) as [v rest| |e|];
      cbn [extends_to] in Hv |- *; [|exact I|rewrite Hv; reflexivity|exact I].
    destruct Hv as [-> [-> | Hr]]; [exact I|].
    destruct (skip_whitespace_ext rest t Hr) as [-> Hc4].
    destruct (skip_whitespace rest) as [|c rest']; [destruct (closed_not_nil Hc4)|].
    cbn [app]. destruct (N.eqb c 125) eqn:E125.
    { closed_tail Hc4. split; [reflexivity | right; exact Hc4]. }
    destruct (N.eqb c 44) eqn:E44; [|exact I].
    closed_tail Hc4. destruct (skip_whitespace_ext rest' t Hc4) as [-> Hc5].
    apply IHo, Hc5.
Qed.

(** An exception [json.loads] raised from underneath the decoder on a closed
    text is raised again when more text follows. *)
Lemma loads_ext w m t e :
  closed m -> loads w m = Raise e -> e <> JSONDecodeError -> loads w (m ++ t) = Raise e.
Proof.
  intros H Hl He. unfold loads in *.
  destruct (skip_whitespace_ext m t H) as [-> Hc].
  destruct (scan_once w (2 * length m + 2) _ (skip_whitespace m)) as [v rest| |e'|] eqn:E;
    [destruct (skip_whitespace rest)|..]; try congruence.
  injection Hl as ->.
  pose proof (proj1 (parse_ext w t (2 * length m + 2)) (2 + nesting_headroom w)%nat _ Hc) as Hx.
  rewrite E in Hx. cbn [extends_to] in Hx.
  rewrite (proj1 (parse_more_fuel w (2 * length m + 2))).
  - rewrite Hx. reflexivity.
  - rewrite length_app. lia.
  - rewrite Hx. discriminate.
Qed.

(** *** The array pattern on a text that grows *)

Lemma after_last_bracket_app a b :
  after_last_bracket (a ++ b) =
  match after_last_bracket b with
  | Some rest => Some rest
  | None => (fun rest => rest ++ b) <$> after_last_bracket a
  end.
Proof.
  induction a as [|c a IH]; cbn [app after_last_bracket].
  - destruct (after_last_bracket b); reflexivity.
  - rewrite IH. destruct (after_last_bracket b) as [rest|]; [reflexivity|].
    destruct (after_last_bracket a); cbn; [reflexivity|].
    destruct (N.eqb c closing_bracket); reflexivity.
Qed.

Lemma after_last_bracket_spec s rest :
  after_last_bracket s = Some rest -> exists p, s = p ++ closing_bracket :: rest.
Proof.
  revert rest. induction s as [|c s IH]; intros rest H; [discriminate|].
  cbn [after_last_bracket] in H.
  destruct (after_last_bracket s) as [r|].
  - injection H as ->. destruct (IH _ eq_refl) as [p ->]. exists (c :: p). reflexivity.
  - destruct (N.eqb c closing_bracket) eqn:E; [|discriminate].
    apply N.eqb_eq in E. injection H as ->. exists []. subst c. reflexivity.
Qed.

(** The star of the pattern runs to the last closing bracket. *)
Lemma star_any_bracket w {A} (k : str -> option A) n s :
  (forall rest, is_Some (k rest)) -> (length s <= n)%nat ->
  star_loop (rmatch (re_any w)) (fun s' => rmatch (Chr (ch "]")) s' k) n s =
  match after_last_bracket s with
  | Some rest => k rest
  | None => None
  end.
Proof.
  intros Hk. revert s. induction n as [|n IH]; intros s Hn.
  - destruct s; [reflexivity | simpl in Hn; lia].
  - destruct s as [|c s']; [reflexivity|].
    cbn [star_loop rmatch re_any after_last_bracket].
    rewrite orb_negb_r.
    assert ((length s' <? length (c :: s'))%nat = true) as ->
      by (apply Nat.ltb_lt; simpl; lia).
    rewrite IH by (simpl in Hn; lia).
    destruct (after_last_bracket s') as [rest|].
    + destruct (Hk rest) as [a ->]. reflexivity.
    + change (ch "]") with closing_bracket.
      destruct (N.eqb c closing_bracket); reflexivity.
Qed.

Lemma json_array_match_len_eq w c s :
  match_len (json_array_pattern w) (c :: s) =
  if N.eqb c opening_bracket then
    match after_last_bracket s with
    | Some rest => Some (length (c :: s) - length rest)%nat
    | None => None
    end
  else None.
Proof.
  unfold match_len, json_array_pattern. cbn [rmatch].
  change (ch "[") with opening_bracket.
  destruct (N.eqb c opening_bracket); [|reflexivity].
  apply star_any_bracket; [eauto | lia].
Qed.

Lemma json_array_match_len_nil w : match_len (json_array_pattern w) [] = None.
Proof. reflexivity. Qed.

(** A text with a match has a closing bracket. *)
Lemma json_array_search_bracket w s m :
  re_search (json_array_pattern w) s = Some m -> is_Some (after_last_bracket s).
Proof.
  induction s as [|c s IH]; cbn [re_search].
  - rewrite json_array_match_len_nil. discriminate.
  - rewrite json_array_match_len_eq. cbn [after_last_bracket].
    destruct (N.eqb c opening_bracket).
    + destruct (after_last_bracket s); [eauto|]. intros H. apply IH in H as [? [=]].
    + intros H. apply IH in H as [rest ->]. eauto.
Qed.

Lemma take_before_rest (a rest : str) :
  take (length (a ++ rest) - length rest) (a ++ rest) = a.
Proof.
  rewrite length_app. replace (length a + length rest - length rest)%nat with (length a) by lia.
  apply take_app_length.
Qed.

(** The match in a text is closed, and the match in a longer text starts
    with it. *)
Lemma json_array_search_ext w s t m :
  re_search (json_array_pattern w) s = Some m ->
  closed m /\ exists t', re_search (json_array_pattern w) (s ++ t) = Some (m ++ t').
Proof.
  induction s as [|c s IH]; cbn [re_search app].
  - rewrite json_array_match_len_nil. discriminate.
  - rewrite !json_array_match_len_eq, after_last_bracket_app.
    destruct (N.eqb c opening_bracket) eqn:Ec; [|exact IH].
    destruct (after_last_bracket s) as [rest|] eqn:Es.
    + destruct (after_last_bracket_spec _ _ Es) as [p Hs].
      assert (Hfull : c :: s = ((c :: p) ++ [closing_bracket]) ++ rest)
        by (subst s; cbn; rewrite <- app_assoc; reflexivity).
      change (c :: s ++ t) with ((c :: s) ++ t).
      rewrite !Hfull, take_before_rest.
      intros H. injection H as <-.
      split; [exists (c :: p); reflexivity|].
      destruct (after_last_bracket t) as [rt|] eqn:Et; cbn [fmap option_fmap option_map].
      * destruct (after_last_bracket_spec _ _ Et) as [q ->].
        exists (rest ++ q ++ [closing_bracket]). f_equal.
        replace ((((c :: p) ++ [closing_bracket]) ++ rest) ++ q ++ closing_bracket :: rt)
          with ((((c :: p) ++ [closing_bracket]) ++ rest ++ q ++ [closing_bracket]) ++ rt)
          by (rewrite <- !app_assoc; reflexivity).
        apply take_before_rest.
      * exists []. rewrite app_nil_r. f_equal.
        rewrite <- (app_assoc _ rest t). apply take_before_rest.
    + intros H. apply json_array_search_bracket in H. rewrite Es in H.
      destruct H as [? [=]].
Qed.

(** An exception of the parse that comes from underneath the decoder comes
    again once more text has arrived. *)
Lemma parse_accumulated_ext w accumulated_content t e :
  parse_accumulated w accumulated_content false = Raise e ->
  e <> JSONDecodeError ->
  parse_accumulated w (accumulated_content ++ t) false = Raise e.
Proof.
  unfold parse_accumulated. intros H He.
  destruct (re_search _ accumulated_content) as [m|] eqn:E; [|discriminate].
  destruct (json_array_search_ext w _ t _ E) as [Hm [t' ->]].
  cbn [negb] in *.
  destruct (loads w m) as [v|e'] eqn:L; [discriminate|].
  cbn in H. injection H as ->.
  rewrite (loads_ext w m t' e Hm L He). reflexivity.
Qed.

(** ** Generators and the two streaming endpoints *)

Section GenFacts.
Lemma quiet_app a b : quiet a -> quiet b -> quiet (a ++ b).
Proof. apply Forall_app_2. Qed.

Lemma bind_lift {A B} (r : result A) (f : A -> gen B) :
  (lift r ≫= f) = match r with Ok a => f a | Raise e => ([], Raise e) end.
Proof. destruct r; cbn; [destruct (f a) |]; reflexivity. Qed.

Lemma bind_ok {A B} t (a : A) (f : A -> gen B) :
  ((t, Ok a) ≫= f) = (t ++ fst (f a), snd (f a)).
Proof. cbn. destruct (f a); reflexivity. Qed.

Lemma bind_nil {A B} (a : A) (f : A -> gen B) : (([], Ok a) ≫= f) = f a.
Proof. cbn. destruct (f a); reflexivity. Qed.

Lemma bind_yield {B} e (f : unit -> gen B) :
  (yield e ≫= f) = (Yield e :: fst (f tt), snd (f tt)).
Proof. unfold yield. rewrite bind_ok. reflexivity. Qed.

Lemma bind_pull {B} c (f : unit -> gen B) :
  (pull c ≫= f) = (Pull c :: fst (f tt), snd (f tt)).
Proof. unfold pull. rewrite bind_ok. reflexivity. Qed.

Lemma bind_raise {A B} t e (f : A -> gen B) :
  ((t, Raise e) ≫= f) = (t, Raise e).
Proof. reflexivity. Qed.

Lemma sends_once_bind {A B} (sent : B -> bool) (m : gen A) (f : A -> gen B) :
  quiet (fst m) -> (forall a, sends_once sent (f a)) -> sends_once sent (m ≫= f).
Proof.
  destruct m as [t [a|e]]; intros Hq Hf; cbn [fst] in Hq.
  - rewrite bind_ok. specialize (Hf a). unfold sends_once in *. cbn [fst snd].
    destruct (snd (f a)) as [b|e].
    + destruct (sent b).
      * destruct Hf as (t' & r & -> & Hq'). exists (t ++ t'), r.
        split; [apply app_assoc | apply quiet_app; assumption].
      * apply quiet_app; assumption.
    + apply quiet_app; assumption.
  - rewrite bind_raise. exact Hq.
Qed.

Lemma sends_once_lift {A B} (sent : B -> bool) (r : result A) (f : A -> gen B) :
  (forall a, sends_once sent (f a)) -> sends_once sent (lift r ≫= f).
Proof. intros. apply sends_once_bind; [apply Forall_nil_2 | assumption]. Qed.

Lemma sends_once_try {A} (sent : A -> bool) (body : gen A) caught (a0 : A) :
  sent a0 = false -> sends_once sent body ->
  sends_once sent (gen_try body caught (fun _ => mret a0)).
Proof.
  destruct body as [t [a|e]]; intros Ha H; cbn [gen_try]; [exact H|].
  destruct (caught e); [|exact H].
  unfold sends_once in *. cbn [fst snd mret gen_ret] in *. rewrite Ha, app_nil_r. exact H.
Qed.

Lemma events_of_yield e t : events_of (Yield e :: t) = e :: events_of t.
Proof. reflexivity. Qed.

Lemma events_of_pull c t : events_of (Pull c :: t) = events_of t.
Proof. reflexivity. Qed.

Lemma count_results_cons e evs :
  count_results (e :: evs) =
  ((if is_results e then 1 else 0) + count_results evs)%nat.
Proof. unfold count_results. cbn [List.filter]. destruct (is_results e); reflexivity. Qed.

Lemma quiet_events t :
  quiet t ->
  count_results (events_of t) = O /\
  Forall (fun e => is_terminal e = false) (events_of t).
Proof.
  induction 1 as [|a t Ha _ [IHc IHt]]; [split; [reflexivity | constructor]|].
  destruct a as [c|e]; [rewrite events_of_pull; split; assumption|].
  rewrite events_of_yield, count_results_cons.
  cbn in Ha. apply andb_prop in Ha as [Hr Ht].
  apply negb_true_iff in Hr, Ht. rewrite Hr.
  split; [assumption | constructor; assumption].
Qed.

Lemma events_of_app a b : events_of (a ++ b) = events_of a ++ events_of b.
Proof. apply omap_app. Qed.

Lemma count_results_app a b :
  count_results (a ++ b) = (count_results a + count_results b)%nat.
Proof. unfold count_results. rewrite List.filter_app, length_app. reflexivity. Qed.
End GenFacts.

Section Orchestration.
Variable w : World.

Lemma convert_mock_results :
  convert_to_content_items w _get_mock_results = Ok [mock_item w].
Proof. vm_compute. reflexivity. Qed.

Lemma send_mock_results_trace :
  send_mock_results w = ([Yield (EvResults [mock_item w])], Ok tt).
Proof. unfold send_mock_results. rewrite convert_mock_results. reflexivity. Qed.

Lemma sends_once_results r :
  sends_once (fun b : bool => b) (yield (EvResults r) ≫= fun _ => mret true).
Proof. exists [], r. split; [reflexivity | constructor]. Qed.

Lemma sends_once_yield {B} (sent : B -> bool) e (f : unit -> gen B) :
  quiet_action (Yield e) = true ->
  (forall u, sends_once sent (f u)) -> sends_once sent (yield e ≫= f).
Proof.
  intros He Hf. apply sends_once_bind; [|exact Hf].
  constructor; [exact He | constructor].
Qed.

Lemma sends_once_ret {B} (sent : B -> bool) (b : B) :
  sent b = false -> sends_once sent (mret b).
Proof. intros H. unfold sends_once. cbn. rewrite H. constructor. Qed.

Lemma try_send_results_once accumulated_content results_sent :
  sends_once (fun b : bool => b) (try_send_results w accumulated_content results_sent).
Proof.
  unfold try_send_results.
  apply sends_once_lift. intros [results_data|]; [|apply sends_once_ret; reflexivity].
  apply sends_once_lift. intros n.
  apply sends_once_yield; [reflexivity|]. intros _.
  apply sends_once_lift. intros validated_data.
  apply sends_once_lift. intros results.
  apply sends_once_results.
Qed.

Lemma send_thinking_quiet t : quiet (fst (send_thinking t)).
Proof.
  unfold send_thinking. destruct (truthy_text t); [|constructor].
  constructor; [reflexivity | constructor].
Qed.

Lemma search_loop_once accumulated_content chunks :
  sends_once snd (search_loop w accumulated_content false chunks).
Proof.
  revert accumulated_content. induction chunks as [|c rest IH]; intros acc.
  - apply sends_once_ret. reflexivity.
  - cbn [search_loop].
    apply sends_once_bind; [constructor; [reflexivity | constructor]|]. intros _.
    destruct (classify c) as [thinking_text content_text].
    apply sends_once_bind; [apply send_thinking_quiet|]. intros _.
    destruct (truthy_text content_text); [|apply IH].
    pose proof (sends_once_try (fun b : bool => b)
                  (try_send_results w (acc ++ text_or_empty content_text) false)
                  is_JSONDecodeError_or_KeyError false eq_refl
                  (try_send_results_once _ _)) as H.
    destruct (gen_try _ _ _) as [t [broke|e]].
    + rewrite bind_ok. destruct broke; cbv beta iota.
      * unfold sends_once in *. cbn [fst snd mret gen_ret] in *.
        rewrite app_nil_r. exact H.
      * unfold sends_once in H. cbn [fst snd] in H.
        specialize (IH (acc ++ text_or_empty content_text)).
        destruct (search_loop w _ false rest) as [t2 [st|e]];
          unfold sends_once in *; cbn [fst snd] in *.
        -- destruct (snd st).
           ++ destruct IH as (t' & r & E & Hq). subst t2. exists (t ++ t'), r.
              split; [apply app_assoc | apply quiet_app; assumption].
           ++ apply quiet_app; assumption.
        -- apply quiet_app; assumption.
    + rewrite bind_raise. exact H.
Qed.

Lemma calm_bind {A B} (m : gen A) (f : A -> gen B) :
  calm m -> (forall a, calm (f a)) -> calm (m ≫= f).
Proof.
  destruct m as [t r]. intros [Hq [a Ha]] Hf. cbn [fst snd] in *. subst r.
  rewrite bind_ok. destruct (Hf a) as [Hq' [b Hb]].
  split; [apply quiet_app; assumption | exists b; exact Hb].
Qed.

Lemma send_thinking_calm t : calm (send_thinking t).
Proof.
  split; [apply send_thinking_quiet|].
  unfold send_thinking. destruct (truthy_text t); eexists; reflexivity.
Qed.

Lemma accumulate_loop_calm accumulated_content chunks :
  calm (accumulate_loop accumulated_content chunks).
Proof.
  revert accumulated_content. induction chunks as [|c rest IH]; intros acc.
  - split; [constructor | eexists; reflexivity].
  - cbn [accumulate_loop].
    apply calm_bind.
    { split; [constructor; [reflexivity | constructor] | eexists; reflexivity]. }
    intros _. destruct (classify c) as [thinking_text content_text].
    apply calm_bind; [apply send_thinking_calm|]. intros _.
    destruct (truthy_text content_text); apply IH.
Qed.

Lemma try_send_recommendations_once svc' accumulated_content :
  sends_once (fun b : bool => b)
    (try_send_recommendations w svc' accumulated_content false).
Proof.
  unfold try_send_recommendations.
  apply sends_once_lift. intros [results_data|]; [|apply sends_once_ret; reflexivity].
  apply sends_once_lift. intros n.
  apply sends_once_yield; [reflexivity|]. intros _.
  apply sends_once_lift. intros links.
  apply sends_once_lift. intros items.
  apply sends_once_lift. intros items'.
  apply sends_once_lift. intros results.
  apply sends_once_results.
Qed.

Lemma stream_recommendations_once svc' api :
  sends_once (fun b : bool => b) (stream_recommendations w svc' api).
Proof.
  unfold stream_recommendations.
  apply sends_once_bind; [apply accumulate_loop_calm|]. intros acc.
  apply sends_once_lift. intros _.
  apply sends_once_try; [reflexivity | apply try_send_recommendations_once].
Qed.
End Orchestration.

Section Endings.
Variable w : World.

Lemma quiet_unremarkable t : quiet t -> unremarkable (events_of t).
Proof.
  induction 1 as [|a t Ha _ IH]; [constructor|].
  destruct a as [c|e]; [exact IH|].
  rewrite events_of_yield. constructor; [|exact IH].
  cbn in Ha. apply andb_prop in Ha as [Hr Ht].
  apply negb_true_iff in Hr, Ht. split; assumption.
Qed.

Lemma unremarkable_count evs : unremarkable evs -> count_results evs = O.
Proof.
  induction 1 as [|e evs [Hr _] _ IH]; [reflexivity|].
  rewrite count_results_cons, Hr. exact IH.
Qed.

Lemma unremarkable_nonterminal evs :
  unremarkable evs -> Forall (fun e => is_terminal e = false) evs.
Proof. intros H. eapply Forall_impl; [exact H|]. intros e [_ He]. exact He. Qed.

Lemma ends_with_results_facts evs :
  ends_with_results evs ->
  one_results_then_terminal evs /\ last evs = Some EvComplete.
Proof.
  intros (before & r & Hb & ->). repeat split.
  - rewrite count_results_app, (unremarkable_count _ Hb). reflexivity.
  - exists (before ++ [EvResults r]), EvComplete. repeat split.
    + rewrite <- app_assoc. reflexivity.
    + apply Forall_app_2; [apply unremarkable_nonterminal, Hb|].
      constructor; [reflexivity | constructor].
  - change [EvResults r; EvComplete] with ([EvResults r] ++ [EvComplete]).
    rewrite app_assoc. apply last_snoc.
Qed.

Lemma ends_with_error_facts evs e :
  ends_with_error evs e ->
  terminated evs /\ count_results evs = O /\ last evs = Some (EvError e).
Proof.
  intros (before & Hb & ->). repeat split.
  - exists before, (EvError e). repeat split. apply unremarkable_nonterminal, Hb.
  - rewrite count_results_app, (unremarkable_count _ Hb). reflexivity.
  - apply last_snoc.
Qed.

Lemma finish_sent {A} (sent : A -> bool) t (a : A) :
  sent a = true ->
  trace_of (gen_try (finish w sent (t, Ok a)) any_Exception
              (fun e => yield (EvError e))) = t ++ [Yield EvComplete].
Proof. intros H. unfold finish. rewrite bind_ok, H. reflexivity. Qed.

Lemma finish_unsent {A} (sent : A -> bool) t (a : A) :
  sent a = false ->
  trace_of (gen_try (finish w sent (t, Ok a)) any_Exception
              (fun e => yield (EvError e))) =
  t ++ [Yield (EvResults [mock_item w]); Yield EvComplete].
Proof.
  intros H. unfold finish. rewrite bind_ok, H. cbn [negb].
  rewrite send_mock_results_trace. reflexivity.
Qed.

Lemma finish_raised {A} (sent : A -> bool) t e :
  trace_of (gen_try (finish w sent (t, Raise e)) any_Exception
              (fun e => yield (EvError e))) = t ++ [Yield (EvError e)].
Proof. reflexivity. Qed.

Lemma finish_shape {A} (sent : A -> bool) (g : gen A) (t0 : list action) :
  quiet t0 -> sends_once sent g ->
  let evs :=
    events_of (t0 ++ trace_of (gen_try (finish w sent g) any_Exception
                                 (fun e => yield (EvError e)))) in
  ends_with_results evs \/ exists e, snd g = Raise e /\ ends_with_error evs e.
Proof.
  intros Hq0 Hg. destruct g as [t [a|e]]; unfold sends_once in Hg;
    cbn [fst snd] in Hg.
  - left. destruct (sent a) eqn:Ha.
    + rewrite finish_sent by exact Ha.
      destruct Hg as (t' & r & -> & Hq).
      exists (events_of (t0 ++ t')), r. split.
      * apply quiet_unremarkable, quiet_app; assumption.
      * rewrite !events_of_app. cbn. rewrite <- !app_assoc. reflexivity.
    + rewrite finish_unsent by exact Ha.
      exists (events_of (t0 ++ t)), [mock_item w]. split.
      * apply quiet_unremarkable, quiet_app; assumption.
      * rewrite !events_of_app. cbn. rewrite <- !app_assoc. reflexivity.
  - right. exists e. split; [reflexivity|].
    rewrite finish_raised.
    exists (events_of (t0 ++ t)). split.
    + apply quiet_unremarkable, quiet_app; assumption.
    + rewrite !events_of_app. cbn. rewrite <- !app_assoc. reflexivity.
Qed.

Lemma gen_try_yield {A} e (f : unit -> gen A) caught handler :
  trace_of (gen_try (yield e ≫= f) caught handler) =
  Yield e :: trace_of (gen_try (f tt) caught handler).
Proof.
  unfold yield. rewrite bind_ok. destruct (f tt) as [t [a|e']]; cbn; [reflexivity|].
  destruct (caught e'); [destruct (handler e')|]; reflexivity.
Qed.

Lemma generate_stream_unfold svc query key api :
  generate_stream w svc query key api =
  match set_api_key w svc key with
  | Ok svc' =>
      Yield (EvThought (initial_thought_search query)) ::
      trace_of (gen_try (finish w snd (search_loop w [] false
                                       (search_content_streaming w svc' api)))
                  any_Exception (fun e => yield (EvError e)))
  | Raise e => [Yield (EvError e)]
  end.
Proof.
  unfold generate_stream, generate_stream_body.
  rewrite bind_lift. destruct (set_api_key w svc key) as [svc'|e]; [|reflexivity].
  rewrite gen_try_yield. reflexivity.
Qed.

Lemma generate_stream_attempt_unfold svc key api :
  generate_stream_attempt w svc key api =
  match set_api_key w svc key with
  | Ok svc' =>
      Yield (EvThought initial_thought_recommendations) ::
      trace_of (gen_try (finish w (fun b : bool => b)
                           (gen_try (stream_recommendations w svc' api) any_Exception
                              (fun api_error => mret false)))
                  any_Exception (fun e => yield (EvError e)))
  | Raise e => [Yield (EvError e)]
  end.
Proof.
  unfold generate_stream_attempt, generate_stream_attempt_body.
  rewrite bind_lift. destruct (set_api_key w svc key) as [svc'|e]; [|reflexivity].
  rewrite gen_try_yield. reflexivity.
Qed.

Lemma set_api_key_inv svc key :
  match set_api_key w svc key with
  | Ok svc' => client_init w key = Ok tt /\ svc' = with_key svc key
  | Raise e => client_init w key = Raise e
  end.
Proof.
  unfold set_api_key. destruct (client_init w key) as [[]|e]; cbn; auto.
Qed.

(** Both endpoints end in one of the two ways, and the recommendation
    endpoint ends in [error] only when the client cannot be built. *)
Lemma stream_request_shape svc m key api :
  let evs := events_of (stream_request w svc m key api) in
  ends_with_results evs \/
  exists e, ends_with_error evs e /\
            (m = RecommendationMode -> client_init w key = Raise e).
Proof.
  destruct m as [query|]; cbn [stream_request].
  - rewrite generate_stream_unfold.
    destruct (set_api_key w svc key) as [svc'|e] eqn:E.
    + destruct (finish_shape snd
                  (search_loop w [] false (search_content_streaming w svc' api))
                  [Yield (EvThought (initial_thought_search query))])
        as [H | (e & _ & H)].
      * constructor; [reflexivity | constructor].
      * apply search_loop_once.
      * left. exact H.
      * right. exists e. split; [exact H | discriminate].
    + right. exists e. split; [|discriminate].
      exists []. split; [constructor | reflexivity].
  - rewrite generate_stream_attempt_unfold.
    pose proof (set_api_key_inv svc key) as Hk.
    destruct (set_api_key w svc key) as [svc'|e] eqn:E.
    + destruct (finish_shape (fun b : bool => b)
                  (gen_try (stream_recommendations w svc' api) any_Exception
                     (fun api_error => mret false))
                  [Yield (EvThought initial_thought_recommendations)])
        as [H | (e & He & H)].
      * constructor; [reflexivity | constructor].
      * apply sends_once_try; [reflexivity | apply stream_recommendations_once].
      * left. exact H.
      * exfalso. destruct (stream_recommendations w svc' api) as [t [b|e']];
          cbn in He; discriminate.
    + right. exists e. split; [|intros _; exact Hk].
      exists []. split; [constructor | reflexivity].
Qed.
End Endings.

(* ===================================================================== *)
(** * The claims of the specification *)
(* ===================================================================== *)

(** ** C5: cleaning descriptions *)

(** C5, as stated, fails: cleaning is not idempotent.  Removing the marker
    inside ["[Sear[Search 1]ch 1]"] leaves ["[Search 1]"], a marker that only
    a second pass removes. *)
Lemma C5_counterexample :
  let once := _clean_metadata_from_text offline (py "[Sear[Search 1]ch 1]") in
  once = py "[Search 1]" /\
  _clean_metadata_from_text offline once = [] /\
  _clean_metadata_from_text offline once <> once.
Proof. vm_compute. repeat split; discriminate. Qed.

(** Two more ways a second pass finds what the first left: a simple marker
    inside a compound one, and a compound marker that the collapsing of
    whitespace completes. *)
Example clean_not_idempotent_more :
  _clean_metadata_from_text offline (py "[Meta search 1[Result 2]]") = py "[Meta search 1]" /\
  _clean_metadata_from_text offline (py "[Meta search 1]") = [] /\
  _clean_metadata_from_text offline (py "[General  search 1]") = py "[General search 1]" /\
  _clean_metadata_from_text offline (py "[General search 1]") = [].
Proof. vm_compute. repeat split; reflexivity. Qed.

(** C5 (amended).  Cleaning a text a second time changes nothing whenever the
    first pass leaves no text that matches either marker pattern, and
    ["Great paper [Search 1] on AI [General search 2, Meta search 1]"] is
    cleaned to ["Great paper on AI"]. *)
Theorem C5_clean_idempotent_without_markers (w : World) :
  (forall text : str,
     let once := _clean_metadata_from_text w text in
     no_match (metadata_pattern w) once ->
     no_match (simple_metadata_pattern w) once ->
     _clean_metadata_from_text w once = once) /\
  _clean_metadata_from_text w
    (py "Great paper [Search 1] on AI [General search 2, Meta search 1]")
  = py "Great paper on AI".
Proof.
  split; [|vm_compute; reflexivity].
  intros text once H1 H2. unfold _clean_metadata_from_text at 1.
  destruct once as [|c r] eqn:E; [reflexivity|]. rewrite <- E in *.
  rewrite (re_sub_no_match _ _ _ H1), (re_sub_no_match _ _ _ H2).
  unfold once, _clean_metadata_from_text in *.
  destruct text as [|c0 r0]; [discriminate|].
  apply normalise_idem.
Qed.

Lemma C5_witness :
  let once := _clean_metadata_from_text offline
                (py "Great paper [Search 1] on AI [General search 2, Meta search 1]") in
  once = py "Great paper on AI" /\ _clean_metadata_from_text offline once = once.
Proof.
  split.
  - exact (proj2 (C5_clean_idempotent_without_markers offline)).
  - apply (proj1 (C5_clean_idempotent_without_markers offline)
             (py "Great paper [Search 1] on AI [General search 2, Meta search 1]"));
      vm_compute; reflexivity.
Defined.

(** ** C3: feeding the accumulator *)

Section Feeding.
Variable w : World.

(** A parse that finds nothing, or that fails with an exception the loop
    catches, costs the stream nothing: the chunk is taken, its thinking is
    sent, its text is kept, and the loop goes on. *)
Lemma failed_parse_is_silent accumulated_content results_sent c rest :
  truthy_text (snd (classify c)) = true ->
  silent (parse_accumulated w (accumulated_content ++ answer_text c) results_sent) ->
  search_loop w accumulated_content results_sent (c :: rest) =
  (_ ← pull c;
   _ ← send_thinking (fst (classify c));
   search_loop w (accumulated_content ++ answer_text c) results_sent rest).
Proof.
  intros Ht Hp. cbn [search_loop]. unfold answer_text in *.
  destruct (classify c) as [thinking_text content_text]. cbn [fst snd] in *.
  rewrite Ht in *.
  assert (gen_try (try_send_results w
                     (accumulated_content ++ text_or_empty content_text) results_sent)
            is_JSONDecodeError_or_KeyError (fun _ => mret false) = ([], Ok false)) as Hsilent.
  { unfold try_send_results. rewrite bind_lift.
    destruct Hp as [-> | (e & -> & He)].
    - reflexivity.
    - cbn [gen_try]. rewrite He. reflexivity. }
  rewrite Hsilent, bind_nil. reflexivity.
Qed.
End Feeding.


(** The same with arrays nested deeper than the interpreter can recurse:
    [json.loads] raises [RecursionError], and the stream ends with
    [error]. *)
Example deep_nesting_is_loud :
  let text := List.repeat opening_bracket 1001 ++ [closing_bracket] in
  parse_accumulated offline text false = Raise RecursionError /\
  events_of (stream_request offline fresh_service (SearchMode (py "q")) (PStr (py "key"))
               {| api_chunks := [answer_chunk text; answer_chunk (py "]")];
                  api_failure := None |})
  = [EvThought (initial_thought_search (py "q")); EvError RecursionError].
Proof. vm_compute. split; reflexivity. Qed.



(** ** C8: chat sessions *)

(** C8.  Clearing a chat session by id removes that session and no other:
    its history is then the empty list, and every other id keeps its session
    and its history. *)
Theorem C8_clear_one_session (w : World) (svc : GeminiContentService) (chat_id : str) :
  get_chat_history w (clear_chat_session svc chat_id) chat_id = [] /\
  active_chats (clear_chat_session svc chat_id) !! chat_id = None /\
  api_key (clear_chat_session svc chat_id) = api_key svc /\
  forall other : str, other <> chat_id ->
    active_chats (clear_chat_session svc chat_id) !! other = active_chats svc !! other /\
    get_chat_history w (clear_chat_session svc chat_id) other = get_chat_history w svc other.
Proof.
  assert (active_chats (clear_chat_session svc chat_id) !! chat_id = None) as Hgone.
  { unfold clear_chat_session. destruct (active_chats svc !! chat_id) eqn:E; [|exact E].
    cbn. apply lookup_delete_eq. }
  assert (forall other : str, other <> chat_id ->
            active_chats (clear_chat_session svc chat_id) !! other
            = active_chats svc !! other) as Hother.
  { intros other Hne. unfold clear_chat_session.
    destruct (active_chats svc !! chat_id); [|reflexivity].
    cbn. apply lookup_delete_ne. congruence. }
  repeat split.
  - unfold get_chat_history. rewrite Hgone. reflexivity.
  - exact Hgone.
  - unfold clear_chat_session. destruct (active_chats svc !! chat_id); reflexivity.
  - apply Hother. assumption.
  - unfold get_chat_history. rewrite Hother by assumption. reflexivity.
Qed.

Lemma C8_witness :
  get_chat_history offline (clear_chat_session two_sessions (py "article_a")) (py "article_a")
    = [] /\
  get_chat_history offline (clear_chat_session two_sessions (py "article_a")) (py "article_b")
    = get_chat_history offline two_sessions (py "article_b").
Proof.
  destruct (C8_clear_one_session offline two_sessions (py "article_a"))
    as (Hcleared & _ & _ & Hothers).
  split; [exact Hcleared|].
  apply (Hothers (py "article_b")). discriminate.
Defined.

(** ** C9: the worker pool of the link resolver *)



(** ** C7: missing fields of a raw item *)

Section Conversion.
Variable w : World.

Lemma clean_of_text (s : str) :
  clean_metadata_from_value w (PStr s) = Ok (PStr (_clean_metadata_from_text w s)).
Proof. destruct s; reflexivity. Qed.

(** The keyword dictionary the endpoints build can always be made into a
    [ContentItem]. *)
Lemma ContentItem_init_filtered v1 v2 v3 v4 v5 v6 v7 :
  ContentItem_init w
    [(py "title", v1); (py "type", v2); (py "description", v3); (py "source", v4);
     (py "relevance", v5); (py "url", v6); (py "validation", v7)]
  = Ok {| title := v1; type := v2; description := v3; source := v4; relevance := v5;
          url := v6; timestamp := PStr (clock w); validation := v7 |}.
Proof. reflexivity. Qed.

(** Conversion of a dict fails only in the cleaning of its description. *)
Lemma convert_item_dict (raw : dict) :
  convert_item w (PDict raw) =
  match clean_metadata_from_value w (dict_get raw (py "description") (PStr [])) with
  | Ok v_description =>
      Ok {| title := dict_get raw (py "title") (PStr []);
            type := dict_get raw (py "type") (PStr []);
            description := v_description;
            source := dict_get raw (py "source") (PStr []);
            relevance := dict_get raw (py "relevance") (PStr []);
            url := dict_get raw (py "url") (PStr []);
            timestamp := PStr (clock w);
            validation := dict_get raw (py "validation") PNone |}
  | Raise e => Raise e
  end.
Proof.
  unfold convert_item, filtered_item. cbn [py_get mbind result_bind rbind].
  destruct (clean_metadata_from_value w _); [|reflexivity].
  cbn [rbind]. apply ContentItem_init_filtered.
Qed.
End Conversion.

(** C7.  Converting a raw dict into a [ContentItem] raises nothing, whichever
    of title, type, description, source, relevance and url are absent, as long
    as a description that is present is text: every absent field of the six is
    the empty string in the item, an absent validation is [None], a field that
    is present is carried over (the description cleaned), and the item gets
    its timestamp. *)
Theorem C7_missing_fields_default (w : World) (raw : dict) :
  (forall v, dict_lookup raw (py "description") = Some v -> exists s, v = PStr s) ->
  exists item,
    convert_item w (PDict raw) = Ok item /\
    (forall k, In k raw_fields -> dict_lookup raw k = None ->
               dict_lookup (asdict item) k = Some (PStr [])) /\
    (dict_lookup raw (py "validation") = None -> validation item = PNone) /\
    (forall k v, In k [py "title"; py "type"; py "source"; py "relevance"; py "url";
                       py "validation"] ->
                 dict_lookup raw k = Some v -> dict_lookup (asdict item) k = Some v) /\
    (forall s, dict_lookup raw (py "description") = Some (PStr s) ->
               description item = PStr (_clean_metadata_from_text w s)) /\
    timestamp item = PStr (clock w).
Proof.
  intros Hd. rewrite convert_item_dict.
  assert (exists s, dict_get raw (py "description") (PStr []) = PStr s /\
                    (dict_lookup raw (py "description") = None -> s = []) /\
                    (forall s', dict_lookup raw (py "description") = Some (PStr s') -> s' = s))
    as (s & Hs & Hnone & Hsome).
  { unfold dict_get. destruct (dict_lookup raw (py "description")) as [v|] eqn:E.
    - destruct (Hd v eq_refl) as [s ->]. exists s. repeat split; congruence.
    - exists []. repeat split; congruence. }
  rewrite Hs, clean_of_text. eexists. split; [reflexivity|].
  repeat split.
  - intros k Hk Hmiss. unfold dict_get.
    unfold raw_fields in Hk. cbn [In] in Hk.
    destruct Hk as [<-|[<-|[<-|[<-|[<-|[<-|[]]]]]]];
      try (rewrite Hmiss; reflexivity).
    rewrite (Hnone Hmiss). reflexivity.
  - intros Hmiss. cbn [validation]. unfold dict_get. rewrite Hmiss. reflexivity.
  - intros k v Hk Hv. unfold dict_get.
    cbn [In] in Hk. destruct Hk as [<-|[<-|[<-|[<-|[<-|[<-|[]]]]]]];
      rewrite Hv; reflexivity.
  - intros s' Hs'. cbn [description]. rewrite (Hsome s' Hs'). reflexivity.
Qed.

Lemma C7_witness :
  exists item,
    convert_item offline (PDict [(py "title", PStr (py "X"))]) = Ok item /\
    title item = PStr (py "X") /\ description item = PStr [] /\ url item = PStr [] /\
    validation item = PNone.
Proof.
  destruct (C7_missing_fields_default offline [(py "title", PStr (py "X"))])
    as (item & Hitem & Hmissing & Hvalidation & Hpresent & _).
  - intros v Hv. discriminate Hv.
  - exists item. split; [exact Hitem|].
    pose proof (Hpresent (py "title") (PStr (py "X")) ltac:(cbn [In]; tauto) eq_refl) as Ht.
    pose proof (Hmissing (py "description") ltac:(unfold raw_fields; cbn [In]; tauto) eq_refl)
      as Hde.
    pose proof (Hmissing (py "url") ltac:(unfold raw_fields; cbn [In]; tauto) eq_refl) as Hu.
    cbn [asdict dict_lookup] in Ht, Hde, Hu.
    injection Ht as Ht. injection Hde as Hde. injection Hu as Hu.
    repeat split; [exact Ht | exact Hde | exact Hu | exact (Hvalidation eq_refl)].
Defined.

(** ** Thread pools and the validator *)

Lemma insert_at_perm {A} (i : nat) (x : A) (l : list A) :
  Permutation (insert_at i x l) (x :: l).
Proof.
  unfold insert_at. rewrite <- (take_drop i l) at 3.
  symmetry. apply Permutation_middle.
Qed.

(** [as_completed] hands over every future, each once. *)
Lemma as_completed_perm {A} (order : list nat) (futures : list A) :
  Permutation (as_completed order futures) futures.
Proof.
  revert order. induction futures as [|f fs IH]; intros order; cbn [as_completed].
  - constructor.
  - rewrite insert_at_perm. constructor. apply IH.
Qed.

Lemma as_completed_In {A} (order : list nat) (futures : list A) (x : A) :
  In x (as_completed order futures) <-> In x futures.
Proof.
  split; apply Permutation_in; [|symmetry]; apply as_completed_perm.
Qed.

Section ValidatorFacts.
Variable w : World.

(** A dict is never the reason for a future to fail: the item comes back with
    its validation record, or [None]. *)
Lemma validate_single_item_dict (d : dict) :
  validate_single_item w (PDict d) =
  let r := validate_url w (dict_get d (py "url") (PStr [])) (dict_get d (py "type") (PStr [])) in
  if is_valid r
  then Ok (Some (PDict (dict_set d (py "validation")
                          (PDict [(py "validated_at", PStr (clock w));
                                  (py "status_code", option_value PInt (status_code r));
                                  (py "content_type_verified",
                                    option_value PStr (content_type_detected r))]))))
  else Ok None.
Proof.
  unfold validate_single_item. cbn [py_get mbind result_bind rbind try_except].
  destruct (is_valid _); reflexivity.
Qed.

(** What is no dict makes its future raise. *)
Lemma validate_single_item_other (item : pyval) :
  (forall d, item <> PDict d) -> validate_single_item w item = Raise AttributeError.
Proof.
  intros H. destruct item; try reflexivity. exfalso. exact (H d eq_refl).
Qed.

(** When no future raised, the loop keeps what the futures returned, in the
    order it met them. *)
Lemma collect_valid_all_ok valid_items futures :
  Forall (fun future => exists r, fst future = Ok r) futures ->
  collect_valid valid_items futures = Ok (valid_items ++ omap kept futures).
Proof.
  intros H. revert valid_items.
  induction H as [|[future item] fs [r Hr] _ IH]; intros valid_items.
  - cbn. rewrite app_nil_r. reflexivity.
  - cbn [fst] in Hr. subst future. cbn [collect_valid omap]. unfold kept at 1. cbn [fst].
    destruct r as [r|].
    + rewrite IH, <- app_assoc. reflexivity.
    + apply IH.
Qed.

Lemma general_url_outcome u r resp :
  general_request w u = Ok resp ->
  _validate_general_url w u r =
  Ok (with_valid (with_status r (resp_status_code resp))
        ((resp_status_code resp =? 200) || (resp_status_code resp =? 403))).
Proof. intros H. unfold _validate_general_url. rewrite H. reflexivity. Qed.

Lemma validate_url_general u content_type scheme netloc :
  urlparse w u = Ok (scheme, netloc) -> scheme <> [] -> netloc <> [] ->
  is_general content_type netloc = true ->
  validate_url w (PStr u) content_type =
  let r0 := {| vr_url := PStr u; is_valid := false; status_code := None; error := None;
               content_type_detected := None; title_verified := false |} in
  match _validate_general_url w u r0 with
  | Ok r => r
  | Raise e => with_error r0 (ValidationError e)
  end.
Proof.
  intros Hp Hs Hn Hg. unfold validate_url. cbn [urlparse_value]. rewrite Hp.
  cbn [mbind result_bind rbind].
  destruct scheme as [|c1 scheme]; [congruence|].
  destruct netloc as [|c2 netloc]; [congruence|].
  unfold is_general in Hg.
  apply andb_prop in Hg as [Hg Hpod]. apply andb_prop in Hg as [Hy1 Hy2].
  apply negb_true_iff in Hpod, Hy1, Hy2.
  rewrite Hy1, Hy2, Hpod. reflexivity.
Qed.
End ValidatorFacts.

(** ** C10: a general URL that answers 200 or 403 *)



(** ** The link resolver *)

Lemma str_eqb_eq (a b : str) : str_eqb a b = true <-> a = b.
Proof.
  revert b. induction a as [|x a IH]; intros [|y b]; cbn; split; try congruence.
  - intros H. apply andb_prop in H as [Hx Ha]. apply N.eqb_eq in Hx. apply IH in Ha.
    congruence.
  - intros H. injection H as -> ->. rewrite N.eqb_refl. apply IH. reflexivity.
Qed.

Lemma str_eqb_refl (a : str) : str_eqb a a = true.
Proof. apply str_eqb_eq. reflexivity. Qed.

Lemma for_each_length {A B} (f : A -> result B) (l : list A) (out : list B) :
  for_each f l = Ok out -> length out = length l.
Proof.
  revert out. induction l as [|x l IH]; intros out H; cbn in H.
  - injection H as <-. reflexivity.
  - destruct (f x) as [y|e]; [|discriminate]. cbn in H.
    destruct (for_each f l) as [ys|e]; [|discriminate]. cbn in H.
    injection H as <-. cbn. f_equal. apply IH. reflexivity.
Qed.

Lemma insert_at_map {A B} (f : A -> B) (i : nat) (x : A) (l : list A) :
  List.map f (insert_at i x l) = insert_at i (f x) (List.map f l).
Proof.
  unfold insert_at. rewrite List.map_app. cbn [List.map].
  change (@List.map A B) with (@fmap list _ A B). rewrite fmap_take, fmap_drop. reflexivity.
Qed.

(** The order of completion does not look at the futures. *)
Lemma as_completed_map {A B} (f : A -> B) (order : list nat) (l : list A) :
  as_completed order (List.map f l) = List.map f (as_completed order l).
Proof.
  revert order. induction l as [|x l IH]; intros order; [reflexivity|].
  cbn [as_completed List.map]. rewrite insert_at_map, IH, length_map. reflexivity.
Qed.

(** Running the [result] monad one step. *)
Ltac run_result := cbn [mbind mret result_bind result_ret rbind try_except].

Section LinkFacts.
Variable w : World.
Variable svc : GeminiContentService.

(** The future of an item [ContentItem] accepts raises or returns the title
    of the item with at least one link. *)
Lemma process_single_item_outcome call item ci :
  ContentItem_of w item = Ok ci ->
  (exists e, process_single_item w svc call item = Raise e) \/
  (exists links, process_single_item w svc call item = Ok (title ci, links) /\ links <> []).
Proof.
  intros Hci. unfold process_single_item. rewrite Hci. run_result.
  destruct (_call_gemini_api_for_url w svc _ _ _) as [[r|mock]|e]; run_result; eauto.
  destruct (url_candidates r) as [[|c0 cs]|]; eauto.
  destruct (grounding_metadata c0) as [meta|]; eauto.
  destruct (grounding_chunks meta) as [[|g gs]|].
  - right. eexists. split; [reflexivity | discriminate].
  - destruct (for_each chunk_uri (g :: gs)) as [links|e] eqn:E; run_result; eauto.
    right. exists links. split; [reflexivity|].
    apply for_each_length in E. destruct links; [discriminate E | discriminate].
  - right. eexists. split; [reflexivity | discriminate].
Qed.

(** Without grounding chunks the future returns the search link alone. *)
Lemma process_single_item_without_citations call item ci :
  ContentItem_of w item = Ok ci ->
  lookup_without_citations w svc call ci ->
  process_single_item w svc call item
  = Ok (title ci, [search_link w (title ci) (source ci)]).
Proof.
  intros Hci (r & c0 & cs & meta & Hcall & Hc & Hm & Hg).
  unfold process_single_item. rewrite Hci. run_result.
  rewrite Hcall. run_result. rewrite Hc, Hm.
  destruct Hg as [-> | ->]; reflexivity.
Qed.

Lemma item_links_nonempty call item ci :
  ContentItem_of w item = Ok ci -> item_links w svc call item ci <> [].
Proof.
  intros Hci. unfold item_links.
  destruct (process_single_item_outcome call item ci Hci) as [[e ->] | (links & -> & H)];
    [discriminate | exact H].
Qed.

(** When the lookup raises or brings no citation, the item gets the search
    link and nothing else. *)
Lemma item_links_fallback call item ci :
  ContentItem_of w item = Ok ci ->
  lookup_raises w svc call item \/ lookup_without_citations w svc call ci ->
  item_links w svc call item ci = [search_link w (title ci) (source ci)].
Proof.
  intros Hci [[e He] | H]; unfold item_links.
  - rewrite He. reflexivity.
  - rewrite (process_single_item_without_citations call item ci Hci H). reflexivity.
Qed.

Lemma links_find_put links (t t' : str) v :
  text_keys links ->
  links_find w (links_put w links (PStr t) v) (PStr t') =
  if str_eqb t t' then Some v else links_find w links (PStr t').
Proof.
  induction 1 as [|[k v0] links [a Ha] _ IH]; cbn [links_put links_find].
  - cbn [same_key]. destruct (str_eqb t t'); reflexivity.
  - cbn [fst] in Ha. subst k. cbn [same_key].
    destruct (str_eqb a t) eqn:Eat.
    + apply str_eqb_eq in Eat. subst a. cbn [links_find same_key].
      destruct (str_eqb t t'); reflexivity.
    + cbn [links_find same_key]. destruct (str_eqb a t') eqn:Eat'.
      * apply str_eqb_eq in Eat'. subst a.
        destruct (str_eqb t t') eqn:Ett'; [|reflexivity].
        apply str_eqb_eq in Ett'. subst t'. rewrite str_eqb_refl in Eat. discriminate.
      * exact IH.
Qed.

Lemma links_put_text_keys links (t : str) v :
  text_keys links -> text_keys (links_put w links (PStr t) v).
Proof.
  induction 1 as [|[k v0] links Hk Hl IH]; cbn [links_put].
  - constructor; [exists t; reflexivity | constructor].
  - destruct (same_key w k (PStr t)); constructor; try assumption.
Qed.

(** One round of the loop over the futures, for an item with a title that is
    text: its links are recorded under its title, and nothing is raised. *)
Lemma collect_links_step links call item ci t rest :
  titled w item ci t ->
  collect_links w links ((process_single_item w svc call item, item) :: rest) =
  collect_links w (links_put w links (PStr t) (item_links w svc call item ci)) rest.
Proof.
  intros [Hci Ht]. cbn [collect_links]. unfold item_links.
  destruct (process_single_item_outcome call item ci Hci) as [[e He] | (l & Hl & _)].
  - rewrite He. run_result. rewrite Hci.
    run_result. rewrite Ht. reflexivity.
  - rewrite Hl. run_result; cbn [fst snd]. rewrite Ht. reflexivity.
Qed.

Lemma collect_links_records jobs links seen :
  (forall call item, In (call, item) jobs -> exists ci t, titled w item ci t) ->
  recorded w svc links seen ->
  exists links',
    collect_links w links (List.map (submitted w svc) jobs) = Ok links' /\
    recorded w svc links' (seen ++ jobs).
Proof.
  revert links seen. induction jobs as [|[call item] jobs IH]; intros links seen Hall Hrec.
  - exists links. split; [reflexivity|]. rewrite app_nil_r. exact Hrec.
  - destruct (Hall call item (or_introl eq_refl)) as (ci & t & Hitem).
    cbn [List.map]. unfold submitted at 1. cbn [fst snd].
    rewrite (collect_links_step links call item ci t _ Hitem).
    destruct (IH (links_put w links (PStr t) (item_links w svc call item ci))
                (seen ++ [(call, item)]))
      as (links' & Hc & Hr).
    + intros call' item' Hin. apply (Hall call'). right. exact Hin.
    + destruct Hrec as [Hkeys Hfind]. split; [apply links_put_text_keys, Hkeys|].
      intros call0 item0 ci0 t0 Hin Ht0. rewrite links_find_put by exact Hkeys.
      destruct (str_eqb t t0) eqn:E.
      * apply str_eqb_eq in E. subst t0. exists call, item, ci.
        split; [apply in_or_app; right; left; reflexivity|]. split; [exact Hitem | reflexivity].
      * apply in_app_or in Hin as [Hin | [Heq | []]].
        -- destruct (Hfind call0 item0 ci0 t0 Hin Ht0) as (call' & item' & ci' & Hin' & Ht' & Hf).
           exists call', item', ci'.
           split; [apply in_or_app; left; exact Hin'|]. split; assumption.
        -- exfalso. injection Heq as <- <-. destruct Hitem as [Hci Ht], Ht0 as [Hci0 Ht0].
           rewrite Hci in Hci0. injection Hci0 as <-. rewrite Ht in Ht0.
           injection Ht0 as <-. rewrite str_eqb_refl in E. discriminate.
    + exists links'. split; [exact Hc|]. rewrite <- app_assoc in Hr. exact Hr.
Qed.

(** The futures of the resolver are those of the numbered items. *)
Lemma futures_of_numbered (items : list pyval) :
  imap (fun call item => (process_single_item w svc call item, item)) items
  = List.map (submitted w svc) (numbered items).
Proof.
  unfold numbered. change (@List.map) with (@fmap list _).
  rewrite fmap_imap. reflexivity.
Qed.

Lemma numbered_In (items : list pyval) call item :
  In (call, item) (numbered items) <-> items !! call = Some item.
Proof.
  unfold numbered. rewrite <- list_elem_of_In, elem_of_lookup_imap. split.
  - intros (i & y & [= -> ->] & H). exact H.
  - intros H. exists call, item. split; [reflexivity | exact H].
Qed.

(** What the resolver does with a list that is not empty. *)
Lemma generate_links_unfold (items : list pyval) :
  items <> [] ->
  generate_links_by_title_parallel w svc (PList items) =
  collect_links w []
    (List.map (submitted w svc) (as_completed (completion_order w) (numbered items))).
Proof.
  intros Hne. unfold generate_links_by_title_parallel. cbn [py_len py_iter]. run_result.
  unfold ThreadPoolExecutor.
  destruct (Z.min (Z.of_nat (length items)) 10 <=? 0) eqn:E.
  - exfalso. apply Z.leb_le in E. destruct items; [congruence|]. cbn [length] in E. lia.
  - run_result. rewrite futures_of_numbered, as_completed_map. reflexivity.
Qed.
End LinkFacts.

(** ** C6: the links of an item *)


(** An item that [ContentItem] refuses (here: no description) is no lookup
    error: the resolver raises and returns no mapping. *)
Example links_refused_item :
  generate_links_by_title_parallel offline keyed_service
    (PList [PDict [(py "title", PStr (py "T")); (py "source", PStr (py "S"))]])
  = Raise TypeError.
Proof. vm_compute. reflexivity. Qed.

(** The mapping has one entry for a title, and every item has a lookup of
    its own: of two items with the same title and source, the first can see
    its lookup fail and still find, under its title, the citation of the
    second instead of the fallback. *)
Example links_of_the_other_item :
  let items := [raw_item "T" "S"; raw_item "T" "S"] in
  lookup_raises first_lookup_fails keyed_service 0 (raw_item "T" "S") /\
  generate_links_by_title_parallel first_lookup_fails keyed_service (PList items)
  = Ok [(PStr (py "T"), [PStr (py "https://example.com/cited")])].
Proof.
  split; [exists AttributeError|]; vm_compute; reflexivity.
Qed.



(** ** The loops of the two endpoints *)

Section Pulls.
Lemma pulled_app a b : pulled (a ++ b) = pulled a ++ pulled b.
Proof. apply omap_app. Qed.

Lemma pulled_pull c t : pulled (Pull c :: t) = c :: pulled t.
Proof. reflexivity. Qed.

Lemma pulled_yield e t : pulled (Yield e :: t) = pulled t.
Proof. reflexivity. Qed.

Lemma pulled_bind {A B} (m : gen A) (f : A -> gen B) :
  pulled (fst (m ≫= f)) =
  pulled (fst m) ++ match snd m with Ok a => pulled (fst (f a)) | Raise _ => [] end.
Proof.
  destruct m as [t [a|e]].
  - rewrite bind_ok. cbn [fst snd]. apply pulled_app.
  - rewrite bind_raise. cbn [fst snd]. rewrite app_nil_r. reflexivity.
Qed.

Lemma pulled_try {A} (body : gen A) caught handler :
  (forall e, pulled (fst (handler e)) = []) ->
  pulled (fst (gen_try body caught handler)) = pulled (fst body).
Proof.
  intros H. destruct body as [t [a|e]]; cbn [gen_try fst]; [reflexivity|].
  destruct (caught e); [|reflexivity]. specialize (H e).
  destruct (handler e) as [more r]. cbn [fst] in *. rewrite pulled_app, H, app_nil_r.
  reflexivity.
Qed.

Lemma pulled_send_thinking t : pulled (fst (send_thinking t)) = [].
Proof. unfold send_thinking. destruct (truthy_text t); reflexivity. Qed.

Lemma send_thinking_returns t : snd (send_thinking t) = Ok tt.
Proof. unfold send_thinking. destruct (truthy_text t); reflexivity. Qed.

Lemma thinking_trace_cons c rest :
  thinking_trace (c :: rest) =
  Pull c :: fst (send_thinking (fst (classify c))) ++ thinking_trace rest.
Proof. reflexivity. Qed.

Lemma pulled_thinking_trace chunks : pulled (thinking_trace chunks) = chunks.
Proof.
  induction chunks as [|c rest IH]; [reflexivity|].
  rewrite thinking_trace_cons, pulled_pull, pulled_app, pulled_send_thinking.
  cbn [app]. f_equal. exact IH.
Qed.

Lemma thinking_trace_quiet chunks : quiet (thinking_trace chunks).
Proof.
  induction chunks as [|c rest IH]; [constructor|].
  rewrite thinking_trace_cons. constructor; [reflexivity|].
  apply quiet_app; [apply send_thinking_quiet | exact IH].
Qed.
End Pulls.

Section Exceptions.
Variable w : World.

Lemma py_get_raises item k default e :
  py_get item k default = Raise e -> e = AttributeError.
Proof. destruct item; cbn; congruence. Qed.

Lemma collect_valid_raises valid_items futures e :
  collect_valid valid_items futures = Raise e -> e = AttributeError.
Proof.
  revert valid_items. induction futures as [|[future item] rest IH]; intros valid_items;
    cbn [collect_valid]; [discriminate|].
  destruct future as [[r|]|e0]; try apply IH.
  destruct (py_get item _ _) eqn:E; run_result; [apply IH|].
  intros H. injection H as <-. apply py_get_raises in E. exact E.
Qed.

(** The validator raises nothing that the loop of the search endpoint would
    take for a parse error. *)
Lemma validate_content_batch_uncaught content_items e :
  validate_content_batch w content_items = Raise e -> uncaught e.
Proof.
  unfold validate_content_batch.
  destruct (py_iter content_items) as [items|e0] eqn:E; run_result.
  - destruct (delivered w _) as [finished timed_out].
    destruct (collect_valid [] finished) as [valid_items|e0] eqn:Ec; run_result.
    + destruct timed_out; [|discriminate]. intros H. injection H as <-. reflexivity.
    + intros H. injection H as <-. apply collect_valid_raises in Ec. subst. reflexivity.
  - intros H. injection H as <-. destruct content_items; cbn in E; try discriminate;
      injection E as <-; reflexivity.
Qed.

Lemma for_each_raises {A B} (f : A -> result B) (P : exn -> Prop) (l : list A) e :
  (forall x e, f x = Raise e -> P e) -> for_each f l = Raise e -> P e.
Proof.
  intros Hf. induction l as [|x l IH]; cbn [for_each]; [discriminate|].
  destruct (f x) as [y|e0] eqn:E; run_result.
  - destruct (for_each f l) as [ys|e1]; run_result; [discriminate|].
    intros H. injection H as <-. apply IH. reflexivity.
  - intros H. injection H as <-. eapply Hf, E.
Qed.

Lemma ContentItem_init_raises kwargs e :
  ContentItem_init w kwargs = Raise e -> e = TypeError.
Proof.
  unfold ContentItem_init. destruct (existsb _ kwargs); [congruence|].
  destruct (existsb _ ContentItem_required); congruence.
Qed.

Lemma convert_item_uncaught item e : convert_item w item = Raise e -> uncaught e.
Proof.
  destruct item; try (cbn; intros H; injection H as <-; reflexivity).
  rewrite convert_item_dict. unfold clean_metadata_from_value.
  destruct (negb _); [discriminate|].
  destruct (dict_get _ _ _); try discriminate; intros H; injection H as <-; reflexivity.
Qed.

Lemma convert_to_content_items_uncaught validated_data e :
  convert_to_content_items w validated_data = Raise e -> uncaught e.
Proof.
  unfold convert_to_content_items.
  destruct (py_iter validated_data) as [items|e0] eqn:E; run_result.
  - apply (for_each_raises (convert_item w) uncaught). apply convert_item_uncaught.
  - intros H. injection H as <-. destruct validated_data; cbn in E; try discriminate;
      injection E as <-; reflexivity.
Qed.

(** After a parse that succeeded the search endpoint announces the number of
    items and then either sends the results and leaves the loop, or raises
    what the loop does not catch. *)
Lemma try_send_results_hit accumulated_content l :
  parse_accumulated w accumulated_content false = Ok (Some (PList l)) ->
  (exists validated_data r,
     validate_content_batch w (PList l) = Ok validated_data /\
     convert_to_content_items w (or_mock_results w validated_data (PList l)) = Ok r /\
     try_send_results w accumulated_content false =
     ([Yield (EvParsingComplete (length l)); Yield (EvResults r)], Ok true)) \/
  (exists e, uncaught e /\ raises_after_parse w (PList l) e /\
             try_send_results w accumulated_content false =
             ([Yield (EvParsingComplete (length l))], Raise e)).
Proof.
  intros Hp. unfold try_send_results. rewrite Hp, bind_lift. cbn [py_len].
  rewrite bind_lift, bind_yield, bind_lift.
  destruct (validate_content_batch w (PList l)) as [validated_data|e] eqn:Ev.
  - rewrite bind_lift.
    destruct (convert_to_content_items w _) as [results|e] eqn:Ec.
    + left. exists validated_data, results.
      split; [first [exact Ev | reflexivity]|]. split; [exact Ec | reflexivity].
    + right. exists e. split; [eapply convert_to_content_items_uncaught, Ec|].
      split; [|reflexivity]. right. exists validated_data. split; [exact Ev | exact Ec].
  - right. exists e. split; [eapply validate_content_batch_uncaught, Ev|].
    split; [|reflexivity]. left. exact Ev.
Qed.
End Exceptions.

Section SearchLoop.
Variable w : World.

Lemma accumulated_after_O chunks : accumulated_after O chunks = [].
Proof. reflexivity. Qed.

Lemma accumulated_after_S k c rest :
  accumulated_after (S k) (c :: rest) = answer_text c ++ accumulated_after k rest.
Proof. reflexivity. Qed.

(** A chunk without answer text: nothing is parsed. *)
Lemma no_text_is_silent accumulated_content results_sent c rest :
  truthy_text (snd (classify c)) = false ->
  search_loop w accumulated_content results_sent (c :: rest) =
  (_ ← pull c;
   _ ← send_thinking (fst (classify c));
   search_loop w accumulated_content results_sent rest).
Proof.
  intros Ht. cbn [search_loop]. destruct (classify c) as [thinking_text content_text].
  cbn [fst snd] in *. rewrite Ht. reflexivity.
Qed.

(** One round of the loop when the parse is silent. *)
Lemma search_loop_miss accumulated_content c rest :
  silent (parse_accumulated w (accumulated_content ++ answer_text c) false) ->
  search_loop w accumulated_content false (c :: rest) =
  ((Pull c :: fst (send_thinking (fst (classify c))), Ok tt) ≫= fun _ =>
   search_loop w (accumulated_content ++ answer_text c) false rest).
Proof.
  intros Hp.
  assert (search_loop w accumulated_content false (c :: rest) =
          (_ ← pull c;
           _ ← send_thinking (fst (classify c));
           search_loop w (accumulated_content ++ answer_text c) false rest)) as ->.
  { destruct (truthy_text (snd (classify c))) eqn:Ht.
    - apply failed_parse_is_silent; assumption.
    - rewrite no_text_is_silent by exact Ht. unfold answer_text. rewrite Ht, app_nil_r.
      reflexivity. }
  rewrite bind_pull.
  pose proof (send_thinking_returns (fst (classify c))) as Hs.
  destruct (send_thinking (fst (classify c))) as [t r]. cbn [fst snd] in *. subst r.
  rewrite !bind_ok. cbn [fst snd]. rewrite app_comm_cons. reflexivity.
Qed.

(** The loop while the parse is silent: the chunks are pulled one by one,
    their thinking is sent, their text is kept. *)
Lemma search_loop_skips k : forall accumulated_content chunks,
  (k <= length chunks)%nat ->
  (forall j, (j < k)%nat ->
     silent (parse_accumulated w
               (accumulated_content ++ accumulated_after (S j) chunks) false)) ->
  search_loop w accumulated_content false chunks =
  ((thinking_trace (take k chunks), Ok tt) ≫= fun _ =>
   search_loop w (accumulated_content ++ accumulated_after k chunks) false (drop k chunks)).
Proof.
  induction k as [|k IH]; intros acc chunks Hk Hfail.
  - rewrite take_0, drop_0, accumulated_after_O, app_nil_r. cbn [thinking_trace flat_map].
    rewrite bind_nil. reflexivity.
  - destruct chunks as [|c rest]; [cbn in Hk; lia|].
    rewrite search_loop_miss.
    + rewrite (IH (acc ++ answer_text c) rest).
      * rewrite !bind_ok. cbn [fst snd take drop]. rewrite thinking_trace_cons.
        rewrite accumulated_after_S, !app_assoc. reflexivity.
      * cbn in Hk. lia.
      * intros j Hj. specialize (Hfail (S j) ltac:(lia)).
        rewrite accumulated_after_S, app_assoc in Hfail. exact Hfail.
    + specialize (Hfail O ltac:(lia)).
      rewrite accumulated_after_S, accumulated_after_O, app_nil_r in Hfail. exact Hfail.
Qed.

(** The round in which the text parses: the chunk is the last one pulled. *)
Lemma search_loop_hit accumulated_content c rest l :
  truthy_text (snd (classify c)) = true ->
  parse_accumulated w (accumulated_content ++ answer_text c) false = Ok (Some (PList l)) ->
  let before := Pull c :: fst (send_thinking (fst (classify c))) ++
                [Yield (EvParsingComplete (length l))] in
  (exists validated_data r,
     validate_content_batch w (PList l) = Ok validated_data /\
     convert_to_content_items w (or_mock_results w validated_data (PList l)) = Ok r /\
     search_loop w accumulated_content false (c :: rest) =
     (before ++ [Yield (EvResults r)], Ok (accumulated_content ++ answer_text c, true))) \/
  (exists e, raises_after_parse w (PList l) e /\
             search_loop w accumulated_content false (c :: rest) = (before, Raise e)).
Proof.
  intros Ht Hp before. cbn [search_loop]. unfold answer_text in *.
  destruct (classify c) as [thinking_text content_text]. cbn [fst snd] in *.
  rewrite Ht in *. rewrite bind_pull.
  pose proof (send_thinking_returns thinking_text) as Hs.
  destruct (send_thinking thinking_text) as [t r]. cbn [fst snd] in *. subst r.
  rewrite bind_ok. cbn [fst snd].
  destruct (try_send_results_hit w _ l Hp)
    as [(v & r & Hv & Hr & ->) | (e & He & Hraise & ->)].
  - left. exists v, r. split; [exact Hv|]. split; [exact Hr|].
    cbn [gen_try]. rewrite bind_ok. cbn [fst snd mret gen_ret].
    unfold before. rewrite app_nil_r. cbn [app]. rewrite <- app_assoc. reflexivity.
  - right. exists e. split; [exact Hraise|].
    cbn [gen_try]. unfold uncaught in He. rewrite He, bind_raise.
    cbn [fst snd]. reflexivity.
Qed.

(** The round in which the parse raises what the loop does not catch. *)
Lemma search_loop_raise accumulated_content c rest e :
  truthy_text (snd (classify c)) = true ->
  parse_accumulated w (accumulated_content ++ answer_text c) false = Raise e ->
  uncaught e ->
  search_loop w accumulated_content false (c :: rest) =
  (Pull c :: fst (send_thinking (fst (classify c))), Raise e).
Proof.
  intros Ht Hp He. cbn [search_loop]. unfold answer_text in *.
  destruct (classify c) as [thinking_text content_text]. cbn [fst snd] in *.
  rewrite Ht in *. rewrite bind_pull.
  pose proof (send_thinking_returns thinking_text) as Hs.
  destruct (send_thinking thinking_text) as [t r]. cbn [fst snd] in *. subst r.
  rewrite bind_ok. cbn [fst snd].
  unfold try_send_results. rewrite Hp, bind_lift. cbn [gen_try].
  unfold uncaught in He. rewrite He, bind_raise. cbn [fst snd].
  rewrite app_nil_r. reflexivity.
Qed.

(** A text that parses for the first time has just grown. *)
Lemma first_parse_has_text chunks k data :
  first_parse_at w chunks k data ->
  exists c, chunks !! k = Some c /\ truthy_text (snd (classify c)) = true.
Proof.
  intros [[Hk Hp] Hfirst].
  destruct (chunks !! k) as [c|] eqn:E; [|apply lookup_ge_None in E; lia].
  exists c. split; [reflexivity|].
  destruct (truthy_text (snd (classify c))) eqn:Ht; [reflexivity|]. exfalso.
  assert (accumulated_after (S k) chunks = accumulated_after k chunks) as Hsame.
  { unfold accumulated_after. rewrite (take_S_r _ _ _ E), List.map_app.
    unfold join. rewrite List.concat_app. cbn. unfold answer_text. rewrite Ht.
    rewrite !app_nil_r. reflexivity. }
  rewrite Hsame in Hp. destruct k as [|k].
  - rewrite accumulated_after_O in Hp. vm_compute in Hp. discriminate.
  - apply (Hfirst k data); [lia|]. split; [lia | exact Hp].
Qed.
End SearchLoop.

Section Consumption.
Variable w : World.

Lemma accumulated_after_snoc chunks k c :
  chunks !! k = Some c ->
  accumulated_after (S k) chunks = accumulated_after k chunks ++ answer_text c.
Proof.
  intros E. unfold accumulated_after. rewrite (take_S_r _ _ _ E), List.map_app.
  unfold join. rewrite List.concat_app. cbn. rewrite app_nil_r. reflexivity.
Qed.

Lemma accumulated_after_all chunks k :
  (length chunks <= k)%nat -> accumulated_after k chunks = accumulated_after (length chunks) chunks.
Proof. intros H. unfold accumulated_after. rewrite !take_ge by lia. reflexivity. Qed.

(** The loop of the recommendation endpoint takes every chunk and keeps all
    the answer text. *)
Lemma accumulate_loop_run accumulated_content chunks :
  accumulate_loop accumulated_content chunks =
  (thinking_trace chunks,
   Ok (accumulated_content ++ accumulated_after (length chunks) chunks)).
Proof.
  revert accumulated_content. induction chunks as [|c rest IH]; intros acc.
  - cbn. rewrite app_nil_r. reflexivity.
  - cbn [accumulate_loop]. rewrite bind_pull.
    assert ((if truthy_text (snd (classify c))
             then accumulate_loop (acc ++ text_or_empty (snd (classify c))) rest
             else accumulate_loop acc rest) =
            accumulate_loop (acc ++ answer_text c) rest) as Hstep.
    { unfold answer_text. destruct (truthy_text _); [reflexivity|].
      rewrite app_nil_r. reflexivity. }
    destruct (classify c) as [thinking_text content_text] eqn:Ec. cbn [fst snd] in *.
    rewrite Hstep, IH.
    pose proof (send_thinking_returns thinking_text) as Hs.
    rewrite thinking_trace_cons, Ec. cbn [fst].
    destruct (send_thinking thinking_text) as [t r]. cbn [fst snd] in *. subst r.
    rewrite bind_ok. cbn [fst snd length].
    rewrite accumulated_after_S, app_assoc. reflexivity.
Qed.

Lemma pulled_finish {A} (sent : A -> bool) (g : gen A) :
  pulled (trace_of (gen_try (finish w sent g) any_Exception
                      (fun e => yield (EvError e)))) = pulled (fst g).
Proof.
  destruct g as [t [a|e]].
  - destruct (sent a) eqn:Ha.
    + rewrite finish_sent by exact Ha. rewrite pulled_app. cbn. apply app_nil_r.
    + rewrite finish_unsent by exact Ha. rewrite pulled_app. cbn. apply app_nil_r.
  - rewrite finish_raised, pulled_app. cbn. apply app_nil_r.
Qed.

Lemma pull_free_bind {A B} (m : gen A) (f : A -> gen B) :
  pulled (fst m) = [] -> (forall a, pulled (fst (f a)) = []) ->
  pulled (fst (m ≫= f)) = [].
Proof.
  intros Hm Hf. rewrite pulled_bind, Hm. destruct (snd m); [apply Hf | reflexivity].
Qed.

Lemma pull_free_lift {A B} (r : result A) (f : A -> gen B) :
  (forall a, pulled (fst (f a)) = []) -> pulled (fst (lift r ≫= f)) = [].
Proof. intros. apply pull_free_bind; [reflexivity | assumption]. Qed.

Lemma pull_free_yield {B} e (f : unit -> gen B) :
  (forall u, pulled (fst (f u)) = []) -> pulled (fst (yield e ≫= f)) = [].
Proof. intros. apply pull_free_bind; [reflexivity | assumption]. Qed.

Lemma try_send_recommendations_pull_free svc' accumulated_content results_sent :
  pulled (fst (try_send_recommendations w svc' accumulated_content results_sent)) = [].
Proof.
  unfold try_send_recommendations.
  apply pull_free_lift. intros [results_data|]; [|reflexivity].
  apply pull_free_lift. intros n. apply pull_free_yield. intros _.
  apply pull_free_lift. intros links. apply pull_free_lift. intros items.
  apply pull_free_lift. intros items'. apply pull_free_lift. intros results.
  apply pull_free_yield. intros _. reflexivity.
Qed.

Lemma stream_recommendations_pulls svc' api :
  pulled (fst (stream_recommendations w svc' api)) = get_recommendations_streaming w svc' api.
Proof.
  unfold stream_recommendations. rewrite accumulate_loop_run, pulled_bind.
  cbn [fst snd]. rewrite pulled_thinking_trace.
  rewrite pull_free_lift; [apply app_nil_r|].
  intros _. rewrite pulled_try; [apply try_send_recommendations_pull_free | reflexivity].
Qed.

(** When the complete text does not parse, the recommendation endpoint sends
    nothing of its own. *)
Lemma stream_recommendations_miss svc' api :
  let chunks := get_recommendations_streaming w svc' api in
  (forall data,
     parse_accumulated w (accumulated_after (length chunks) chunks) false <> Ok (Some data)) ->
  gen_try (stream_recommendations w svc' api) any_Exception (fun api_error => mret false) =
  (thinking_trace chunks, Ok false).
Proof.
  intros chunks Hp. unfold stream_recommendations. fold chunks.
  rewrite accumulate_loop_run, bind_ok. cbn [fst snd app].
  destruct chunks as [|c rest] eqn:E.
  - cbn. reflexivity.
  - rewrite bind_lift. unfold try_send_recommendations. rewrite bind_lift.
    destruct (parse_accumulated w _ false) as [[data|]|e] eqn:Ep.
    + exfalso. exact (Hp data eq_refl).
    + cbn. rewrite app_nil_r. reflexivity.
    + apply parse_accumulated_raises in Ep as [-> | [-> | ->]];
        cbn; rewrite !app_nil_r; reflexivity.
Qed.
End Consumption.

Section Attempts.
Variable w : World.

Lemma accumulated_after_le chunks j k :
  (j <= k)%nat -> exists t, accumulated_after k chunks = accumulated_after j chunks ++ t.
Proof.
  intros H. unfold accumulated_after, join.
  exists (concat (List.map answer_text (take (k - length (take j chunks)) (drop j chunks)))).
  rewrite <- List.concat_app, <- List.map_app. do 2 f_equal.
  rewrite <- (take_drop j chunks) at 1.
  rewrite take_app, take_take, Nat.min_r by lia. reflexivity.
Qed.

(** Before the text first parses, the attempts are silent: an exception
    from underneath the decoder would come again with the longer text. *)
Lemma first_parse_silent chunks k data :
  first_parse_at w chunks k data ->
  forall j, (j < k)%nat -> silent (attempt w chunks j).
Proof.
  intros [[Hk Hp] Hfirst] j Hj. unfold attempt.
  destruct (parse_accumulated w (accumulated_after (S j) chunks) false) as [[d|]|e] eqn:E.
  - exfalso. apply (Hfirst j d Hj). split; [lia | exact E].
  - left. reflexivity.
  - right. exists e. split; [reflexivity|].
    destruct (accumulated_after_le chunks (S j) (S k) ltac:(lia)) as [t Ht].
    destruct (parse_accumulated_raises _ _ _ _ E) as [-> | He]; [reflexivity|].
    exfalso. rewrite Ht in Hp. rewrite (parse_accumulated_ext w _ t e E) in Hp;
      [discriminate|]. destruct He as [-> | ->]; discriminate.
Qed.

Lemma silent_dec {A} (r : result (option A)) : silent r \/ ~ silent r.
Proof.
  destruct r as [[a|]|e].
  - right. intros [H | (e & H & _)]; discriminate H.
  - left. left. reflexivity.
  - destruct (is_JSONDecodeError_or_KeyError e) eqn:E.
    + left. right. exists e. split; [reflexivity | exact E].
    + right. intros [H | (e' & H & He)]; [discriminate H|].
      injection H as <-. congruence.
Qed.

(** What is not silent: a parsed list, or an exception the loop does not
    catch. *)
Lemma loud_attempt chunks k :
  ~ silent (attempt w chunks k) ->
  (exists l, attempt w chunks k = Ok (Some (PList l))) \/
  (exists e, attempt w chunks k = Raise e /\ uncaught e).
Proof.
  intros H. destruct (attempt w chunks k) as [[data|]|e] eqn:E.
  - left. destruct (parse_accumulated_list w _ _ _ E) as [l ->]. eauto.
  - destruct H. left. reflexivity.
  - right. exists e. split; [reflexivity|]. unfold uncaught.
    destruct (is_JSONDecodeError_or_KeyError e) eqn:He; [|reflexivity].
    destruct H. right. eauto.
Qed.

(** Either every attempt up to chunk [n] is silent, or one of them is the
    first that is not. *)
Lemma attempts_cases chunks n :
  (forall j, (j < n)%nat -> silent (attempt w chunks j)) \/
  exists k, (k < n)%nat /\
    (forall j, (j < k)%nat -> silent (attempt w chunks j)) /\
    ~ silent (attempt w chunks k).
Proof.
  induction n as [|n [IH | (k & Hk & Hbefore & Hloud)]].
  - left. intros j Hj. lia.
  - destruct (silent_dec (attempt w chunks n)) as [Hs | Hs].
    + left. intros j Hj. destruct (decide (j = n)) as [-> | Hne]; [exact Hs|].
      apply IH. lia.
    + right. exists n. split; [lia|]. split; [exact IH | exact Hs].
  - right. exists k. split; [lia|]. split; assumption.
Qed.

(** The first attempt that is not silent follows a chunk with answer text:
    without new text the parse is the one before. *)
Lemma loud_attempt_has_text chunks k :
  (k < length chunks)%nat ->
  (forall j, (j < k)%nat -> silent (attempt w chunks j)) ->
  ~ silent (attempt w chunks k) ->
  exists c, chunks !! k = Some c /\ truthy_text (snd (classify c)) = true.
Proof.
  intros Hk Hbefore Hloud.
  destruct (chunks !! k) as [c|] eqn:E; [|apply lookup_ge_None in E; lia].
  exists c. split; [reflexivity|].
  destruct (truthy_text (snd (classify c))) eqn:Ht; [reflexivity|]. exfalso.
  assert (accumulated_after (S k) chunks = accumulated_after k chunks) as Hsame.
  { rewrite (accumulated_after_snoc chunks k c E). unfold answer_text. rewrite Ht.
    apply app_nil_r. }
  apply Hloud. unfold attempt. rewrite Hsame. destruct k as [|k].
  - rewrite accumulated_after_O. left. vm_compute. reflexivity.
  - apply (Hbefore k). lia.
Qed.
End Attempts.

(** ** C2: when the endpoints stop consuming the model stream *)


Section EarlyExit.
Variable w : World.
Variable svc : GeminiContentService.
Variable key : pyval.
Variable api : api_stream.
Hypothesis client_built : client_init w key = Ok tt.

Lemma set_api_key_built : set_api_key w svc key = Ok (with_key svc key).
Proof. unfold set_api_key. rewrite client_built. reflexivity. Qed.

(** The search stream up to the first attempt that is not silent. *)
Lemma search_stream_skips query k c :
  let chunks := search_content_streaming w (with_key svc key) api in
  chunks !! k = Some c ->
  (forall j, (j < k)%nat -> silent (attempt w chunks j)) ->
  stream_request w svc (SearchMode query) key api =
  Yield (EvThought (initial_thought_search query)) ::
  trace_of (gen_try
              (finish w snd
                 ((thinking_trace (take k chunks), Ok tt) ≫= fun _ =>
                  search_loop w (accumulated_after k chunks) false (c :: drop (S k) chunks)))
              any_Exception (fun e => yield (EvError e))).
Proof.
  intros chunks Hc Hbefore. cbn [stream_request].
  rewrite generate_stream_unfold, set_api_key_built. fold chunks.
  rewrite (search_loop_skips w k [] chunks).
  - cbn [app]. rewrite (drop_S _ _ _ Hc). reflexivity.
  - apply lookup_lt_Some in Hc. lia.
  - intros j Hj. exact (Hbefore j Hj).
Qed.

Lemma pulled_up_to chunks k c (t : list action) :
  chunks !! k = Some c -> pulled t = [] ->
  pulled (thinking_trace (take k chunks) ++
          Pull c :: fst (send_thinking (fst (classify c))) ++ t) = take (S k) chunks.
Proof.
  intros Hc Ht.
  rewrite pulled_app, pulled_thinking_trace, pulled_pull, pulled_app,
    pulled_send_thinking, Ht.
  cbn [app]. symmetry. apply take_S_r, Hc.
Qed.

(** The search stream ends with the first attempt that is not silent: with
    [error] when the parse raises, and after [parsing_complete] with the
    results and [complete], or with [error] when validation or conversion
    raises. *)
Lemma search_stream_loud query k :
  let chunks := search_content_streaming w (with_key svc key) api in
  (k < length chunks)%nat ->
  (forall j, (j < k)%nat -> silent (attempt w chunks j)) ->
  ~ silent (attempt w chunks k) ->
  let t := stream_request w svc (SearchMode query) key api in
  exists c, chunks !! k = Some c /\
    let before := Yield (EvThought (initial_thought_search query)) ::
                  thinking_trace (take k chunks) ++
                  Pull c :: fst (send_thinking (fst (classify c))) in
    (exists e, attempt w chunks k = Raise e /\ uncaught e /\
               t = before ++ [Yield (EvError e)]) \/
    (exists l, attempt w chunks k = Ok (Some (PList l)) /\
       ((exists validated_data r,
           validate_content_batch w (PList l) = Ok validated_data /\
           convert_to_content_items w (or_mock_results w validated_data (PList l)) = Ok r /\
           t = before ++ [Yield (EvParsingComplete (length l)); Yield (EvResults r);
                          Yield EvComplete]) \/
        (exists e, raises_after_parse w (PList l) e /\
           t = before ++ [Yield (EvParsingComplete (length l)); Yield (EvError e)]))).
Proof.
  intros chunks Hk Hbefore Hloud t.
  destruct (loud_attempt_has_text w chunks k Hk Hbefore Hloud) as (c & Hc & Htext).
  exists c. split; [exact Hc|]. intros before.
  unfold t. rewrite (search_stream_skips query k c Hc Hbefore). fold chunks.
  rewrite bind_ok. cbn [fst snd].
  destruct (loud_attempt w chunks k Hloud) as [[l Hp] | (e & Hp & He)].
  - right. exists l. split; [exact Hp|].
    unfold attempt in Hp. rewrite (accumulated_after_snoc chunks k c Hc) in Hp.
    destruct (search_loop_hit w (accumulated_after k chunks) c (drop (S k) chunks) l Htext Hp)
      as [(v & r & Hv & Hr & ->) | (e & Hraise & ->)]; cbn [fst snd].
    + left. exists v, r. split; [exact Hv|]. split; [exact Hr|].
      rewrite finish_sent by reflexivity. unfold before.
      cbn [app]. rewrite <- !app_assoc. cbn [app]. rewrite <- !app_assoc. reflexivity.
    + right. exists e. split; [exact Hraise|].
      rewrite finish_raised. unfold before.
      cbn [app]. rewrite <- !app_assoc. cbn [app]. rewrite <- !app_assoc. reflexivity.
  - left. exists e. split; [exact Hp|]. split; [exact He|].
    unfold attempt in Hp. rewrite (accumulated_after_snoc chunks k c Hc) in Hp.
    rewrite (search_loop_raise w _ c _ e Htext Hp He). cbn [fst snd].
    rewrite finish_raised. unfold before.
    cbn [app]. rewrite <- !app_assoc. reflexivity.
Qed.

(** Validation and conversion that returned raise nothing. *)
Lemma returned_raises_nothing data validated_data r :
  validate_content_batch w data = Ok validated_data ->
  convert_to_content_items w (or_mock_results w validated_data data) = Ok r ->
  forall e, ~ raises_after_parse w data e.
Proof.
  intros Hv Hr e [H | (v & H & Hc)]; [congruence|].
  rewrite Hv in H. injection H as <-. congruence.
Qed.

Lemma search_stops_at_first_parse query k data :
  let chunks := search_content_streaming w (with_key svc key) api in
  first_parse_at w chunks k data ->
  let t := stream_request w svc (SearchMode query) key api in
  pulled t = take (S k) chunks /\
  exists l, data = PList l /\
    ((exists before r,
        (forall e, ~ raises_after_parse w data e) /\
        events_of t = before ++ [EvParsingComplete (length l); EvResults r; EvComplete]) \/
     (exists before e,
        raises_after_parse w data e /\
        events_of t = before ++ [EvParsingComplete (length l); EvError e])).
Proof.
  intros chunks Hfirst t.
  pose proof (first_parse_silent w chunks k data Hfirst) as Hbefore.
  destruct Hfirst as [[Hk Hp] _].
  assert (~ silent (attempt w chunks k)) as Hloud.
  { unfold attempt. rewrite Hp. intros [H | (e & H & _)]; discriminate H. }
  destruct (search_stream_loud query k Hk Hbefore Hloud) as (c & Hc & Hcases).
  fold chunks in Hc, Hcases. fold t in Hcases. cbv zeta in Hcases.
  destruct Hcases as [(e & He & _) | (l & Hl & Hcases)].
  { unfold attempt in He. congruence. }
  unfold attempt in Hl. rewrite Hp in Hl. injection Hl as ->.
  destruct Hcases as [(v & r & Hv & Hr & Ht) | (e & Hraise & Ht)]; rewrite Ht.
  - split.
    + cbn [app]. rewrite pulled_yield, <- app_assoc.
      apply (pulled_up_to chunks k c); [exact Hc | reflexivity].
    + exists l. split; [reflexivity|]. left.
      exists (EvThought (initial_thought_search query) ::
              events_of (thinking_trace (take k chunks) ++
                         Pull c :: fst (send_thinking (fst (classify c))))), r.
      split; [exact (returned_raises_nothing _ _ _ Hv Hr)|].
      cbn [app]. rewrite events_of_yield, !events_of_app. cbn [app].
      rewrite <- !app_assoc. reflexivity.
  - split.
    + cbn [app]. rewrite pulled_yield, <- app_assoc.
      apply (pulled_up_to chunks k c); [exact Hc | reflexivity].
    + exists l. split; [reflexivity|]. right.
      exists (EvThought (initial_thought_search query) ::
              events_of (thinking_trace (take k chunks) ++
                         Pull c :: fst (send_thinking (fst (classify c))))), e.
      split; [exact Hraise|].
      cbn [app]. rewrite events_of_yield, !events_of_app. cbn [app].
      rewrite <- !app_assoc. reflexivity.
Qed.

(** A parse that raises what the loop does not catch ends the stream, with
    the chunk that brought it the last one pulled. *)
Lemma search_stops_at_loud_parse query k e :
  let chunks := search_content_streaming w (with_key svc key) api in
  (k < length chunks)%nat ->
  (forall j, (j < k)%nat -> silent (attempt w chunks j)) ->
  attempt w chunks k = Raise e -> uncaught e ->
  let t := stream_request w svc (SearchMode query) key api in
  pulled t = take (S k) chunks /\
  exists before, unremarkable before /\ events_of t = before ++ [EvError e].
Proof.
  intros chunks Hk Hbefore Hp He t.
  assert (~ silent (attempt w chunks k)) as Hloud.
  { rewrite Hp. intros [H | (e' & H & He')]; [discriminate H|].
    injection H as <-. unfold uncaught in He. congruence. }
  destruct (search_stream_loud query k Hk Hbefore Hloud) as (c & Hc & Hcases).
  fold chunks in Hc, Hcases. fold t in Hcases. cbv zeta in Hcases.
  destruct Hcases as [(e' & He' & _ & Ht) | (l & Hl & _)]; [|congruence].
  assert (e' = e) as -> by congruence. rewrite Ht. split.
  - cbn [app]. rewrite pulled_yield, <- app_assoc.
    apply (pulled_up_to chunks k c); [exact Hc | reflexivity].
  - exists (EvThought (initial_thought_search query) ::
            events_of (thinking_trace (take k chunks) ++
                       Pull c :: fst (send_thinking (fst (classify c))))).
    split.
    + constructor; [split; reflexivity|].
      apply quiet_unremarkable, quiet_app; [apply thinking_trace_quiet|].
      constructor; [reflexivity | apply send_thinking_quiet].
    + cbn [app]. rewrite events_of_yield, !events_of_app. cbn [app].
      rewrite <- !app_assoc. reflexivity.
Qed.

Lemma search_without_parse query :
  let chunks := search_content_streaming w (with_key svc key) api in
  (forall k, (k < length chunks)%nat -> silent (attempt w chunks k)) ->
  stream_request w svc (SearchMode query) key api =
  Yield (EvThought (initial_thought_search query)) :: thinking_trace chunks ++
  [Yield (EvResults [mock_item w]); Yield EvComplete].
Proof.
  intros chunks Hnone. cbn [stream_request].
  rewrite generate_stream_unfold, set_api_key_built. fold chunks.
  rewrite (search_loop_skips w (length chunks) [] chunks).
  - rewrite take_ge, drop_ge by lia. cbn [search_loop]. rewrite bind_ok.
    cbn [fst snd mret gen_ret]. rewrite app_nil_r.
    rewrite finish_unsent by reflexivity. reflexivity.
  - lia.
  - intros j Hj. exact (Hnone j Hj).
Qed.

Lemma recommendations_take_all :
  let chunks := get_recommendations_streaming w (with_key svc key) api in
  let t := stream_request w svc RecommendationMode key api in
  pulled t = chunks /\
  ((forall data,
      parse_accumulated w (accumulated_after (length chunks) chunks) false
      <> Ok (Some data)) ->
   t = Yield (EvThought initial_thought_recommendations) :: thinking_trace chunks ++
       [Yield (EvResults [mock_item w]); Yield EvComplete]).
Proof.
  intros chunks t. unfold t. cbn [stream_request].
  rewrite generate_stream_attempt_unfold, set_api_key_built. split.
  - rewrite pulled_yield, pulled_finish, pulled_try by reflexivity.
    apply stream_recommendations_pulls.
  - intros Hp. rewrite (stream_recommendations_miss w (with_key svc key) api Hp).
    rewrite finish_unsent by reflexivity. reflexivity.
Qed.
End EarlyExit.




(** ** C1: one results event and one terminal event *)


Section SearchEndings.
Variable w : World.
Variable svc : GeminiContentService.
Variable key : pyval.
Variable api : api_stream.
Hypothesis client_built : client_init w key = Ok tt.

Lemma search_raises_at_loud chunks k e :
  search_raises_at w chunks k e -> ~ silent (attempt w chunks k).
Proof.
  intros (_ & _ & [[Hp He] | (data & Hp & _)]) [H | (e' & H & He')];
    rewrite Hp in H; try discriminate H.
  injection H as <-. unfold uncaught in He. congruence.
Qed.

Lemma quiet_up_to query chunks k c :
  quiet (Yield (EvThought (initial_thought_search query)) ::
         thinking_trace (take k chunks) ++
         Pull c :: fst (send_thinking (fst (classify c)))).
Proof.
  constructor; [reflexivity|].
  apply quiet_app; [apply thinking_trace_quiet|].
  constructor; [reflexivity | apply send_thinking_quiet].
Qed.

(** How the search stream ends once the client is built: with the results
    and [complete] when nothing raises, with [error] when the parse,
    validation or conversion raises what the loop does not catch. *)
Lemma search_stream_ends query :
  let chunks := search_content_streaming w (with_key svc key) api in
  let evs := events_of (stream_request w svc (SearchMode query) key api) in
  (ends_with_results evs /\ forall e, ~ search_raises w chunks e) \/
  (exists e, search_raises w chunks e /\ ends_with_error evs e).
Proof.
  intros chunks evs.
  destruct (attempts_cases w chunks (length chunks)) as [Hnone | (k & Hk & Hbefore & Hloud)].
  - left. split.
    + unfold evs. rewrite (search_without_parse w svc key api client_built query Hnone).
      fold chunks.
      exists (events_of (Yield (EvThought (initial_thought_search query)) ::
                         thinking_trace chunks)), [mock_item w].
      split.
      * apply quiet_unremarkable. constructor; [reflexivity | apply thinking_trace_quiet].
      * rewrite app_comm_cons, events_of_app. reflexivity.
    + intros e (k & Hraise). apply (search_raises_at_loud chunks k e Hraise).
      destruct Hraise as (Hk & _). exact (Hnone k Hk).
  - destruct (search_stream_loud w svc key api client_built query k Hk Hbefore Hloud)
      as (c & Hc & Hcases).
    fold chunks in Hc, Hcases. cbv zeta in Hcases.
    pose proof (quiet_up_to query chunks k c) as Hquiet.
    destruct Hcases as [(e & Hp & He & Ht) | (l & Hp & [(v & r & Hv & Hr & Ht) | (e & Hraise & Ht)])].
    + right. exists e. split.
      * exists k. split; [exact Hk|]. split; [exact Hbefore|]. left. split; assumption.
      * unfold evs. rewrite Ht. eexists. split; [apply quiet_unremarkable, Hquiet|].
        rewrite events_of_app. reflexivity.
    + left. split.
      * unfold evs. rewrite Ht.
        exists (events_of ((Yield (EvThought (initial_thought_search query)) ::
                            thinking_trace (take k chunks) ++
                            Pull c :: fst (send_thinking (fst (classify c)))) ++
                           [Yield (EvParsingComplete (length l))])), r.
        split.
        -- apply quiet_unremarkable, quiet_app; [exact Hquiet|].
           constructor; [reflexivity | constructor].
        -- rewrite !events_of_app. cbn. rewrite <- !app_assoc. reflexivity.
      * intros e (k' & Hraise).
        pose proof (search_raises_at_loud chunks k' e Hraise) as Hloud'.
        destruct Hraise as (Hk' & Hbefore' & Hcase).
        destruct (lt_eq_lt_dec k' k) as [[Hlt | ->] | Hgt].
        -- exact (Hloud' (Hbefore k' Hlt)).
        -- destruct Hcase as [[Hp' _] | (data & Hp' & Hraise)]; [congruence|].
           rewrite Hp in Hp'. injection Hp' as <-.
           exact (returned_raises_nothing w _ _ _ Hv Hr e Hraise).
        -- exact (Hloud (Hbefore' k Hgt)).
    + right. exists e. split.
      * exists k. split; [exact Hk|]. split; [exact Hbefore|]. right.
        exists (PList l). split; assumption.
      * unfold evs. rewrite Ht.
        exists (events_of ((Yield (EvThought (initial_thought_search query)) ::
                            thinking_trace (take k chunks) ++
                            Pull c :: fst (send_thinking (fst (classify c)))) ++
                           [Yield (EvParsingComplete (length l))])).
        split.
        -- apply quiet_unremarkable, quiet_app; [exact Hquiet|].
           constructor; [reflexivity | constructor].
        -- rewrite !events_of_app. cbn. rewrite <- !app_assoc. reflexivity.
Qed.
End SearchEndings.



(** ** C4: a model stream that fails at once *)

Section MockStream.
Variable w : World.

Lemma insert_at_nil {A} (i : nat) (x : A) : insert_at i x [] = [x].
Proof. unfold insert_at. rewrite take_nil, drop_nil. reflexivity. Qed.

(** Without a key, or when the model fails before its first chunk, the
    stream is the mock response. *)
Lemma failed_stream_is_mock svc' e :
  _call_gemini_api_for_results_streaming w svc' {| api_chunks := []; api_failure := Some e |}
  = _create_mock_streaming_response.
Proof.
  unfold _call_gemini_api_for_results_streaming. destruct (negb _); reflexivity.
Qed.

Lemma parse_mock_text :
  parse_accumulated w mock_results_text false = Ok (Some (PList [PDict mock_stream_item])).
Proof. vm_compute. reflexivity. Qed.

Lemma mock_stream_text :
  accumulated_after (length _create_mock_streaming_response) _create_mock_streaming_response
  = mock_results_text.
Proof. vm_compute. reflexivity. Qed.

(** A batch of one dict that meets its deadline. *)
Lemma validate_batch_single d :
  in_time w 1 ->
  validate_content_batch w (PList [PDict d]) =
  Ok (PList (match kept (validate_single_item w (PDict d), PDict d) with
             | Some r => [r]
             | None => []
             end)).
Proof.
  intros Htime. unfold validate_content_batch. cbn [py_iter]. run_result.
  cbn [List.map]. unfold delivered. cbn [as_completed]. rewrite insert_at_nil.
  assert ((match batch_deadline w with
           | None => ([(validate_single_item w (PDict d), PDict d)], false)
           | Some k => (take k [(validate_single_item w (PDict d), PDict d)],
                        (k <? length [(validate_single_item w (PDict d), PDict d)])%nat)
           end) = ([(validate_single_item w (PDict d), PDict d)], false)) as ->.
  { unfold in_time in Htime. destruct (batch_deadline w) as [k|]; [|reflexivity].
    rewrite take_ge by (cbn; lia). f_equal. apply Nat.ltb_ge. cbn. lia. }
  unfold kept. cbn [fst]. rewrite validate_single_item_dict. cbv zeta.
  destruct (is_valid _); reflexivity.
Qed.

Lemma convert_validated_mock (v : pyval) :
  convert_to_content_items w
    (PList [PDict (dict_set mock_stream_item (py "validation") v)])
  = Ok [{| title := PStr (py "Attention Is All You Need - Transformer Paper");
           type := PStr (py "academic");
           description := PStr (py "The groundbreaking paper that introduced the Transformer architecture, revolutionizing natural language processing.");
           source := PStr (py "arXiv");
           relevance := PStr (py "Foundational research in modern AI");
           url := PStr [];
           timestamp := PStr (clock w);
           validation := v |}].
Proof. vm_compute. reflexivity. Qed.

Lemma convert_linked_mock (u : pyval) :
  convert_to_content_items w (PList [PDict (dict_set mock_stream_item (py "url") u)])
  = Ok [{| title := PStr (py "Attention Is All You Need - Transformer Paper");
           type := PStr (py "academic");
           description := PStr (py "The groundbreaking paper that introduced the Transformer architecture, revolutionizing natural language processing.");
           source := PStr (py "arXiv");
           relevance := PStr (py "Foundational research in modern AI");
           url := u;
           timestamp := PStr (clock w);
           validation := PNone |}].
Proof. vm_compute. reflexivity. Qed.

(** The search endpoint on the text of the mock stream: the item passes the
    validator as it is, or the mock results replace it; the title and the
    source are the same. *)
Lemma try_send_results_mock :
  in_time w 1 ->
  exists item,
    try_send_results w mock_results_text false =
    ([Yield (EvParsingComplete 1); Yield (EvResults [item])], Ok true) /\
    title item = PStr (py "Attention Is All You Need - Transformer Paper") /\
    source item = PStr (py "arXiv").
Proof.
  intros Htime. unfold try_send_results. rewrite parse_mock_text, bind_lift.
  cbn [py_len length]. rewrite bind_lift, bind_yield, bind_lift.
  rewrite (validate_batch_single mock_stream_item Htime).
  unfold kept. cbn [fst]. rewrite validate_single_item_dict. cbv zeta.
  destruct (is_valid _).
  - rewrite bind_lift.
    change (or_mock_results w (PList [?x]) ?y) with (PList [x]).
    rewrite convert_validated_mock. eexists. split; [reflexivity|]. split; reflexivity.
  - rewrite bind_lift.
    change (or_mock_results w (PList []) (PList [PDict mock_stream_item]))
      with _get_mock_results.
    rewrite convert_mock_results. exists (mock_item w). split; [reflexivity|].
    split; reflexivity.
Qed.

Lemma mock_stream_item_titled :
  exists ci,
    titled w (PDict mock_stream_item) ci (py "Attention Is All You Need - Transformer Paper").
Proof. eexists. split; vm_compute; reflexivity. Qed.

(** The links of a single item. *)
Lemma generate_links_single svc' item ci t :
  titled w item ci t ->
  generate_links_by_title_parallel w svc' (PList [item]) =
  Ok [(PStr t, item_links w svc' 0 item ci)].
Proof.
  intros Hitem. unfold generate_links_by_title_parallel. cbn [py_len py_iter length].
  run_result. change (ThreadPoolExecutor _) with (Ok 1 : result Z). run_result.
  cbn [imap as_completed]. rewrite insert_at_nil.
  rewrite (collect_links_step w svc' [] 0 item ci t [] Hitem). reflexivity.
Qed.

(** The recommendation endpoint on the text of the mock stream: the item
    gets the first of its links as URL. *)
Lemma try_send_recommendations_mock svc' :
  exists item,
    try_send_recommendations w svc' mock_results_text false =
    ([Yield (EvParsingComplete 1); Yield (EvResults [item])], Ok true) /\
    title item = PStr (py "Attention Is All You Need - Transformer Paper") /\
    source item = PStr (py "arXiv").
Proof.
  destruct mock_stream_item_titled as [ci Hci].
  unfold try_send_recommendations. rewrite parse_mock_text, bind_lift.
  cbn [py_len length]. rewrite bind_lift, bind_yield, bind_lift.
  rewrite (generate_links_single svc' _ ci _ Hci).
  pose proof (item_links_nonempty w svc' 0 _ ci (proj1 Hci)) as Hne.
  destruct (item_links w svc' 0 (PDict mock_stream_item) ci) as [|u others]; [congruence|].
  rewrite bind_lift. cbn [py_iter]. rewrite bind_lift.
  assert (for_each
            (set_item_url w
               [(PStr (py "Attention Is All You Need - Transformer Paper"), u :: others)])
            [PDict mock_stream_item]
          = Ok [PDict (dict_set mock_stream_item (py "url") u)]) as ->
    by (vm_compute; reflexivity).
  rewrite bind_lift.
  change (or_mock_results w (PList [?x]) ?y) with (PList [x]).
  rewrite convert_linked_mock. eexists. split; [reflexivity|]. split; reflexivity.
Qed.
End MockStream.

Section FailedStream.
Variable w : World.
Variable svc : GeminiContentService.
Variable key : pyval.
Variable e : exn.
Hypothesis client_built : client_init w key = Ok tt.

Lemma search_loop_sent accumulated_content c rest t :
  truthy_text (snd (classify c)) = true ->
  try_send_results w (accumulated_content ++ answer_text c) false = (t, Ok true) ->
  search_loop w accumulated_content false (c :: rest) =
  (Pull c :: fst (send_thinking (fst (classify c))) ++ t,
   Ok (accumulated_content ++ answer_text c, true)).
Proof.
  intros Ht Hsend. cbn [search_loop]. unfold answer_text in *.
  destruct (classify c) as [thinking_text content_text]. cbn [fst snd] in *.
  rewrite Ht in *. rewrite bind_pull.
  pose proof (send_thinking_returns thinking_text) as Hs.
  destruct (send_thinking thinking_text) as [t' r]. cbn [fst snd] in *. subst r.
  rewrite bind_ok. cbn [fst snd]. rewrite Hsend. cbn [gen_try]. rewrite bind_ok.
  cbn [fst snd mret gen_ret]. rewrite app_nil_r. reflexivity.
Qed.

Lemma events_of_quiet_then t n r :
  quiet t ->
  unremarkable (events_of (t ++ [Yield (EvParsingComplete n)])) /\
  events_of (t ++ [Yield (EvParsingComplete n); Yield (EvResults r); Yield EvComplete]) =
  events_of (t ++ [Yield (EvParsingComplete n)]) ++ [EvResults r; EvComplete].
Proof.
  intros Hq. split.
  - apply quiet_unremarkable, quiet_app; [exact Hq|].
    constructor; [reflexivity | constructor].
  - rewrite !events_of_app, <- app_assoc. reflexivity.
Qed.

Lemma failed_search_stream query :
  in_time w 1 ->
  exists t item,
    quiet t /\
    stream_request w svc (SearchMode query) key {| api_chunks := []; api_failure := Some e |}
    = t ++ [Yield (EvParsingComplete 1); Yield (EvResults [item]); Yield EvComplete] /\
    title item = PStr (py "Attention Is All You Need - Transformer Paper") /\
    source item = PStr (py "arXiv").
Proof.
  intros Htime. destruct (try_send_results_mock w Htime) as (item & Hsend & Htitle & Hsource).
  cbn [stream_request].
  rewrite generate_stream_unfold, (set_api_key_built w svc key client_built).
  unfold search_content_streaming. rewrite failed_stream_is_mock.
  rewrite (search_loop_skips w 4 [] _create_mock_streaming_response).
  - change (drop 4 _create_mock_streaming_response)
      with [MockChunk mock_results_text None].
    rewrite (search_loop_sent _ (MockChunk mock_results_text None) []
               [Yield (EvParsingComplete 1); Yield (EvResults [item])]).
    + rewrite bind_ok. cbn [fst snd]. rewrite finish_sent by reflexivity.
      exists (Yield (EvThought (initial_thought_search query)) ::
              thinking_trace (take 4 _create_mock_streaming_response) ++
              Pull (MockChunk mock_results_text None) ::
              fst (send_thinking (fst (classify (MockChunk mock_results_text None))))),
        item.
      split; [|split; [|split; assumption]].
      * constructor; [reflexivity|]. apply quiet_app; [apply thinking_trace_quiet|].
        constructor; [reflexivity | apply send_thinking_quiet].
      * cbn [app]. rewrite <- !app_assoc. cbn [app]. rewrite <- !app_assoc. reflexivity.
    + vm_compute. reflexivity.
    + exact Hsend.
  - cbn. lia.
  - intros j Hj.
    do 4 (destruct j as [|j]; [left; vm_compute; reflexivity|]). lia.
Qed.

Lemma failed_recommendation_stream :
  exists t item,
    quiet t /\
    stream_request w svc RecommendationMode key {| api_chunks := []; api_failure := Some e |}
    = t ++ [Yield (EvParsingComplete 1); Yield (EvResults [item]); Yield EvComplete] /\
    title item = PStr (py "Attention Is All You Need - Transformer Paper") /\
    source item = PStr (py "arXiv").
Proof.
  destruct (try_send_recommendations_mock w (with_key svc key))
    as (item & Hsend & Htitle & Hsource).
  cbn [stream_request].
  rewrite generate_stream_attempt_unfold, (set_api_key_built w svc key client_built).
  unfold stream_recommendations, get_recommendations_streaming.
  rewrite failed_stream_is_mock, accumulate_loop_run, bind_ok. cbn [fst snd app].
  rewrite mock_stream_text.
  change (lift (match _create_mock_streaming_response with
                | [] => Raise UnboundLocalError
                | _ :: _ => Ok tt
                end)) with (lift (Ok tt) : gen unit).
  rewrite bind_lift, Hsend. cbn [gen_try fst snd].
  rewrite finish_sent by reflexivity.
  exists (Yield (EvThought initial_thought_recommendations) ::
          thinking_trace _create_mock_streaming_response), item.
  split; [|split; [|split; assumption]].
  - constructor; [reflexivity | apply thinking_trace_quiet].
  - cbn [app]. rewrite <- !app_assoc. reflexivity.
Qed.
End FailedStream.



(** * Further properties *)

(** ** [_parse_gemini_response_sdk] *)

Lemma Ok_inj {A} (a b : A) : Ok a = Ok b -> a = b.
Proof. intros H. injection H as ->. reflexivity. Qed.

Section Brackets.
Variable c : char.

Lemma str_find_here s : str_find c (c :: s) = Some O.
Proof. cbn. rewrite N.eqb_refl. reflexivity. Qed.

Lemma str_find_app prefix s :
  str_find c prefix = None ->
  str_find c (prefix ++ s) = (fun i => (length prefix + i)%nat) <$> str_find c s.
Proof.
  induction prefix as [|x prefix IH]; intros H; cbn [app length str_find].
  - destruct (str_find c s); reflexivity.
  - cbn [str_find] in H. destruct (N.eqb x c); [discriminate|].
    destruct (str_find c prefix) eqn:E; [discriminate|].
    rewrite IH by reflexivity. destruct (str_find c s); reflexivity.
Qed.

Lemma str_rfind_app_none s suffix :
  str_rfind c suffix = None -> str_rfind c (s ++ suffix) = str_rfind c s.
Proof.
  intros H. induction s as [|x s IH]; cbn [app str_rfind]; [exact H|].
  rewrite IH. reflexivity.
Qed.

Lemma str_rfind_last s : str_rfind c (s ++ [c]) = Some (length s).
Proof.
  induction s as [|x s IH]; cbn [app str_rfind length].
  - rewrite N.eqb_refl. reflexivity.
  - rewrite IH. reflexivity.
Qed.

Lemma str_rfind_app prefix s i :
  str_rfind c s = Some i -> str_rfind c (prefix ++ s) = Some (length prefix + i)%nat.
Proof.
  intros H. induction prefix as [|x prefix IH]; cbn [app str_rfind length]; [exact H|].
  rewrite IH. reflexivity.
Qed.

Lemma str_find_bound s i : str_find c s = Some i -> (i < length s)%nat.
Proof.
  revert i. induction s as [|x s IH]; intros i H; cbn [str_find] in H; [discriminate|].
  destruct (N.eqb x c).
  - injection H as <-. cbn. lia.
  - destruct (str_find c s) as [j|]; [|discriminate]. injection H as <-.
    specialize (IH j eq_refl). cbn. lia.
Qed.
End Brackets.

Lemma stripped_response_text_framed prefix inner suffix :
  str_find opening_bracket prefix = None ->
  str_rfind closing_bracket suffix = None ->
  stripped_response_text
    (prefix ++ (opening_bracket :: inner ++ [closing_bracket]) ++ suffix)
  = opening_bracket :: inner ++ [closing_bracket].
Proof.
  intros Hp Hs. unfold stripped_response_text. cbn [app].
  rewrite (str_find_app _ _ _ Hp), str_find_here. cbn [fmap option_fmap option_map].
  rewrite (str_rfind_app _ prefix _ (S (length inner))).
  - unfold str_slice. rewrite drop_app_length' by lia.
    replace (S (length prefix + S (length inner)) - (length prefix + 0))%nat
      with (length (opening_bracket :: inner ++ [closing_bracket]))
      by (cbn [length]; rewrite length_app; cbn; lia).
    change (opening_bracket :: (inner ++ [closing_bracket]) ++ suffix)
      with ((opening_bracket :: inner ++ [closing_bracket]) ++ suffix).
    rewrite take_app_length. reflexivity.
  - change (opening_bracket :: (inner ++ [closing_bracket]) ++ suffix)
      with (((opening_bracket :: inner) ++ [closing_bracket]) ++ suffix).
    rewrite (str_rfind_app_none _ _ _ Hs), str_rfind_last. reflexivity.
Qed.

Lemma loads_empty w : loads w [] = Raise JSONDecodeError.
Proof. reflexivity. Qed.

Lemma parse_response_well_typed w (response_text : option str) :
  is_list_of_dicts (_parse_gemini_response_sdk w response_text) = true.
Proof.
  destruct response_text as [text|]; [|reflexivity].
  unfold _parse_gemini_response_sdk.
  destruct (loads w (stripped_response_text text)) as [v|e] eqn:E.
  - destruct (is_list_of_dicts v) eqn:Ev; [exact Ev | reflexivity].
  - destruct e; reflexivity.
Qed.


(** X2.  Prose around the array does not matter: when the text before the
    array has no opening bracket and the text after it has no closing
    bracket, the response is parsed as the array alone; in particular an
    array that decodes to a list of dicts is returned as decoded. *)
Theorem parse_response_ignores_prose (w : World) (prefix inner suffix : str) :
  str_find opening_bracket prefix = None ->
  str_rfind closing_bracket suffix = None ->
  let array := opening_bracket :: inner ++ [closing_bracket] in
  _parse_gemini_response_sdk w (Some (prefix ++ array ++ suffix))
  = _parse_gemini_response_sdk w (Some array) /\
  (forall v, loads w array = Ok v -> is_list_of_dicts v = true ->
             _parse_gemini_response_sdk w (Some (prefix ++ array ++ suffix)) = v).
Proof.
  intros Hp Hs array.
  assert (stripped_response_text (prefix ++ array ++ suffix) = array) as Hframed
    by apply (stripped_response_text_framed prefix inner suffix Hp Hs).
  assert (stripped_response_text array = array) as Hbare.
  { pose proof (stripped_response_text_framed [] inner [] eq_refl eq_refl) as H.
    cbn [app] in H. rewrite app_nil_r in H. exact H. }
  split.
  - unfold _parse_gemini_response_sdk. rewrite Hframed, Hbare. reflexivity.
  - intros v Hl Hv. unfold _parse_gemini_response_sdk. rewrite Hframed, Hl, Hv.
    reflexivity.
Qed.

Lemma parse_response_ignores_prose_witness :
  _parse_gemini_response_sdk offline
    (Some (py "Here you are: " ++ (opening_bracket :: pyq "{'title': 'T'}" ++ [closing_bracket])
           ++ py " Enjoy."))
  = PList [PDict [(py "title", PStr (py "T"))]].
Proof.
  apply (proj2 (parse_response_ignores_prose offline (py "Here you are: ") (pyq "{'title': 'T'}")
                  (py " Enjoy.") eq_refl eq_refl)); vm_compute; reflexivity.
Defined.

(** X3.  When the last closing bracket of the text stands before its first
    opening bracket, the slice between them is empty, and the function
    returns the empty list: whatever the text holds is dropped. *)
Theorem parse_response_crossed_brackets (w : World) (text : str) (i j : nat) :
  str_find opening_bracket text = Some i ->
  str_rfind closing_bracket text = Some j ->
  (j < i)%nat ->
  _parse_gemini_response_sdk w (Some text) = PList [].
Proof.
  intros Hi Hj Hlt. unfold _parse_gemini_response_sdk, stripped_response_text.
  rewrite Hi, Hj. unfold str_slice.
  replace (S j - i)%nat with O by lia. rewrite take_0. reflexivity.
Qed.

Lemma parse_response_crossed_brackets_witness :
  _parse_gemini_response_sdk offline (Some (pyq "] {'title': 'T'} [")) = PList [].
Proof.
  apply (parse_response_crossed_brackets offline (pyq "] {'title': 'T'} [") 17 0);
    [reflexivity | reflexivity | lia].
Defined.


(** ** [ContentItem] and the cleaning of descriptions *)

(** X4.  An item that [ContentItem] has built always carries a timestamp,
    and [asdict] loses nothing: building an item from the [asdict] of an
    item gives that item again, at any later time. *)
Theorem content_item_asdict_round_trip (w w' : World) (kwargs : dict) (item : ContentItem) :
  ContentItem_init w kwargs = Ok item ->
  timestamp item <> PNone /\ ContentItem_init w' (asdict item) = Ok item.
Proof.
  intros H.
  assert (timestamp item <> PNone) as Hts.
  { unfold ContentItem_init in H.
    destruct (existsb _ kwargs); [discriminate|].
    destruct (existsb _ ContentItem_required); [discriminate|].
    injection H as <-. cbn [timestamp].
    destruct (dict_get kwargs _ PNone); intros Heq; discriminate Heq. }
  split; [exact Hts|].
  destruct item as [v_title v_type v_description v_source v_relevance v_url v_timestamp
                      v_validation].
  cbn [timestamp] in Hts.
  destruct v_timestamp; try congruence; vm_compute; reflexivity.
Qed.

Lemma content_item_asdict_round_trip_witness :
  ContentItem_init (answering 200)
    (asdict (mock_item offline)) = Ok (mock_item offline).
Proof.
  apply (content_item_asdict_round_trip offline (answering 200)
           [(py "title", PStr (py "Attention Is All You Need - Transformer Paper"));
            (py "type", PStr (py "academic"));
            (py "description", PStr (py "The groundbreaking paper that introduced the Transformer architecture, revolutionizing natural language processing."));
            (py "source", PStr (py "arXiv"));
            (py "relevance", PStr (py "Foundational research in modern AI"));
            (py "url", PStr (py "https://arxiv.org/abs/1706.03762"))]).
  vm_compute. reflexivity.
Defined.

Section Cleaning.
Variable w : World.

Lemma re_sub_from_length r repl skip s :
  (length repl <= 1)%nat -> (length (re_sub_from r repl skip s) <= length s)%nat.
Proof.
  intros Hr. revert skip. induction s as [|c s IH]; intros skip; cbn [re_sub_from length].
  - lia.
  - destruct skip as [|n].
    + destruct (match_len r (c :: s)) as [[|n]|].
      * cbn [length]. specialize (IH O). lia.
      * rewrite length_app. specialize (IH n). lia.
      * cbn [length]. specialize (IH O). lia.
    + specialize (IH n). lia.
Qed.

Lemma rstrip_length s : (length (rstrip w s) <= length s)%nat.
Proof.
  unfold rstrip. rewrite length_rev, <- (length_rev s). apply lstrip_length.
Qed.

Lemma strip_length s : (length (strip w s) <= length s)%nat.
Proof.
  unfold strip. pose proof (rstrip_length (lstrip w s)). pose proof (lstrip_length w s). lia.
Qed.

Lemma strip_trimmed s : trimmed w (strip w s).
Proof.
  unfold trimmed. destruct (strip w s) as [|c rest] eqn:E; [trivial|]. split.
  - pose proof (lstrip_head w s) as Hh.
    destruct (rstrip_prefix w (lstrip w s)) as [t Ht].
    unfold strip in E. rewrite E in Ht. rewrite Ht in Hh. exact Hh.
  - unfold strip, rstrip in E.
    pose proof (lstrip_head w (List.rev (lstrip w s))) as Hh.
    destruct (lstrip w (List.rev (lstrip w s))) as [|d u]; [discriminate|].
    cbn [List.rev] in E. exists (List.rev u), d. split; [symmetry; exact E | exact Hh].
Qed.

(** A pattern that begins with a mandatory character matches nowhere in a
    text without that character. *)
Lemma search_needs_first_char c r s :
  str_find c s = None -> re_search (Seq (Chr c) r) s = None.
Proof.
  induction s as [|x s IH]; intros H.
  - reflexivity.
  - cbn [str_find] in H. destruct (N.eqb x c) eqn:E; [discriminate|].
    destruct (str_find c s); [discriminate|].
    cbn [re_search]. unfold match_len. cbn [rmatch]. rewrite E. apply IH. reflexivity.
Qed.
End Cleaning.

(** X5.  Whatever the text, the cleaned text is in normal form: it neither
    begins nor ends with whitespace, every whitespace character left in it
    is a single space between two other characters, and it is not longer
    than the text. *)
Theorem clean_metadata_normal_form (w : World) (text : str) :
  let cleaned_text := _clean_metadata_from_text w text in
  trimmed w cleaned_text /\
  single_spaced w cleaned_text /\
  (length cleaned_text <= length text)%nat.
Proof.
  intros cleaned_text. unfold cleaned_text, _clean_metadata_from_text.
  destruct text as [|c text]; [repeat split; cbn; lia|].
  split; [apply strip_trimmed|]. split.
  - apply strip_single_spaced, collapse_single_spaced.
  - etransitivity; [apply strip_length|]. unfold re_sub.
    etransitivity; [apply re_sub_from_length; cbn; lia|].
    etransitivity; [apply re_sub_from_length; cbn; lia|].
    apply re_sub_from_length. cbn. lia.
Qed.

(** X6.  A text without an opening bracket holds no marker: cleaning it
    only normalises its whitespace. *)
Theorem clean_metadata_without_brackets (w : World) (text : str) :
  text <> [] ->
  str_find opening_bracket text = None ->
  _clean_metadata_from_text w text
  = strip w (re_sub (whitespace_pattern w) (py " ") text).
Proof.
  intros Hne Hfind. unfold _clean_metadata_from_text.
  destruct text as [|c text]; [congruence|].
  rewrite (re_sub_no_match (metadata_pattern w)).
  - rewrite (re_sub_no_match (simple_metadata_pattern w)); [reflexivity|].
    apply search_needs_first_char. exact Hfind.
  - apply search_needs_first_char. exact Hfind.
Qed.

Lemma clean_metadata_without_brackets_witness :
  _clean_metadata_from_text offline (py "  two   words ") = py "two words".
Proof.
  rewrite (clean_metadata_without_brackets offline (py "  two   words "));
    [vm_compute; reflexivity | discriminate | reflexivity].
Defined.

(** ** The validator *)

Section ValidatorOutcomes.
Variable w : World.

Ltac settle :=
  repeat split; intros; cbn in *; try discriminate; try congruence; auto;
  try (exfalso; congruence).

Lemma fresh_settled u e : settled (with_error (fresh_result u) e).
Proof. settle. Qed.

Lemma youtube_settled s u r :
  _validate_youtube_video w s (fresh_result u) = Ok r -> settled r.
Proof.
  unfold _validate_youtube_video.
  destruct (re_search video_id_pattern s); [|intros [= <-]; apply fresh_settled].
  destruct (session_head w s) as [resp|e].
  - cbv zeta. destruct (resp_status_code resp =? 200) eqn:E200.
    + apply Z.eqb_eq in E200. rewrite E200.
      assert (forall r', r' = with_detected (with_valid (with_status (fresh_result u) 200) true)
                              (py "video") \/
                         r' = with_title_verified
                                (with_detected (with_valid (with_status (fresh_result u) 200) true)
                                   (py "video")) -> settled r') as Hboth.
      { intros r' [-> | ->]; settle. }
      destruct (session_get w s) as [page|e']; [|intros [= <-]; apply Hboth; auto].
      destruct (resp_status_code page =? 200); [|intros [= <-]; apply Hboth; auto].
      destruct (re_search title_pattern (resp_text page)); [|intros [= <-]; apply Hboth; auto].
      destruct (negb _); intros [= <-]; apply Hboth; auto.
    + destruct (_ || _); intros [= <-]; settle.
  - destruct (is_requests_Timeout e); [intros [= <-]; apply fresh_settled|].
    destruct (is_RequestException e); [intros [= <-]; apply fresh_settled | discriminate].
Qed.

Lemma podcast_settled s u r :
  _validate_podcast w s (fresh_result u) = Ok r -> settled r.
Proof.
  unfold _validate_podcast. destruct (session_head w s) as [resp|e].
  - cbv zeta. destruct (resp_status_code resp =? 200) eqn:E200.
    + apply Z.eqb_eq in E200. rewrite E200.
      destruct (_ || _); intros [= <-]; settle.
    + intros [= <-]; settle.
  - destruct (is_requests_Timeout e); [intros [= <-]; apply fresh_settled|].
    destruct (is_RequestException e); [intros [= <-]; apply fresh_settled | discriminate].
Qed.

Lemma general_settled s u r :
  _validate_general_url w s (fresh_result u) = Ok r -> settled r.
Proof.
  unfold _validate_general_url. destruct (general_request w s) as [resp|e].
  - cbv zeta. intros [= <-]. unfold settled. cbn. split; [|split].
    + intros Hv. split; [reflexivity|].
      apply orb_prop in Hv as [Hv | Hv]; apply Z.eqb_eq in Hv; rewrite Hv; auto.
    + discriminate.
    + intros Hd. congruence.
  - destruct (is_requests_Timeout e); [intros [= <-]; apply fresh_settled|].
    destruct (is_RequestException e); [intros [= <-]; apply fresh_settled | discriminate].
Qed.

Lemma validate_url_settled u content_type : settled (validate_url w u content_type).
Proof.
  unfold validate_url. fold (fresh_result u).
  destruct (urlparse_value w u) as [[scheme netloc]|e]; [|apply fresh_settled].
  cbn [mbind result_bind rbind].
  destruct scheme as [|c1 scheme]; [apply fresh_settled|].
  destruct netloc as [|c2 netloc]; [apply fresh_settled|].
  destruct u as [| | | |s| |]; try apply fresh_settled.
  destruct (_ && _).
  { destruct (_validate_youtube_video w s _) eqn:E;
      [eapply youtube_settled; exact E | apply fresh_settled]. }
  destruct (_ && _).
  { destruct (_validate_youtube_video w s _) eqn:E;
      [eapply youtube_settled; exact E | apply fresh_settled]. }
  destruct (is_the_string content_type (py "podcast")).
  { destruct (_validate_podcast w s _) eqn:E;
      [eapply podcast_settled; exact E | apply fresh_settled]. }
  destruct (_validate_general_url w s _) eqn:E;
    [eapply general_settled; exact E | apply fresh_settled].
Qed.

Lemma youtube_keeps_url s r r' :
  _validate_youtube_video w s r = Ok r' -> vr_url r' = vr_url r.
Proof.
  unfold _validate_youtube_video. intros H. cbv zeta in H.
  split_matches H; injection H as <-; reflexivity.
Qed.

Lemma podcast_keeps_url s r r' :
  _validate_podcast w s r = Ok r' -> vr_url r' = vr_url r.
Proof.
  unfold _validate_podcast. intros H. cbv zeta in H.
  split_matches H; injection H as <-; reflexivity.
Qed.

Lemma general_keeps_url s r r' :
  _validate_general_url w s r = Ok r' -> vr_url r' = vr_url r.
Proof.
  unfold _validate_general_url. intros H. cbv zeta in H.
  split_matches H; injection H as <-; reflexivity.
Qed.
End ValidatorOutcomes.

(** X7.  Whatever the URL and the content type, [validate_url] returns a
    result, and a result that says the URL is valid has no error and the
    status code 200, or 403 with no content type detected (the general
    route); a verified title and a detected content type are only ever
    recorded for a valid URL. *)
Theorem validate_url_verdict (w : World) (u content_type : pyval) :
  let r := validate_url w u content_type in
  vr_url r = u /\
  (is_valid r = true ->
   error r = None /\
   (status_code r = Some 200 \/
    (status_code r = Some 403 /\ content_type_detected r = None))) /\
  (title_verified r = true ->
   is_valid r = true /\ content_type_detected r = Some (py "video")) /\
  (content_type_detected r <> None -> is_valid r = true /\ status_code r = Some 200).
Proof.
  intros r. split; [|exact (validate_url_settled w u content_type)].
  unfold r, validate_url. fold (fresh_result u).
  destruct (urlparse_value w u) as [[scheme netloc]|e]; [|reflexivity].
  cbn [mbind result_bind rbind].
  destruct scheme as [|c1 scheme]; [reflexivity|].
  destruct netloc as [|c2 netloc]; [reflexivity|].
  destruct u as [| | | |s| |]; try reflexivity.
  assert (forall v,
            (forall r', v = Ok r' -> vr_url r' = PStr s) ->
            vr_url (match v with
                    | Ok r' => r'
                    | Raise e => with_error (fresh_result (PStr s)) (ValidationError e)
                    end) = PStr s) as Hurl
    by (intros [r'|e] H; [exact (H r' eq_refl) | reflexivity]).
  destruct (_ && _); [|destruct (_ && _);
                        [|destruct (is_the_string content_type (py "podcast"))]];
    apply Hurl; intros r' Hr.
  - exact (youtube_keeps_url w s _ _ Hr).
  - exact (youtube_keeps_url w s _ _ Hr).
  - exact (podcast_keeps_url w s _ _ Hr).
  - exact (general_keeps_url w s _ _ Hr).
Qed.

(** X8.  A URL that is no string, a URL without scheme or without host, and
    a URL that [urlparse] refuses are never valid, and no request is made
    for them: the result is the fresh one with its error message. *)
Theorem validate_url_refuses_malformed (w : World) (content_type : pyval) :
  (forall u, (forall s, u <> PStr s) ->
     validate_url w u content_type =
     with_error (fresh_result u)
       (if truthy w u then ValidationError AttributeError else InvalidURLFormat)) /\
  (forall s scheme netloc,
     urlparse w s = Ok (scheme, netloc) -> scheme = [] \/ netloc = [] ->
     validate_url w (PStr s) content_type =
     with_error (fresh_result (PStr s)) InvalidURLFormat) /\
  (forall s e,
     urlparse w s = Raise e ->
     validate_url w (PStr s) content_type =
     with_error (fresh_result (PStr s)) (ValidationError e)).
Proof.
  split; [|split].
  - intros u Hu. unfold validate_url. fold (fresh_result u).
    destruct u as [| | | |s| |]; try (exfalso; exact (Hu s eq_refl));
      cbn [urlparse_value]; destruct (truthy w _); reflexivity.
  - intros s scheme netloc Hp Hempty. unfold validate_url. fold (fresh_result (PStr s)).
    cbn [urlparse_value]. rewrite Hp. cbn [mbind result_bind rbind].
    destruct Hempty as [-> | ->]; [reflexivity|]. destruct scheme; reflexivity.
  - intros s e Hp. unfold validate_url. fold (fresh_result (PStr s)).
    cbn [urlparse_value]. rewrite Hp. reflexivity.
Qed.

(** X9.  A YouTube video is valid exactly when its URL holds a video id and
    the HEAD request answers 200: the optional look at the title can add
    the mark [title_verified], and whatever it does or raises never makes
    the video invalid.  Without a video id no request decides: the error is
    the missing id. *)
Theorem youtube_valid_iff_head_200 (w : World) (s : str) (u : pyval)
    (r : validation_result) :
  _validate_youtube_video w s (fresh_result u) = Ok r ->
  (is_valid r = true <->
   re_search video_id_pattern s <> None /\
   exists resp, session_head w s = Ok resp /\ resp_status_code resp = 200) /\
  (re_search video_id_pattern s = None -> r = with_error (fresh_result u) NoVideoId) /\
  (forall resp, re_search video_id_pattern s <> None ->
     session_head w s = Ok resp -> resp_status_code resp <> 200 ->
     is_valid r = false /\ status_code r = Some (resp_status_code resp) /\
     error r = Some (if (resp_status_code resp =? 404) || (resp_status_code resp =? 410)
                     then VideoNotFound
                     else VideoInaccessible (resp_status_code resp))).
Proof.
  unfold _validate_youtube_video.
  destruct (re_search video_id_pattern s) as [m|] eqn:Eid.
  - destruct (session_head w s) as [resp|e] eqn:Ehead.
    + cbv zeta. destruct (resp_status_code resp =? 200) eqn:E200.
      * apply Z.eqb_eq in E200.
        assert (is_valid r = true ->
                (is_valid r = true <->
                 Some m <> None /\
                 exists resp0, Ok resp = Ok resp0 /\ resp_status_code resp0 = 200) /\
                (Some m = None -> r = with_error (fresh_result u) NoVideoId) /\
                (forall resp0, Some m <> None -> Ok resp = Ok resp0 ->
                   resp_status_code resp0 <> 200 ->
                   is_valid r = false /\ status_code r = Some (resp_status_code resp0) /\
                   error r = Some (if (resp_status_code resp0 =? 404)
                                      || (resp_status_code resp0 =? 410)
                                   then VideoNotFound
                                   else VideoInaccessible (resp_status_code resp0))))
          as Hvalid.
        { intros Hv. split; [|split].
          - split; [|intros _; exact Hv]. intros _. split; [discriminate|].
            exists resp. split; [reflexivity | exact E200].
          - discriminate.
          - intros resp0 _ [= <-] Hne. congruence. }
        destruct (session_get w s) as [page|e'];
          [|intros [= <-]; apply Hvalid; reflexivity].
        destruct (resp_status_code page =? 200);
          [|intros [= <-]; apply Hvalid; reflexivity].
        destruct (re_search title_pattern (resp_text page));
          [|intros [= <-]; apply Hvalid; reflexivity].
        destruct (negb _); intros [= <-]; apply Hvalid; reflexivity.
      * apply Z.eqb_neq in E200. intros Hr.
        assert (is_valid r = false /\ status_code r = Some (resp_status_code resp) /\
                error r = Some (if (resp_status_code resp =? 404)
                                   || (resp_status_code resp =? 410)
                                then VideoNotFound
                                else VideoInaccessible (resp_status_code resp))) as Hinv.
        { destruct (_ || _); injection Hr as <-; repeat split. }
        split; [|split].
        -- split.
           ++ destruct Hinv as [Hinv _]. congruence.
           ++ intros [_ (resp0 & [= <-] & H200)]. congruence.
        -- discriminate.
        -- intros resp0 _ [= <-] _. exact Hinv.
    + intros Hr.
      assert (is_valid r = false) as Hinv.
      { destruct (is_requests_Timeout e); [injection Hr as <-; reflexivity|].
        destruct (is_RequestException e); [injection Hr as <-; reflexivity | discriminate]. }
      split; [|split].
      * split; [congruence|]. intros [_ (resp0 & Hresp & _)]. discriminate.
      * discriminate.
      * intros resp0 _ Hresp. discriminate.
  - intros [= <-]. split; [|split].
    + split; [discriminate|]. intros [Hne _]. congruence.
    + reflexivity.
    + intros resp0 Hne. congruence.
Qed.

Lemma youtube_valid_iff_head_200_witness :
  exists r,
    _validate_youtube_video (answering 200) (py "https://youtu.be/dQw4w9WgXcQ")
      (fresh_result (PStr (py "https://youtu.be/dQw4w9WgXcQ"))) = Ok r /\
    is_valid r = true.
Proof.
  eexists. split; [vm_compute; reflexivity|].
  apply (youtube_valid_iff_head_200 (answering 200) (py "https://youtu.be/dQw4w9WgXcQ")
           (PStr (py "https://youtu.be/dQw4w9WgXcQ")) _ eq_refl).
  split; [vm_compute; discriminate|].
  eexists. split; [vm_compute; reflexivity | reflexivity].
Defined.

(** X10.  A podcast is valid exactly when the HEAD request answers 200 and
    the URL names one of the five podcast platforms or the content type of
    the reply is audio.  Any other status code, 403 included, makes it
    inaccessible: the tolerance of the general route for 403 does not
    extend to podcasts. *)
Theorem podcast_valid_iff (w : World) (s : str) (u : pyval) (resp : response) :
  session_head w s = Ok resp ->
  exists r,
    _validate_podcast w s (fresh_result u) = Ok r /\
    status_code r = Some (resp_status_code resp) /\
    (is_valid r = true <-> resp_status_code resp = 200 /\ podcast_like w s resp = true) /\
    (resp_status_code resp <> 200 ->
     error r = Some (PodcastNotAccessible (resp_status_code resp))) /\
    (resp_status_code resp = 200 -> podcast_like w s resp = false ->
     error r = Some NotAPodcast).
Proof.
  intros Hhead. unfold _validate_podcast. rewrite Hhead. cbv zeta.
  fold (podcast_like w s resp).
  destruct (resp_status_code resp =? 200) eqn:E200.
  - apply Z.eqb_eq in E200. destruct (podcast_like w s resp) eqn:Elike.
    + eexists. split; [reflexivity|]. cbn. repeat split; auto; congruence.
    + eexists. split; [reflexivity|]. cbn. repeat split; auto; try congruence.
      intros [_ H]. discriminate.
  - apply Z.eqb_neq in E200. eexists. split; [reflexivity|]. cbn.
    repeat split; auto; try congruence. intros [H _]. congruence.
Qed.

Lemma podcast_valid_iff_witness :
  exists r,
    _validate_podcast (answering 403) (py "https://open.spotify.com/show/1")
      (fresh_result PNone) = Ok r /\
    error r = Some (PodcastNotAccessible 403).
Proof.
  destruct (podcast_valid_iff (answering 403) (py "https://open.spotify.com/show/1") PNone
              {| resp_status_code := 403; resp_content_type := None; resp_text := [] |}
              eq_refl) as (r & Hr & _ & _ & Herr & _).
  exists r. split; [exact Hr|]. apply Herr. discriminate.
Defined.

Lemma validate_url_refuses_malformed_witness :
  validate_url offline PNone (PStr (py "article"))
  = with_error (fresh_result PNone) InvalidURLFormat.
Proof.
  apply (proj1 (validate_url_refuses_malformed offline (PStr (py "article"))) PNone).
  intros s. discriminate.
Defined.

Lemma omap_step {A B} (f : A -> option B) (x : A) (l : list A) :
  omap f (x :: l) = match f x with Some y => y :: omap f l | None => omap f l end.
Proof. reflexivity. Qed.

Lemma omap_length_le {A B} (f : A -> option B) (l : list A) :
  (length (omap f l) <= length l)%nat.
Proof.
  induction l as [|x l IH]; [reflexivity|].
  rewrite omap_step. destruct (f x); cbn [length]; lia.
Qed.

Section Batch.
Variable w : World.

Lemma validate_single_item_validated (d : dict) :
  validate_single_item w (PDict d) = Ok (validated w (PDict d)).
Proof.
  rewrite validate_single_item_dict. cbv zeta. unfold validated, verdict, validation_record.
  destruct (is_valid _); reflexivity.
Qed.

(** The loop over futures that all came in: it goes through exactly when
    every item is a dict. *)
Lemma collect_valid_items items : forall valid_items,
  collect_valid valid_items
    (List.map (fun item => (validate_single_item w item, item)) items) =
  if forallb is_dict items
  then Ok (valid_items ++ omap (validated w) items)
  else Raise AttributeError.
Proof.
  induction items as [|item items IH]; intros valid_items.
  - cbn. rewrite app_nil_r. reflexivity.
  - cbn [List.map collect_valid forallb]. rewrite omap_step.
    destruct item as [| | | | | |d];
      try (cbn [validate_single_item is_dict andb]; reflexivity).
    rewrite validate_single_item_validated. cbn [is_dict andb].
    destruct (validated w (PDict d)) as [r|]; rewrite IH;
      destruct (forallb is_dict items); try reflexivity.
    rewrite <- app_assoc. reflexivity.
Qed.

Lemma delivered_map {A B} (f : A -> B) (l : list A) :
  delivered w (List.map f l) =
  (List.map f (fst (delivered w l)), snd (delivered w l)).
Proof.
  unfold delivered. rewrite as_completed_map.
  destruct (batch_deadline w) as [k|]; [|reflexivity].
  cbn [fst snd]. rewrite <- fmap_take, length_map. reflexivity.
Qed.

Lemma as_completed_length {A} (order : list nat) (l : list A) :
  length (as_completed order l) = length l.
Proof. apply Permutation_length, as_completed_perm. Qed.
End Batch.

(** X11.  When [validate_content_batch] returns, every item of the list was
    a dict, and the result holds exactly the items whose URL is valid, each
    once and with its validation record, in the order in which the
    validations finished; the items that are not valid are dropped. *)
Theorem validate_content_batch_keeps_the_valid (w : World) (items out : list pyval) :
  validate_content_batch w (PList items) = Ok (PList out) ->
  forallb is_dict items = true /\
  Permutation out (omap (validated w) items) /\
  (length out <= length items)%nat /\
  (forall item, In item out ->
     exists d, In (PDict d) items /\ is_valid (verdict w d) = true /\
               item = PDict (dict_set d (py "validation")
                               (validation_record w (verdict w d)))).
Proof.
  intros H. unfold validate_content_batch in H. cbn [py_iter] in H.
  cbn [mbind result_bind rbind] in H. rewrite delivered_map in H.
  unfold delivered in H. cbn [fst snd] in H.
  set (ordered := as_completed (completion_order w) items) in *.
  assert (Permutation ordered items) as Hperm by apply as_completed_perm.
  assert (collect_valid [] (List.map (fun item => (validate_single_item w item, item)) ordered)
          = Ok out /\ forallb is_dict ordered = true /\ out = omap (validated w) ordered)
    as (_ & Hdicts & Hout).
  { destruct (batch_deadline w) as [k|]; cbn [fst snd] in H.
    - rewrite collect_valid_items in H.
      destruct (k <? length ordered)%nat eqn:Ek.
      + destruct (forallb is_dict (take k ordered)); discriminate.
      + apply Nat.ltb_ge in Ek. rewrite take_ge in H by exact Ek.
        rewrite collect_valid_items.
        destruct (forallb is_dict ordered); [|discriminate].
        injection H as <-. repeat split.
    - rewrite collect_valid_items in H. rewrite collect_valid_items.
      destruct (forallb is_dict ordered); [|discriminate].
      injection H as <-. repeat split. }
  assert (Permutation out (omap (validated w) items)) as Hpo.
  { rewrite Hout. apply omap_Permutation. exact Hperm. }
  split; [|split; [exact Hpo | split]].
  - rewrite forallb_forall in Hdicts. apply forallb_forall. intros x Hx.
    apply Hdicts. eapply Permutation_in; [symmetry; exact Hperm | exact Hx].
  - rewrite (Permutation_length Hpo). apply omap_length_le.
  - intros item Hin. eapply Permutation_in in Hin; [|exact Hpo].
    apply list_elem_of_In, list_elem_of_omap in Hin as (x & Hx & Hv).
    apply list_elem_of_In in Hx. destruct x as [| | | | | |d]; try discriminate.
    exists d. split; [exact Hx|]. unfold validated in Hv.
    destruct (is_valid (verdict w d)); [|discriminate].
    split; [reflexivity|]. congruence.
Qed.

Lemma validate_content_batch_keeps_the_valid_witness :
  forallb is_dict
    [PDict [(py "title", PStr (py "A")); (py "url", PStr (py "https://example.com/a"))];
     PDict [(py "title", PStr (py "B"))]] = true.
Proof.
  apply (validate_content_batch_keeps_the_valid (answering 200)
           [PDict [(py "title", PStr (py "A")); (py "url", PStr (py "https://example.com/a"))];
            PDict [(py "title", PStr (py "B"))]]
           [PDict [(py "title", PStr (py "A")); (py "url", PStr (py "https://example.com/a"));
                   (py "validation",
                    PDict [(py "validated_at", PStr (py "2025-01-01T00:00:00"));
                           (py "status_code", PInt 200);
                           (py "content_type_verified", PNone)])];
            PDict [(py "title", PStr (py "B"));
                   (py "validation",
                    PDict [(py "validated_at", PStr (py "2025-01-01T00:00:00"));
                           (py "status_code", PInt 200);
                           (py "content_type_verified", PNone)])]]).
  vm_compute. reflexivity.
Defined.

(** X12.  The validator does not catch the timeout of [as_completed]: when
    the deadline passes before every validation of a list of dicts has
    finished, the batch raises, and the items validated so far are lost. *)
Theorem validate_content_batch_times_out (w : World) (items : list pyval) (k : nat) :
  batch_deadline w = Some k ->
  (k < length items)%nat ->
  forallb is_dict items = true ->
  validate_content_batch w (PList items) = Raise FuturesTimeoutError.
Proof.
  intros Hdeadline Hk Hdicts. unfold validate_content_batch. cbn [py_iter].
  cbn [mbind result_bind rbind]. rewrite delivered_map. unfold delivered.
  rewrite Hdeadline. cbn [fst snd]. rewrite as_completed_length.
  rewrite collect_valid_items.
  assert (forallb is_dict (take k (as_completed (completion_order w) items)) = true) as ->.
  { apply forallb_forall. intros x Hx. rewrite forallb_forall in Hdicts. apply Hdicts.
    apply (as_completed_In (completion_order w)).
    rewrite <- (take_drop k (as_completed (completion_order w) items)).
    apply in_or_app. left. exact Hx. }
  apply Nat.ltb_lt in Hk. rewrite Hk. reflexivity.
Qed.

Lemma validate_content_batch_times_out_witness :
  validate_content_batch (with_deadline offline (Some O))
    (PList [PDict [(py "title", PStr (py "A"))]])
  = Raise FuturesTimeoutError.
Proof.
  apply (validate_content_batch_times_out (with_deadline offline (Some O))
           [PDict [(py "title", PStr (py "A"))]] O);
    [reflexivity | cbn; lia | reflexivity].
Defined.

(** ** Chat sessions and their history *)

Section HistoryFacts.
Variable w : World.

Lemma format_message_entries formatted_history message out :
  Forall (well_formed_entry w) formatted_history ->
  format_message w formatted_history message = Ok out ->
  Forall (well_formed_entry w) out /\
  (length out <= S (length formatted_history))%nat.
Proof.
  intros Hacc H. unfold format_message in H.
  destruct (msg_role message) as [role|]; cbv beta iota in H;
    [|injection H as <-; auto].
  destruct (msg_parts message) as [message_parts|]; cbv beta iota in H;
    [|injection H as <-; auto].
  destruct (str_eqb role (py "user") || str_eqb role (py "model")) eqn:Erole;
    cbv beta iota in H; [|injection H as <-; auto].
  assert (exists v_content,
            (if match strip w v_content with [] => false | _ :: _ => true end
                && negb (startswith (py "Please act according to these instructions")
                           v_content)
                && negb (startswith (py "We are discussing this specific article:")
                           v_content)
             then Ok (formatted_history ++
                      [{| entry_role := if str_eqb role (py "model")
                                        then py "assistant" else role;
                          entry_content := strip w v_content |}])
             else Ok formatted_history) = Ok out) as [v_content Hv].
  { destruct message_parts as [|p ps].
    - exists []. exact H.
    - destruct (join_part_texts (p :: ps)) as [v_content|e];
        cbn [mbind result_bind rbind] in H; [|discriminate].
      exists v_content. exact H. }
  clear H. rename Hv into H.
  destruct (strip w v_content) as [|c rest] eqn:Estrip; cbn [andb] in H;
    [injection H as <-; auto|].
  destruct (_ && _) in H; apply Ok_inj in H; subst out; [|auto].
  split; [|rewrite length_app; cbn; lia].
  apply Forall_app_2; [exact Hacc|]. constructor; [|constructor].
  unfold well_formed_entry. cbn [entry_role entry_content].
  split; [|split; [discriminate | split]].
  - destruct (str_eqb role (py "model")) eqn:Em; [right; reflexivity|].
    left. rewrite orb_false_r in Erole. apply str_eqb_eq. exact Erole.
  - rewrite <- Estrip. apply strip_trimmed.
  - rewrite <- Estrip. apply strip_idem.
Qed.

Lemma format_history_entries history : forall formatted_history out,
  Forall (well_formed_entry w) formatted_history ->
  format_history w formatted_history history = Ok out ->
  Forall (well_formed_entry w) out /\
  (length out <= length formatted_history + length history)%nat.
Proof.
  induction history as [|message rest IH]; intros acc out Hacc H.
  - injection H as <-. split; [exact Hacc | lia].
  - cbn [format_history] in H.
    destruct (format_message w acc message) as [acc'|e] eqn:E; [|discriminate].
    cbn [mbind result_bind rbind] in H.
    destruct (format_message_entries _ _ _ Hacc E) as (Hacc' & Hlen).
    destruct (IH _ _ Hacc' H) as [Hout Hlen']. split; [exact Hout|]. cbn [length]. lia.
Qed.

Lemma join_part_texts_none ps p :
  In p ps -> hp_text p = IsNone -> exists e, join_part_texts ps = Raise e.
Proof.
  intros Hin Hnone. induction ps as [|q ps IH]; [destruct Hin|].
  cbn [join_part_texts]. destruct Hin as [-> | Hin].
  - rewrite Hnone. eauto.
  - destruct (IH Hin) as [e He]. rewrite He. destruct (hp_text q); eauto.
Qed.

Lemma format_history_raises history message : forall formatted_history,
  In message history -> has_part_without_text message ->
  exists e, format_history w formatted_history history = Raise e.
Proof.
  intros acc Hin (role & ps & p & Hrole & Hconv & Hparts & Hp & Hnone).
  revert acc. induction history as [|m rest IH]; intros acc; [destruct Hin|].
  cbn [format_history]. destruct Hin as [-> | Hin].
  - unfold format_message. rewrite Hrole, Hparts.
    assert (str_eqb role (py "user") || str_eqb role (py "model") = true) as ->.
    { apply orb_true_iff. destruct Hconv as [-> | ->]; [left | right]; apply str_eqb_refl. }
    destruct (join_part_texts_none ps p Hp Hnone) as [e He].
    destruct ps as [|q ps']; [destruct Hp|]. rewrite He. eauto.
  - destruct (format_message w acc m) as [acc'|e]; [|eauto].
    cbn [mbind result_bind rbind]. apply IH. exact Hin.
Qed.
End HistoryFacts.

(** X13.  Every entry of a chat history returned to the frontend has the
    role [user] or [assistant] (never [model]) and a text that is not empty
    and has no whitespace around it; and at most one entry is returned per
    message of the session. *)
Theorem chat_history_entries_well_formed (w : World) (svc : GeminiContentService)
    (chat_id : str) :
  let formatted_history := get_chat_history w svc chat_id in
  Forall (well_formed_entry w) formatted_history /\
  (forall session history,
     active_chats svc !! chat_id = Some session -> get_history session = Ok history ->
     (length formatted_history <= length history)%nat).
Proof.
  intros formatted_history. unfold formatted_history, get_chat_history.
  destruct (active_chats svc !! chat_id) as [session|];
    [|split; [apply Forall_nil_2 | discriminate]].
  destruct (get_history session) as [history|e] eqn:Eh; cbn [mbind result_bind rbind].
  - destruct (format_history w [] history) as [out|e] eqn:E.
    + destruct (format_history_entries w history [] out (Forall_nil_2 _) E) as [Hout Hlen].
      split; [exact Hout|]. intros session' history' Hs Hh.
      apply (f_equal (fun o => match o with Some s => get_history s | None => Ok [] end)) in Hs.
      cbv beta iota in Hs. rewrite Eh, Hh in Hs. apply Ok_inj in Hs. subst history'.
      exact Hlen.
    + split; [apply Forall_nil_2|]. intros. cbn. lia.
  - split; [apply Forall_nil_2|]. intros. cbn. lia.
Qed.

Lemma chat_history_entries_well_formed_witness :
  (length (get_chat_history offline two_sessions (py "article_b")) <= 1)%nat.
Proof.
  apply (proj2 (chat_history_entries_well_formed offline two_sessions (py "article_b"))
           {| get_history := Ok [text_message (py "user") (py "Who wrote it?")] |}
           [text_message (py "user") (py "Who wrote it?")]);
    [vm_compute; reflexivity | reflexivity].
Defined.

(** X14.  One message of the conversation with a part whose text is [None]
    empties the whole history: joining its texts raises, the handler of
    [get_chat_history] answers with the empty list, and the entries of the
    messages before it are lost as well. *)
Theorem chat_history_lost_on_part_without_text (w : World) (svc : GeminiContentService)
    (chat_id : str) (session : chat) (history : list history_message)
    (message : history_message) :
  active_chats svc !! chat_id = Some session ->
  get_history session = Ok history ->
  In message history ->
  has_part_without_text message ->
  get_chat_history w svc chat_id = [].
Proof.
  intros Hs Hh Hin Hbad. unfold get_chat_history. rewrite Hs, Hh.
  cbn [mbind result_bind rbind].
  destruct (format_history_raises w history message [] Hin Hbad) as [e ->]. reflexivity.
Qed.

Lemma chat_history_lost_on_part_without_text_witness :
  get_chat_history offline
    (one_session (py "article_a")
       (Ok [text_message (py "user") (py "What is new?");
            {| msg_role := Some (py "model");
               msg_parts := Some [{| hp_text := Has (py "Let me look. ") |};
                                  {| hp_text := IsNone |}] |}]))
    (py "article_a") = [].
Proof.
  eapply (chat_history_lost_on_part_without_text offline _ (py "article_a")).
  - vm_compute. reflexivity.
  - reflexivity.
  - right. left. reflexivity.
  - exists (py "model"), [{| hp_text := Has (py "Let me look. ") |}; {| hp_text := IsNone |}],
      {| hp_text := IsNone |}.
    split; [reflexivity|]. split; [right; reflexivity|]. split; [reflexivity|].
    split; [right; left; reflexivity | reflexivity].
Defined.

(** X15.  The two setup messages are recognised by the beginning of the
    text as it is, before stripping: a message of the conversation whose
    only text begins with whitespace is never taken for one of them, and
    appears in the history with its text stripped.  The second setup
    message of a new session begins with a line break. *)
Theorem chat_history_keeps_indented_setup_message (w : World)
    (formatted_history : list history_entry) (role : str) (c : char) (rest : str) :
  role = py "user" \/ role = py "model" ->
  isspace w c = true ->
  strip w (c :: rest) <> [] ->
  format_message w formatted_history (text_message role (c :: rest)) =
  Ok (formatted_history ++
      [{| entry_role := if str_eqb role (py "model") then py "assistant" else role;
          entry_content := strip w (c :: rest) |}]).
Proof.
  intros Hrole Hc Hne. unfold format_message, text_message. cbn [msg_role msg_parts].
  assert (str_eqb role (py "user") || str_eqb role (py "model") = true) as ->.
  { apply orb_true_iff. destruct Hrole as [-> | ->]; [left | right]; apply str_eqb_refl. }
  cbn [join_part_texts hp_text mbind result_bind rbind]. rewrite app_nil_r.
  destruct (strip w (c :: rest)) as [|x s] eqn:E; [congruence|].
  assert (forall p, match p with [] => False | y :: _ => isspace w y = false end ->
                    startswith p (c :: rest) = false) as Hp.
  { intros [|y p] Hy; [destruct Hy|]. cbn [startswith].
    destruct (N.eqb_spec y c) as [->|_]; [congruence | reflexivity]. }
  rewrite !Hp by (vm_compute; reflexivity). reflexivity.
Qed.

Lemma chat_history_keeps_indented_setup_message_witness :
  format_message offline []
    (text_message (py "user") (newline :: py "  We are discussing this specific article: T"))
  = Ok [{| entry_role := py "user";
           entry_content := py "We are discussing this specific article: T" |}].
Proof.
  apply (chat_history_keeps_indented_setup_message offline [] (py "user") newline
           (py "  We are discussing this specific article: T"));
    [left; reflexivity | reflexivity | vm_compute; discriminate].
Defined.

(** X16.  Storing an API key and clearing the sessions do not interfere:
    [set_api_key] keeps every chat session and its history (a session made
    with the former key stays in use), and [clear_all_chat_sessions] leaves
    no session and no history and keeps the key. *)
Theorem sessions_and_key_are_independent (w : World) (svc : GeminiContentService) :
  (forall key svc',
     set_api_key w svc key = Ok svc' ->
     api_key svc' = key /\ active_chats svc' = active_chats svc /\
     forall chat_id, get_chat_history w svc' chat_id = get_chat_history w svc chat_id) /\
  api_key (clear_all_chat_sessions svc) = api_key svc /\
  (forall chat_id,
     active_chats (clear_all_chat_sessions svc) !! chat_id = None /\
     get_chat_history w (clear_all_chat_sessions svc) chat_id = []).
Proof.
  split; [|split].
  - intros key svc' H. unfold set_api_key in H.
    destruct (client_init w key); [|discriminate]. injection H as <-.
    repeat split.
  - reflexivity.
  - intros chat_id. unfold get_chat_history, clear_all_chat_sessions. cbn [active_chats].
    rewrite lookup_empty. split; reflexivity.
Qed.

Lemma sessions_and_key_are_independent_witness :
  get_chat_history offline
    {| api_key := PStr (py "key"); active_chats := active_chats two_sessions |}
    (py "article_a")
  = get_chat_history offline two_sessions (py "article_a").
Proof.
  apply (proj1 (sessions_and_key_are_independent offline two_sessions) (PStr (py "key"))).
  reflexivity.
Defined.

(** ** The chat stream *)

Section ChatLoop.

Lemma chat_loop_step accumulated_content c rest :
  chat_loop accumulated_content (c :: rest) =
  let thought :=
    if truthy_text (fst (classify c))
    then [EvChatThought (text_or_empty (fst (classify c)))] else [] in
  let answer :=
    if truthy_text (snd (classify c))
    then [EvChatChunk (text_or_empty (snd (classify c)))] else [] in
  let more := chat_loop (accumulated_content ++ answer_text c) rest in
  (thought ++ answer ++ fst more, snd more).
Proof.
  cbn [chat_loop]. unfold answer_text.
  destruct (classify c) as [thinking_text content_text]. cbn [fst snd].
  destruct (truthy_text content_text).
  - destruct (chat_loop _ rest). reflexivity.
  - rewrite app_nil_r. destruct (chat_loop _ rest). reflexivity.
Qed.

Lemma chat_texts_app a b :
  chat_chunk_texts (a ++ b) = chat_chunk_texts a ++ chat_chunk_texts b.
Proof. apply omap_app. Qed.

Lemma chat_thoughts_app a b : chat_thoughts (a ++ b) = chat_thoughts a ++ chat_thoughts b.
Proof. apply omap_app. Qed.

(** What the loop sends, and what it has accumulated at its end. *)
Lemma chat_loop_sends chunks : forall accumulated_content,
  let sent := fst (chat_loop accumulated_content chunks) in
  snd (chat_loop accumulated_content chunks)
  = accumulated_content ++ List.concat (chat_chunk_texts sent) /\
  chat_chunk_texts sent = chunk_answers chunks /\
  chat_thoughts sent = chunk_thoughts chunks /\
  Forall (fun e => is_chat_terminal e = false) sent.
Proof.
  induction chunks as [|c rest IH]; intros acc.
  - cbn. rewrite app_nil_r. repeat split. constructor.
  - rewrite chat_loop_step. cbv zeta. cbn [fst snd].
    destruct (IH (acc ++ answer_text c)) as (Hacc & Htexts & Hthoughts & Hterm).
    unfold chunk_answers, chunk_thoughts. rewrite !omap_step.
    fold (chunk_answers rest). fold (chunk_thoughts rest).
    rewrite !chat_texts_app, !chat_thoughts_app, Hacc, Htexts, Hthoughts.
    revert Hterm. generalize (fst (chat_loop (acc ++ answer_text c) rest)) as more.
    intros more Hterm. unfold answer_text.
    destruct (classify c) as [[[|x t]|] [[|y a]|]];
      cbn [fst snd truthy_text text_or_empty chat_chunk_texts chat_thoughts omap list_omap app
           List.concat];
      rewrite ?app_nil_r, <- ?app_assoc;
      (split; [reflexivity|]); (split; [reflexivity|]); (split; [reflexivity|]);
      repeat (constructor; [reflexivity|]); exact Hterm.
Qed.
End ChatLoop.

(** X17.  A chat stream ends with exactly one terminal event, as its last
    event: [chat_complete], or [error]; nothing is sent after it, and no
    event before it is terminal. *)
Theorem chat_stream_ends_once (w : World) (md5_of_sum : pyval -> pyval -> result str)
    (svc : GeminiContentService) (message : str) (article api_key : pyval)
    (stream : chat_stream) :
  exists before last,
    generate_chat_stream w md5_of_sum svc message article api_key stream = before ++ [last] /\
    is_chat_terminal last = true /\
    Forall (fun e => is_chat_terminal e = false) before.
Proof.
  unfold generate_chat_stream.
  destruct (_ ← message_augmented_with_context w message article;
            _ ← set_api_key w svc api_key; article_chat_id md5_of_sum article) as [chat_id|e].
  - destruct (chat_loop_sends (chat_chunks stream) []) as (_ & _ & _ & Hterm).
    destruct (chat_loop [] (chat_chunks stream)) as [sent accumulated_content].
    cbn [fst] in Hterm.
    destruct (chat_failure stream) as [e|]; eexists sent, _;
      (split; [reflexivity|]); (split; [reflexivity | exact Hterm]).
  - exists [], (EvChatError e). repeat split. constructor.
Qed.

(** X18.  The [full_response] of the [chat_complete] event is the
    concatenation of the texts of the [chat_chunk] events sent before it,
    in order; these are the answer texts of all the chunks of the stream,
    and the thoughts sent are the thinking texts of all its chunks: the
    loop takes every chunk and drops nothing. *)
Theorem chat_complete_carries_all_chunks (w : World)
    (md5_of_sum : pyval -> pyval -> result str) (svc : GeminiContentService)
    (message : str) (article api_key : pyval) (stream : chat_stream)
    (before : list chat_event) (full_response : str) :
  generate_chat_stream w md5_of_sum svc message article api_key stream
  = before ++ [EvChatComplete full_response] ->
  full_response = List.concat (chat_chunk_texts before) /\
  chat_chunk_texts before = chunk_answers (chat_chunks stream) /\
  chat_thoughts before = chunk_thoughts (chat_chunks stream) /\
  chat_failure stream = None.
Proof.
  unfold generate_chat_stream.
  destruct (_ ← message_augmented_with_context w message article;
            _ ← set_api_key w svc api_key; article_chat_id md5_of_sum article) as [chat_id|e].
  - destruct (chat_loop_sends (chat_chunks stream) []) as (Hacc & Htexts & Hthoughts & _).
    destruct (chat_loop [] (chat_chunks stream)) as [sent accumulated_content].
    cbn [fst snd app] in *.
    destruct (chat_failure stream) as [e|]; intros H; apply app_inj_tail in H as [<- H];
      [discriminate|].
    injection H as <-. repeat split; assumption.
  - intros H. change [EvChatError e] with ([] ++ [EvChatError e]) in H.
    apply app_inj_tail in H as [_ H]. discriminate.
Qed.

Lemma chat_complete_carries_all_chunks_witness :
  py "Hello, world" = List.concat (chat_chunk_texts [EvChatThought (py "hm");
                                                   EvChatChunk (py "Hello, ");
                                                   EvChatChunk (py "world")]).
Proof.
  apply (chat_complete_carries_all_chunks offline (fun _ _ => Ok (py "0f"))
           fresh_service (py "Why?") (PDict [(py "title", PStr (py "T"))]) (PStr (py "key"))
           {| chat_chunks := [MockChunk (py "Hello, ") (Some (py "hm"));
                              MockChunk (py "world") None];
              chat_failure := None |}).
  vm_compute. reflexivity.
Defined.

Lemma chat_loop_app a b : forall accumulated_content,
  chat_loop accumulated_content (a ++ b) =
  let first := chat_loop accumulated_content a in
  let second := chat_loop (snd first) b in
  (fst first ++ fst second, snd second).
Proof.
  induction a as [|c a IH]; intros acc.
  - cbn. destruct (chat_loop acc b). reflexivity.
  - cbn [app]. rewrite !chat_loop_step. cbv zeta. cbn [fst snd].
    rewrite IH. cbv zeta. cbn [fst snd]. rewrite <- !app_assoc. reflexivity.
Qed.

(** For an article that is a dict the handler of the service raises
    nothing: the stream it hands over ends without an exception. *)
Lemma fallback_text_of_dict w (d : dict) :
  exists text, fallback_text w (PDict d) = Ok text /\ truthy_text (Some text) = true.
Proof. eexists. split; reflexivity. Qed.



(** ** The thoughts of a stream *)

Section Thoughts.
Variable w : World.

Lemma thoughts_app a b :
  thoughts (events_of (a ++ b)) = thoughts (events_of a) ++ thoughts (events_of b).
Proof. rewrite events_of_app. apply omap_app. Qed.

Lemma plain_nil : plain [].
Proof. split; reflexivity. Qed.

Lemma plain_app a b : plain a -> plain b -> plain (a ++ b).
Proof.
  intros [Ha Ha'] [Hb Hb']. split.
  - rewrite thoughts_app, Ha, Hb. reflexivity.
  - rewrite pulled_app, Ha', Hb'. reflexivity.
Qed.

Lemma faithful_nil : faithful [].
Proof. reflexivity. Qed.

Lemma faithful_app a b : faithful a -> faithful b -> faithful (a ++ b).
Proof.
  unfold faithful. intros Ha Hb. rewrite thoughts_app, pulled_app, Ha, Hb.
  unfold chunk_thoughts. rewrite omap_app. reflexivity.
Qed.

Lemma plain_faithful t : plain t -> faithful t.
Proof. intros [Ht Hp]. unfold faithful. rewrite Ht, Hp. reflexivity. Qed.

Lemma trace_bind {A B} (m : gen A) (f : A -> gen B) :
  fst (m ≫= f) = fst m ++ match snd m with Ok a => fst (f a) | Raise _ => [] end.
Proof.
  destruct m as [t [a|e]].
  - rewrite bind_ok. reflexivity.
  - cbn. rewrite app_nil_r. reflexivity.
Qed.

Lemma trace_try {A} (body : gen A) caught handler :
  fst (gen_try body caught handler) =
  fst body ++ match snd body with
              | Ok _ => []
              | Raise e => if caught e then fst (handler e) else []
              end.
Proof.
  destruct body as [t [a|e]]; cbn.
  - rewrite app_nil_r. reflexivity.
  - destruct (caught e); [destruct (handler e) | rewrite app_nil_r]; reflexivity.
Qed.

Section Closed.
Variable P : list action -> Prop.
Hypothesis P_nil : P [].
Hypothesis P_app : forall a b, P a -> P b -> P (a ++ b).

Lemma closed_bind {A B} (m : gen A) (f : A -> gen B) :
  P (fst m) -> (forall a, P (fst (f a))) -> P (fst (m ≫= f)).
Proof.
  intros Hm Hf. rewrite trace_bind. apply P_app; [exact Hm|].
  destruct (snd m); [apply Hf | exact P_nil].
Qed.

Lemma closed_try {A} (body : gen A) caught handler :
  P (fst body) -> (forall e, P (fst (handler e))) -> P (fst (gen_try body caught handler)).
Proof.
  intros Hb Hh. rewrite trace_try. apply P_app; [exact Hb|].
  destruct (snd body) as [a|e]; [exact P_nil|].
  destruct (caught e); [apply Hh | exact P_nil].
Qed.
End Closed.

Lemma plain_lift {A} (r : result A) : plain (fst (lift r)).
Proof. apply plain_nil. Qed.

Lemma plain_yield e : is_thought e = false -> plain (fst (yield e)).
Proof. intros H. destruct e; try discriminate; split; reflexivity. Qed.

Lemma plain_ret {A} (a : A) : plain (fst (mret a : gen A)).
Proof. apply plain_nil. Qed.

Ltac plainly :=
  repeat first
    [ apply plain_lift
    | apply plain_ret
    | apply plain_yield; reflexivity
    | apply (closed_bind plain plain_nil plain_app); [|intros ?] ].

Lemma send_mock_results_plain : plain (fst (send_mock_results w)).
Proof. unfold send_mock_results. plainly. Qed.

Lemma try_send_results_plain accumulated_content results_sent :
  plain (fst (try_send_results w accumulated_content results_sent)).
Proof. unfold try_send_results. plainly. destruct a as [results_data|]; plainly. Qed.

Lemma try_send_recommendations_plain svc' accumulated_content results_sent :
  plain (fst (try_send_recommendations w svc' accumulated_content results_sent)).
Proof.
  unfold try_send_recommendations. plainly. destruct a as [results_data|]; plainly.
Qed.

Lemma faithful_chunk c t :
  faithful t -> faithful (Pull c :: fst (send_thinking (fst (classify c))) ++ t).
Proof.
  unfold faithful. intros Ht.
  change (Pull c :: fst (send_thinking (fst (classify c))) ++ t)
    with ([Pull c] ++ fst (send_thinking (fst (classify c))) ++ t).
  rewrite !thoughts_app, !pulled_app, pulled_send_thinking, Ht.
  cbn [pulled omap list_omap app events_of thoughts].
  unfold chunk_thoughts at 2. rewrite omap_step. fold (chunk_thoughts (pulled t)).
  unfold send_thinking.
  destruct (fst (classify c)) as [[|x s]|]; reflexivity.
Qed.

Lemma thinking_trace_faithful chunks : faithful (thinking_trace chunks).
Proof.
  induction chunks as [|c rest IH]; [reflexivity|].
  rewrite thinking_trace_cons. apply faithful_chunk, IH.
Qed.

Lemma search_loop_cons accumulated_content results_sent c rest :
  search_loop w accumulated_content results_sent (c :: rest) =
  let more :=
    if truthy_text (snd (classify c)) then
      broke ← gen_try (try_send_results w
                         (accumulated_content ++ text_or_empty (snd (classify c)))
                         results_sent)
                is_JSONDecodeError_or_KeyError (fun _ => mret false);
      if broke : bool
      then mret (accumulated_content ++ text_or_empty (snd (classify c)), true)
      else search_loop w (accumulated_content ++ text_or_empty (snd (classify c)))
             results_sent rest
    else search_loop w accumulated_content results_sent rest in
  (Pull c :: fst (send_thinking (fst (classify c))) ++ fst more, snd more).
Proof.
  cbn [search_loop]. rewrite bind_pull.
  destruct (classify c) as [thinking_text content_text]. cbn [fst snd].
  pose proof (send_thinking_returns thinking_text) as Hs.
  destruct (send_thinking thinking_text) as [t r]. cbn [fst snd] in *. subst r.
  rewrite bind_ok. reflexivity.
Qed.

Lemma search_loop_faithful chunks : forall accumulated_content results_sent,
  faithful (fst (search_loop w accumulated_content results_sent chunks)).
Proof.
  induction chunks as [|c rest IH]; intros acc rs; [reflexivity|].
  rewrite search_loop_cons. cbv zeta. cbn [fst]. apply faithful_chunk.
  destruct (truthy_text (snd (classify c))); [|apply IH].
  apply (closed_bind faithful faithful_nil faithful_app).
  - apply (closed_try faithful faithful_nil faithful_app).
    + apply plain_faithful, try_send_results_plain.
    + intros e. reflexivity.
  - intros [|]; [reflexivity | apply IH].
Qed.

Lemma finish_faithful {A} (sent : A -> bool) (g : gen A) :
  faithful (fst g) ->
  faithful (trace_of (gen_try (finish w sent g) any_Exception (fun e => yield (EvError e)))).
Proof.
  intros Hg. unfold trace_of. apply (closed_try faithful faithful_nil faithful_app).
  - unfold finish. apply (closed_bind faithful faithful_nil faithful_app); [exact Hg|].
    intros a. apply (closed_bind faithful faithful_nil faithful_app).
    + destruct (negb (sent a)); [apply plain_faithful, send_mock_results_plain | reflexivity].
    + intros _. reflexivity.
  - intros e. reflexivity.
Qed.

Lemma stream_recommendations_faithful svc' api :
  faithful (fst (gen_try (stream_recommendations w svc' api) any_Exception
                   (fun api_error => mret false))).
Proof.
  apply (closed_try faithful faithful_nil faithful_app); [|intros e; reflexivity].
  unfold stream_recommendations.
  apply (closed_bind faithful faithful_nil faithful_app).
  - rewrite accumulate_loop_run. apply thinking_trace_faithful.
  - intros acc. apply (closed_bind faithful faithful_nil faithful_app); [reflexivity|].
    intros _. apply (closed_try faithful faithful_nil faithful_app).
    + apply plain_faithful, try_send_recommendations_plain.
    + intros e. reflexivity.
Qed.
End Thoughts.



(** ** The links of the recommendations *)

Section LinkedItems.
Variable w : World.
Variable svc : GeminiContentService.

Lemma generate_links_recorded items :
  items <> [] ->
  (forall item, In item items -> exists ci t, titled w item ci t) ->
  exists links,
    generate_links_by_title_parallel w svc (PList items) = Ok links /\
    recorded w svc links (as_completed (completion_order w) (numbered items)).
Proof.
  intros Hne Hall.
  destruct (collect_links_records w svc
              (as_completed (completion_order w) (numbered items)) [] [])
    as (links & Hlinks & Hrec).
  { intros call item Hin. apply Hall. apply as_completed_In, numbered_In in Hin.
    apply list_elem_of_In, list_elem_of_lookup. eauto. }
  { split; [constructor|]. intros call item ci t []. }
  exists links. split; [|exact Hrec].
  rewrite generate_links_unfold by exact Hne. exact Hlinks.
Qed.

Lemma titled_dict item ci t :
  titled w item ci t ->
  exists d, item = PDict d /\ dict_lookup d (py "title") = Some (PStr t).
Proof.
  intros [Hci Ht]. destruct item as [| | | | | |d]; try discriminate.
  exists d. split; [reflexivity|]. cbn [ContentItem_of] in Hci.
  unfold ContentItem_init in Hci.
  destruct (existsb _ d); [discriminate|].
  destruct (existsb _ ContentItem_required); [discriminate|].
  apply Ok_inj in Hci. subst ci. cbn [title] in Ht. unfold dict_get in Ht.
  destruct (dict_lookup d (py "title")); [congruence | discriminate].
Qed.

Lemma set_item_url_first links d t first others :
  dict_lookup d (py "title") = Some (PStr t) ->
  links_find w links (PStr t) = Some (first :: others) ->
  set_item_url w links (PDict d) = Ok (PDict (dict_set d (py "url") first)).
Proof.
  intros Ht Hf. unfold set_item_url. cbn [py_getitem]. rewrite Ht. run_result.
  unfold links_get. cbn [hashable]. run_result. rewrite Hf. reflexivity.
Qed.

Lemma for_each_related {A B} (f : A -> result B) (R : A -> B -> Prop) (l : list A) :
  (forall x, In x l -> exists y, f x = Ok y /\ R x y) ->
  exists ys, for_each f l = Ok ys /\ Forall2 R l ys.
Proof.
  induction l as [|x l IH]; intros H.
  - exists []. split; [reflexivity | constructor].
  - destruct (H x (or_introl eq_refl)) as (y & Hy & Hr).
    destruct IH as (ys & Hys & Hrs); [intros x' Hx'; apply H; right; exact Hx'|].
    exists (y :: ys). split; [|constructor; assumption].
    cbn [for_each]. rewrite Hy. run_result. rewrite Hys. reflexivity.
Qed.
End LinkedItems.



(** ** The routes *)

Section RouteFacts.
Variable w : World.

Lemma py_strip_text v s : py_strip w v = Ok s -> exists raw, v = PStr raw /\ s = strip w raw.
Proof.
  destruct v as [| | | |raw| |]; try discriminate. intros H. apply Ok_inj in H.
  exists raw. split; [reflexivity | congruence].
Qed.

Lemma nonempty_true s : nonempty s = true -> s <> [].
Proof. destruct s; [discriminate | discriminate]. Qed.
End RouteFacts.

(** X22.  [/api/configure] never touches the chat sessions, and it changes
    the stored key only for a key that is a string of at least ten
    characters once stripped: the key it stores is the stripped one.  A
    reply with status 400 leaves the service as it was; when building the
    client fails the reply has status 500, and the key has been stored all
    the same. *)
Theorem configure_api_stores_stripped_key (w : World) (svc svc' : GeminiContentService)
    (data : pyval) (rep : reply) :
  configure_api w svc data = Ok (svc', rep) ->
  active_chats svc' = active_chats svc /\
  (((exists message, rep = JsonError 400 message None) /\ svc' = svc) \/
   exists raw,
     py_get data (py "api_key") PNone = Ok (PStr raw) /\
     api_key svc' = PStr (strip w raw) /\
     (10 <= length (strip w raw))%nat /\
     trimmed w (strip w raw) /\
     ((client_init w (PStr (strip w raw)) = Ok tt /\
       rep = JsonMessage (py "API key configured successfully")) \/
      (exists e, client_init w (PStr (strip w raw)) = Raise e /\
                 rep = JsonError 500 (py "Failed to configure API key: ") (Some e)))).
Proof.
  unfold configure_api. intros H.
  destruct (py_get data (py "api_key") PNone) as [key|e] eqn:Ekey;
    cbn [mbind result_bind rbind] in H; [|discriminate].
  destruct (negb (truthy w key)); cbv beta iota in H.
  { apply Ok_inj in H. injection H as <- <-. split; [reflexivity|]. left. eauto. }
  destruct (py_strip w key) as [stripped|e] eqn:Estrip;
    cbn [mbind result_bind rbind] in H; [|discriminate].
  apply py_strip_text in Estrip as (raw & -> & ->).
  destruct (negb (nonempty (strip w raw)) || (length (strip w raw) <? 10)%nat) eqn:Eshort;
    cbv beta iota in H.
  { apply Ok_inj in H. injection H as <- <-. split; [reflexivity|]. left. eauto. }
  apply orb_false_iff in Eshort as [_ Elen]. apply Nat.ltb_ge in Elen.
  unfold set_api_key in H.
  destruct (client_init w (PStr (strip w raw))) as [[]|e] eqn:Eclient;
    cbn [mbind result_bind rbind] in H; apply Ok_inj in H; injection H as <- <-;
    (split; [reflexivity|]); right; exists raw;
    (split; [reflexivity|]); (split; [reflexivity|]); (split; [exact Elen|]);
    (split; [apply strip_trimmed|]).
  - left. split; [first [reflexivity | exact Eclient] | reflexivity].
  - right. exists e. split; [first [reflexivity | exact Eclient] | reflexivity].
Qed.

Lemma configure_api_stores_stripped_key_witness :
  active_chats {| api_key := PStr (py "0123456789abcdef"); active_chats := ∅ |}
  = active_chats fresh_service.
Proof.
  apply (configure_api_stores_stripped_key offline fresh_service
           {| api_key := PStr (py "0123456789abcdef"); active_chats := ∅ |}
           (PDict [(py "api_key", PStr (py "  0123456789abcdef "))])
           (JsonMessage (py "API key configured successfully"))).
  vm_compute. reflexivity.
Defined.

(** X23.  [/api/chat/stream] starts a chat stream only for a message with
    something other than whitespace in it, a key that is truthy and an
    article that is a dict with at least one entry; the stream gets the
    stripped message.  So inside the stream the reads of the article never
    fail. *)
Theorem chat_route_streams_with_article (w : World)
    (md5_of_sum : pyval -> pyval -> result str) (svc : GeminiContentService)
    (data : pyval) (stream : chat_stream) (evs : list chat_event) :
  chat_with_article_streaming w md5_of_sum svc data stream = Ok (ChatEventStream evs) ->
  exists raw d key,
    py_get data (py "message") (PStr []) = Ok (PStr raw) /\
    strip w raw <> [] /\
    py_get data (py "article") (PDict []) = Ok (PDict d) /\ d <> [] /\
    py_get data (py "api_key") PNone = Ok key /\ truthy w key = true /\
    evs = generate_chat_stream w md5_of_sum svc (strip w raw) (PDict d) key stream /\
    exists augmented, message_augmented_with_context w (strip w raw) (PDict d) = Ok augmented.
Proof.
  unfold chat_with_article_streaming. intros H.
  destruct (py_get data (py "message") (PStr [])) as [v_message|e] eqn:Em;
    cbn [mbind result_bind rbind] in H; [|discriminate].
  destruct (py_strip w v_message) as [message|e] eqn:Es;
    cbn [mbind result_bind rbind] in H; [|discriminate].
  apply py_strip_text in Es as (raw & -> & ->).
  destruct (py_get data (py "article") (PDict [])) as [article|e] eqn:Ea;
    cbn [mbind result_bind rbind] in H; [|discriminate].
  destruct (py_get data (py "conversation_history") (PList [])) as [history|e];
    cbn [mbind result_bind rbind] in H; [|discriminate].
  destruct (py_get data (py "api_key") PNone) as [key|e] eqn:Ek;
    cbn [mbind result_bind rbind] in H; [|discriminate].
  destruct (truthy w article) eqn:Et.
  - destruct (py_keys article) as [keys|e] eqn:Ekeys;
      cbn [mbind result_bind rbind] in H; [|discriminate].
    destruct (py_len history); cbn [mbind result_bind rbind] in H; [|discriminate].
    destruct (nonempty (strip w raw)) eqn:Ene; cbn [negb] in H; [|discriminate].
    destruct (truthy w key) eqn:Etk; cbn [negb] in H; [|discriminate].
    apply Ok_inj in H. injection H as <-.
    destruct article as [| | | | | |d]; try discriminate.
    exists raw, d, key. split; [first [reflexivity | exact Em]|]. split; [apply nonempty_true, Ene|].
    split; [first [reflexivity | exact Ea]|]. split; [destruct d; [discriminate Et | discriminate]|].
    split; [first [reflexivity | exact Ek]|]. split; [first [reflexivity | exact Etk]|]. split; [reflexivity|].
    eexists. reflexivity.
  - cbn [mbind result_bind rbind] in H.
    destruct (py_len history); cbn [mbind result_bind rbind] in H; [|discriminate].
    destruct (nonempty (strip w raw)); cbn [negb] in H; [|discriminate].
    destruct (truthy w key); cbn [negb] in H; discriminate.
Qed.

Lemma chat_route_streams_with_article_witness :
  exists raw d key,
    py_get (PDict [(py "message", PStr (py " Why? "));
                   (py "article", PDict [(py "title", PStr (py "T"))]);
                   (py "api_key", PStr (py "key"))]) (py "message") (PStr [])
    = Ok (PStr raw) /\
    strip offline raw <> [] /\
    py_get (PDict [(py "message", PStr (py " Why? "));
                   (py "article", PDict [(py "title", PStr (py "T"))]);
                   (py "api_key", PStr (py "key"))]) (py "article") (PDict [])
    = Ok (PDict d) /\ d <> [] /\
    py_get (PDict [(py "message", PStr (py " Why? "));
                   (py "article", PDict [(py "title", PStr (py "T"))]);
                   (py "api_key", PStr (py "key"))]) (py "api_key") PNone = Ok key /\
    truthy offline key = true /\
    [EvChatChunk (py "Because."); EvChatComplete (py "Because.")]
    = generate_chat_stream offline (fun _ _ => Ok (py "0f")) fresh_service
        (strip offline raw) (PDict d) key
        {| chat_chunks := [MockChunk (py "Because.") None]; chat_failure := None |} /\
    exists augmented,
      message_augmented_with_context offline (strip offline raw) (PDict d) = Ok augmented.
Proof.
  apply (chat_route_streams_with_article offline (fun _ _ => Ok (py "0f")) fresh_service
           (PDict [(py "message", PStr (py " Why? "));
                   (py "article", PDict [(py "title", PStr (py "T"))]);
                   (py "api_key", PStr (py "key"))])
           {| chat_chunks := [MockChunk (py "Because.") None]; chat_failure := None |}).
  vm_compute. reflexivity.
Defined.

(** X24.  The log lines of [/api/chat/stream] run before its checks: a
    request whose article is a truthy value other than a dict, or whose
    conversation history has no length, makes the route raise, whatever its
    message and its key are, instead of being answered with status 400. *)
Theorem chat_route_logging_raises (w : World) (md5_of_sum : pyval -> pyval -> result str)
    (svc : GeminiContentService) (fields : dict) (raw : str) (stream : chat_stream) :
  dict_get fields (py "message") (PStr []) = PStr raw ->
  let article := dict_get fields (py "article") (PDict []) in
  let history := dict_get fields (py "conversation_history") (PList []) in
  (truthy w article = true -> is_dict article = false ->
   chat_with_article_streaming w md5_of_sum svc (PDict fields) stream
   = Raise AttributeError) /\
  (is_dict article = true -> forall e, py_len history = Raise e ->
   chat_with_article_streaming w md5_of_sum svc (PDict fields) stream = Raise e).
Proof.
  intros Hm article history. unfold chat_with_article_streaming.
  cbn [py_get mbind result_bind rbind]. rewrite Hm.
  cbn [py_strip mbind result_bind rbind]. fold article. fold history. split.
  - intros Ht Hd. rewrite Ht. destruct article; try discriminate; reflexivity.
  - intros Hd e He. destruct article as [| | | | | |d]; try discriminate.
    destruct (truthy w (PDict d)); cbn [py_keys mbind result_bind rbind]; rewrite He;
      reflexivity.
Qed.

Lemma chat_route_logging_raises_witness :
  chat_with_article_streaming offline (fun _ _ => Ok (py "0f")) fresh_service
    (PDict [(py "article", PStr (py "an article"))])
    {| chat_chunks := []; chat_failure := None |}
  = Raise AttributeError.
Proof.
  apply (proj1 (chat_route_logging_raises offline (fun _ _ => Ok (py "0f")) fresh_service
                  [(py "article", PStr (py "an article"))] []
                  {| chat_chunks := []; chat_failure := None |} eq_refl));
    reflexivity.
Defined.



(** ** Parsing and the results of a search *)

(** X26.  The parse step of both endpoints either finds nothing to parse,
    or returns a list, or raises what [json.loads] raises:
    [JSONDecodeError] for a text that is no JSON, which the loops catch, and
    [ValueError] or [RecursionError] from underneath the decoder, which they
    do not.  It returns a value, and raises, only before the results were
    sent; what it returns is always a list; a text without an opening bracket
    is never parsed; and where integers are limited to 4300 digits, an array
    with an integer of 4301 digits raises [ValueError]. *)
Theorem parse_accumulated_outcomes (w : World) (accumulated_content : str)
    (results_sent : bool) :
  (forall data,
     parse_accumulated w accumulated_content results_sent = Ok (Some data) ->
     results_sent = false /\ exists l, data = PList l) /\
  (forall e,
     parse_accumulated w accumulated_content results_sent = Raise e ->
     results_sent = false /\
     (e = JSONDecodeError \/ e = ValueError \/ e = RecursionError) /\
     (is_JSONDecodeError_or_KeyError e = true <-> e = JSONDecodeError)) /\
  (str_find opening_bracket accumulated_content = None ->
   parse_accumulated w accumulated_content results_sent = Ok None) /\
  (int_max_str_digits w = 4300%N ->
   parse_accumulated w
     (opening_bracket :: List.repeat (ch "1") 4301 ++ [closing_bracket]) false
   = Raise ValueError).
Proof.
  split; [|split; [|split]].
  - intros data H. split; [|exact (parse_accumulated_list w _ _ _ H)].
    unfold parse_accumulated in H. destruct (re_search _ _); [|discriminate].
    destruct results_sent; [discriminate | reflexivity].
  - intros e H. split; [|split].
    + unfold parse_accumulated in H. destruct (re_search _ _); [|discriminate].
      destruct results_sent; [discriminate | reflexivity].
    + exact (parse_accumulated_raises w _ _ _ H).
    + apply parse_accumulated_raises in H as [-> | [-> | ->]];
        (split; [intros E; first [reflexivity | discriminate E]
                |intros E; first [reflexivity | discriminate E]]).
  - intros H. unfold parse_accumulated, json_array_pattern.
    rewrite (search_needs_first_char (ch "[") _ _ H). reflexivity.
  - intros Hlimit.
    assert (re_search (json_array_pattern w)
              (opening_bracket :: List.repeat (ch "1") 4301 ++ [closing_bracket])
            = Some (opening_bracket :: List.repeat (ch "1") 4301 ++ [closing_bracket])) as Hm
      by (vm_compute; reflexivity).
    unfold parse_accumulated. rewrite Hm. cbn [negb].
    assert (span_digits (List.repeat (ch "1") 4300 ++ [closing_bracket])
            = (List.repeat (ch "1") 4300, [closing_bracket])) as Hd
      by (vm_compute; reflexivity).
    assert (loads w (opening_bracket :: List.repeat (ch "1") 4301 ++ [closing_bracket])
            = Raise ValueError) as ->; [|reflexivity].
    unfold loads.
    change (skip_whitespace (opening_bracket :: ?s)) with (opening_bracket :: s).
    set (fuel := (2 * length _ + 2)%nat).
    assert (exists n, fuel = S (S (S n))) as (n & ->) by (vm_compute; eauto).
    cbn [Nat.add scan_once].
    change (N.eqb opening_bracket 34) with false.
    change (N.eqb opening_bracket 123) with false.
    change (N.eqb opening_bracket 91) with true. cbv iota.
    change (List.repeat (ch "1") 4301) with (ch "1" :: List.repeat (ch "1") 4300).
    cbn [app skip_whitespace]. change (is_json_whitespace (ch "1")) with false. cbv iota.
    change (N.eqb (ch "1") 93) with false. cbv iota.
    cbn [parse_array scan_once].
    change (N.eqb (ch "1") 34) with false.
    change (N.eqb (ch "1") 123) with false.
    change (N.eqb (ch "1") 91) with false. cbv iota.
    unfold literal_or_number.
    change (N.eqb (ch "1") 110) with false. change (N.eqb (ch "1") 116) with false.
    change (N.eqb (ch "1") 102) with false. change (N.eqb (ch "1") 78) with false.
    change (N.eqb (ch "1") 73) with false. change (N.eqb (ch "1") 45) with false.
    cbv iota zeta.
    unfold match_number, number_sign.
    change (N.eqb (ch "1") 45) with false. cbv iota.
    unfold number_integer. change (between 49 57 (ch "1")) with true. cbv iota.
    rewrite Hd. unfold number_fraction, number_exponent. cbv iota beta.
    change (N.eqb closing_bracket 101 || N.eqb closing_bracket 69) with false. cbv iota.
    unfold int_too_long. rewrite Hlimit.
    assert (N.of_nat (length (ch "1" :: List.repeat (ch "1") 4300)) = 4301%N) as ->
      by (vm_compute; reflexivity).
    reflexivity.
Qed.

Lemma parse_accumulated_outcomes_witness :
  parse_accumulated offline (py "Here is what I found so far") false = Ok None /\
  parse_accumulated offline
    (opening_bracket :: List.repeat (ch "1") 4301 ++ [closing_bracket]) false
  = Raise ValueError.
Proof.
  split.
  - apply (proj1 (proj2 (proj2 (parse_accumulated_outcomes offline
                                  (py "Here is what I found so far") false)))).
    reflexivity.
  - apply (proj2 (proj2 (proj2 (parse_accumulated_outcomes offline [] false)))).
    reflexivity.
Defined.

Section LookupFailure.
Variable w : World.
Variable svc : GeminiContentService.

Lemma process_single_item_fails call item ci t :
  titled w item ci t ->
  truthy w (api_key svc) = false \/
  (exists e, generate_content_for_url w call t (format w (source ci)) = Raise e) ->
  process_single_item w svc call item =
  Raise (if truthy w (api_key svc) then AttributeError else ValueError).
Proof.
  intros [Hci Ht] Hfail. unfold process_single_item. rewrite Hci. run_result.
  rewrite Ht. cbn [format]. unfold _call_gemini_api_for_url.
  destruct (truthy w (api_key svc)); cbn [negb]; [|reflexivity].
  destruct Hfail as [Hkey | [e He]]; [discriminate|]. rewrite He. reflexivity.
Qed.
End LookupFailure.



Section Fallback.
Variable w : World.

Lemma validate_content_batch_in_time items :
  forallb is_dict items = true ->
  in_time w (length items) ->
  validate_content_batch w (PList items) =
  Ok (PList (omap (validated w) (as_completed (completion_order w) items))).
Proof.
  intros Hdicts Htime. unfold validate_content_batch. cbn [py_iter].
  cbn [mbind result_bind rbind]. rewrite delivered_map. unfold delivered.
  set (ordered := as_completed (completion_order w) items).
  assert (length ordered = length items) as Hlen by apply as_completed_length.
  assert (forallb is_dict ordered = true) as Hordered.
  { apply forallb_forall. intros x Hx. rewrite forallb_forall in Hdicts. apply Hdicts.
    apply (as_completed_In (completion_order w)). exact Hx. }
  unfold in_time in Htime. destruct (batch_deadline w) as [k|]; cbn [fst snd].
  - rewrite take_ge by lia. rewrite collect_valid_items, Hordered.
    cbn [mbind result_bind rbind app].
    assert ((k <? length ordered)%nat = false) as -> by (apply Nat.ltb_ge; lia).
    reflexivity.
  - rewrite collect_valid_items, Hordered. reflexivity.
Qed.

Lemma omap_nil_perm {A B} (f : A -> option B) (l l' : list A) :
  Permutation l' l -> omap f l = [] -> omap f l' = [].
Proof.
  intros Hp Hl. apply Permutation_nil_r. rewrite <- Hl. apply omap_Permutation.
  exact Hp.
Qed.

(** The search endpoint on a text that parses to dicts none of which is
    valid. *)
Lemma try_send_results_none_valid accumulated_content items :
  parse_accumulated w accumulated_content false = Ok (Some (PList items)) ->
  forallb is_dict items = true ->
  in_time w (length items) ->
  omap (validated w) items = [] ->
  try_send_results w accumulated_content false =
  ([Yield (EvParsingComplete (length items));
    Yield (EvResults (match items with [] => [] | _ :: _ => [mock_item w] end))],
   Ok true).
Proof.
  intros Hp Hdicts Htime Hnone. unfold try_send_results. rewrite Hp, bind_lift.
  cbn [py_len]. rewrite bind_lift, bind_yield, bind_lift.
  rewrite (validate_content_batch_in_time items Hdicts Htime).
  rewrite (omap_nil_perm _ items _ (as_completed_perm _ _) Hnone).
  rewrite bind_lift. destruct items as [|item items].
  - reflexivity.
  - change (or_mock_results w (PList []) (PList (item :: items))) with _get_mock_results.
    rewrite convert_mock_results. reflexivity.
Qed.
End Fallback.



(** ** The call for results without streaming *)

(** X29.  [_call_gemini_api_for_results] without a stored key raises
    [ValueError]; with a key it never raises, whatever the call of the model
    and the parsing do, and what it returns is always a list of dicts: the
    parsed list, or the mock results when the call failed or the reply has
    no candidate. *)
Theorem call_for_results_total (w : World) (svc : GeminiContentService)
    (generate_content : result results_response) :
  (truthy w (api_key svc) = false ->
   _call_gemini_api_for_results w svc generate_content = Raise ValueError) /\
  (truthy w (api_key svc) = true ->
   exists dict_list,
     _call_gemini_api_for_results w svc generate_content = Ok dict_list /\
     is_list_of_dicts dict_list = true /\
     ((forall response first,
         generate_content = Ok response -> first_candidate response = Ok first ->
         dict_list = _parse_gemini_response_sdk w (results_text response)) /\
      ((forall response, generate_content = Ok response ->
          exists e, first_candidate response = Raise e) ->
       dict_list = _get_mock_results))).
Proof.
  unfold _call_gemini_api_for_results. split; intros Hkey; rewrite Hkey; cbn [negb].
  - reflexivity.
  - destruct generate_content as [response|e]; cbn [try_except mbind result_bind rbind].
    + destruct (first_candidate response) as [first|e] eqn:Ec;
        cbn [try_except mbind result_bind rbind].
      * eexists. split; [reflexivity|]. split; [apply parse_response_well_typed|].
        split.
        -- intros response' first' H _. apply Ok_inj in H. subst response'. reflexivity.
        -- intros H. destruct (H response eq_refl) as [e He]. congruence.
      * eexists. split; [reflexivity|]. split; [reflexivity|]. split.
        -- intros response' first' H H'. apply Ok_inj in H. subst response'. congruence.
        -- reflexivity.
    + eexists. split; [reflexivity|]. split; [reflexivity|]. split.
      * intros response first H. discriminate.
      * reflexivity.
Qed.

Lemma call_for_results_total_witness :
  _call_gemini_api_for_results offline fresh_service (Raise RequestsTimeout)
  = Raise ValueError.
Proof.
  apply (proj1 (call_for_results_total offline fresh_service (Raise RequestsTimeout))).
  reflexivity.
Defined.

(** ** A model stream that fails after some chunks *)

Section MidStream.
Variable w : World.

Lemma str_find_app_l c a b : str_find c (a ++ b) = None -> str_find c a = None.
Proof.
  induction a as [|x a IH]; [reflexivity|]. cbn [app str_find].
  destruct (N.eqb x c); [discriminate|].
  destruct (str_find c (a ++ b)) eqn:E; [discriminate|]. intros _.
  rewrite IH by reflexivity. reflexivity.
Qed.

Lemma re_search_skips_prefix c r prefix s :
  str_find c prefix = None ->
  re_search (Seq (Chr c) r) (prefix ++ s) = re_search (Seq (Chr c) r) s.
Proof.
  induction prefix as [|x prefix IH]; intros H; [reflexivity|].
  cbn [str_find] in H. destruct (N.eqb x c) eqn:E; [discriminate|].
  destruct (str_find c prefix); [discriminate|].
  cbn [app re_search]. unfold match_len at 1. cbn [rmatch]. rewrite E. apply IH. reflexivity.
Qed.

Lemma parse_skips_prefix prefix s results_sent :
  str_find opening_bracket prefix = None ->
  parse_accumulated w (prefix ++ s) results_sent = parse_accumulated w s results_sent.
Proof.
  intros H. unfold parse_accumulated, json_array_pattern.
  rewrite (re_search_skips_prefix (ch "[") _ prefix s H). reflexivity.
Qed.

Lemma try_send_results_same_parse a b results_sent :
  parse_accumulated w a results_sent = parse_accumulated w b results_sent ->
  try_send_results w a results_sent = try_send_results w b results_sent.
Proof. intros H. unfold try_send_results. rewrite H. reflexivity. Qed.

Lemma try_send_recommendations_same_parse svc' a b results_sent :
  parse_accumulated w a results_sent = parse_accumulated w b results_sent ->
  try_send_recommendations w svc' a results_sent =
  try_send_recommendations w svc' b results_sent.
Proof. intros H. unfold try_send_recommendations. rewrite H. reflexivity. Qed.

Lemma accumulated_after_app a b j :
  accumulated_after (length a + j) (a ++ b)
  = accumulated_after (length a) a ++ accumulated_after j b.
Proof.
  unfold accumulated_after, join. induction a as [|x a IH]; [reflexivity|].
  cbn [length Nat.add app take List.map List.concat]. rewrite IH, app_assoc. reflexivity.
Qed.

Lemma accumulated_after_prefix chunks j k :
  (j <= k)%nat ->
  exists rest, accumulated_after k chunks = accumulated_after j chunks ++ rest.
Proof.
  intros Hjk. unfold accumulated_after, join.
  exists (List.concat (List.map answer_text (drop j (take k chunks)))).
  rewrite <- List.concat_app, <- List.map_app.
  replace (take j chunks) with (take j (take k chunks))
    by (rewrite take_take; f_equal; lia).
  rewrite take_drop. reflexivity.
Qed.

Lemma failed_stream_after_chunks svc' api e :
  truthy w (api_key svc') = true ->
  api_failure api = Some e ->
  _call_gemini_api_for_results_streaming w svc' api
  = api_chunks api ++ _create_mock_streaming_response.
Proof.
  intros Hkey Hfail. unfold _call_gemini_api_for_results_streaming.
  rewrite Hkey, Hfail. reflexivity.
Qed.
End MidStream.

Section MidStreamFailure.
Variable w : World.
Variable svc : GeminiContentService.
Variable key : pyval.
Variable api : api_stream.
Variable e : exn.
Hypothesis client_built : client_init w key = Ok tt.
Hypothesis key_given : truthy w key = true.
Hypothesis fails : api_failure api = Some e.
Hypothesis no_bracket :
  str_find opening_bracket
    (accumulated_after (length (api_chunks api)) (api_chunks api)) = None.

Lemma midstream_chunks :
  _call_gemini_api_for_results_streaming w (with_key svc key) api
  = api_chunks api ++ _create_mock_streaming_response.
Proof. apply (failed_stream_after_chunks w _ api e); [exact key_given | exact fails]. Qed.

Lemma midstream_search query :
  in_time w 1 ->
  exists t item,
    quiet t /\
    stream_request w svc (SearchMode query) key api
    = t ++ [Yield (EvParsingComplete 1); Yield (EvResults [item]); Yield EvComplete] /\
    title item = PStr (py "Attention Is All You Need - Transformer Paper") /\
    source item = PStr (py "arXiv").
Proof.
  intros Htime. destruct (try_send_results_mock w Htime) as (item & Hsend & Htitle & Hsource).
  set (real := api_chunks api) in *.
  set (chunks := real ++ _create_mock_streaming_response).
  set (k := (length real + 4)%nat).
  assert (accumulated_after k chunks = accumulated_after (length real) real) as Hacc.
  { unfold k, chunks. rewrite accumulated_after_app.
    change (accumulated_after 4 _create_mock_streaming_response) with (@nil char).
    apply app_nil_r. }
  assert (drop k chunks = [MockChunk mock_results_text None]) as Hdrop.
  { unfold k, chunks. rewrite drop_app_ge by lia.
    replace (length real + 4 - length real)%nat with 4%nat by lia. reflexivity. }
  cbn [stream_request].
  rewrite generate_stream_unfold, (set_api_key_built w svc key client_built).
  unfold search_content_streaming. rewrite midstream_chunks. fold real. fold chunks.
  rewrite (search_loop_skips w k [] chunks).
  - cbn [app]. rewrite Hdrop, Hacc.
    rewrite (search_loop_sent w _ (MockChunk mock_results_text None) []
               [Yield (EvParsingComplete 1); Yield (EvResults [item])]).
    + rewrite bind_ok. cbn [fst snd]. rewrite finish_sent by reflexivity.
      exists (Yield (EvThought (initial_thought_search query)) ::
              thinking_trace (take k chunks) ++
              Pull (MockChunk mock_results_text None) ::
              fst (send_thinking (fst (classify (MockChunk mock_results_text None))))),
        item.
      split; [|split; [|split; assumption]].
      * constructor; [reflexivity|]. apply quiet_app; [apply thinking_trace_quiet|].
        constructor; [reflexivity | apply send_thinking_quiet].
      * repeat (cbn [app]; rewrite <- ?app_assoc). reflexivity.
    + vm_compute. reflexivity.
    + change (answer_text (MockChunk mock_results_text None)) with mock_results_text.
      rewrite (try_send_results_same_parse w _ mock_results_text); [exact Hsend|].
      apply parse_skips_prefix. exact no_bracket.
  - unfold k, chunks. rewrite length_app.
    change (length _create_mock_streaming_response) with 5%nat. lia.
  - intros j Hj. cbn [app].
    destruct (accumulated_after_prefix chunks (S j) k) as [rest Hrest]; [lia|].
    rewrite Hacc in Hrest. pose proof no_bracket as Hnone. rewrite Hrest in Hnone.
    apply str_find_app_l in Hnone.
    left. unfold parse_accumulated, json_array_pattern.
    rewrite (search_needs_first_char (ch "[") _ _ Hnone). reflexivity.
Qed.

Lemma midstream_recommendations :
  exists t item,
    quiet t /\
    stream_request w svc RecommendationMode key api
    = t ++ [Yield (EvParsingComplete 1); Yield (EvResults [item]); Yield EvComplete] /\
    title item = PStr (py "Attention Is All You Need - Transformer Paper") /\
    source item = PStr (py "arXiv").
Proof.
  destruct (try_send_recommendations_mock w (with_key svc key))
    as (item & Hsend & Htitle & Hsource).
  set (real := api_chunks api) in *.
  cbn [stream_request].
  rewrite generate_stream_attempt_unfold, (set_api_key_built w svc key client_built).
  unfold stream_recommendations, get_recommendations_streaming.
  rewrite midstream_chunks, accumulate_loop_run, bind_ok. fold real. cbn [fst snd app].
  assert (accumulated_after (length (real ++ _create_mock_streaming_response))
            (real ++ _create_mock_streaming_response)
          = accumulated_after (length real) real ++ mock_results_text) as ->.
  { rewrite length_app, accumulated_after_app. rewrite mock_stream_text. reflexivity. }
  assert (lift (match real ++ _create_mock_streaming_response with
                | [] => Raise UnboundLocalError
                | _ :: _ => Ok tt
                end) = (lift (Ok tt) : gen unit)) as ->.
  { destruct real; reflexivity. }
  rewrite bind_lift.
  rewrite (try_send_recommendations_same_parse w _ _ mock_results_text)
    by (apply parse_skips_prefix; exact no_bracket).
  rewrite Hsend. cbn [gen_try fst snd].
  rewrite finish_sent by reflexivity.
  exists (Yield (EvThought initial_thought_recommendations) ::
          thinking_trace (real ++ _create_mock_streaming_response)), item.
  split; [|split; [|split; assumption]].
  - constructor; [reflexivity | apply thinking_trace_quiet].
  - repeat (cbn [app]; rewrite <- ?app_assoc). reflexivity.
Qed.
End MidStreamFailure.


